(** * The testgrid updater: grid assembly, build reading and gs:// paths

    A shallow embedding of the updater (package [main] of
    [testgrid/cmd/updater]) together with the pieces of the Go standard
    library it calls, and the properties of the embedding that the
    specification of the updater states. *)

From Stdlib Require Import ZArith Lia String Ascii List SpecFloat.
From stdpp Require Import base option list gmap strings pretty.

(** ** Go values *)

Module Go.

(** Two's complement wrap-around of a [w]-bit signed integer. *)
Definition wrap (w : Z) (z : Z) : Z :=
  ((z + 2 ^ (w - 1)) mod 2 ^ w - 2 ^ (w - 1))%Z.

Definition int32 (z : Z) : Z := wrap 32 z.
Definition int64 (z : Z) : Z := wrap 64 z.

Definition in_int32 (z : Z) : Prop := (- 2 ^ 31 <= z < 2 ^ 31)%Z.
Definition in_int64 (z : Z) : Prop := (- 2 ^ 63 <= z < 2 ^ 63)%Z.

(** A [float64] is an IEEE 754 binary64 number; [float64(i)] rounds the
    integer [i] to the nearest one, ties to even. *)
Definition float64 : Type := spec_float.
Definition float64_of_int64 (z : Z) : float64 :=
  binary_normalize 53 1024 z 0 false.

(** [s[i]] on a slice: [None] stands for the run-time panic. *)
Definition index {A} (l : list A) (i : Z) : option A :=
  if (i <? 0)%Z then None else l !! Z.to_nat i.

(** [s[a:]], [s[:b]] on strings whose bounds are in range. *)
Definition slice_from (a : nat) (s : string) : string :=
  substring a (String.length s - a) s.
Definition slice_to (b : nat) (s : string) : string :=
  substring 0 b s.

End Go.

(** ** Package [state]: the grid that is written out

    The generated protocol-buffer code is not part of the sources; the
    records below carry the fields the updater reads and writes. *)

Module state.

(** [Row_Result] is an [int32] enumeration. *)
Abbreviation Row_Result := Z.

(** Modelled from the spec: the enumerators of [state.Row_Result] that the
    updater names; the generated constants are missing from the sources,
    the numbers are those of testgrid's [state.proto]. *)
Definition Row_NO_RESULT : Row_Result := 0%Z.
Definition Row_PASS : Row_Result := 1%Z.
Definition Row_PASS_WITH_ERRORS : Row_Result := 2%Z.
Definition Row_PASS_WITH_SKIPS : Row_Result := 3%Z.
Definition Row_RUNNING : Row_Result := 4%Z.
Definition Row_FAIL : Row_Result := 12%Z.
Definition Row_FLAKY : Row_Result := 13%Z.

Module Metric.
Record t : Type := mk
  { Name : string;
    Indices : list Z;
    Values : list Go.float64 }.
End Metric.

Module Row.
Record t : Type := mk
  { Name : string;
    Id : string;
    Results : list Z;
    CellIds : list string;
    Messages : list string;
    Icons : list string;
    Metrics : list Metric.t }.
End Row.

Module Column.
Record t : Type := mk
  { Build : string;
    Started : Go.float64;
    Extra : list string }.
End Column.

End state.

(** ** The updater's own records *)

Module Row.
Record t : Type := mk
  { Result : state.Row_Result;
    Metrics : gmap string Go.float64;
    Metadata : gmap string string;
    Message : string;
    Icon : string }.
End Row.

Module Column.
Record t : Type := mk
  { Id : string;
    Started : Z;
    Finished : Z;
    Passed : bool;
    Rows : gmap string (list Row.t);
    Metadata : gmap string string }.
End Column.

Definition elapsedKey : string := "seconds-elapsed".

(** [var noResult = Row{Result: state.Row_NO_RESULT}] *)
Definition noResult : Row.t :=
  Row.mk state.Row_NO_RESULT ∅ ∅ "" "".

(** ** Run-length encoded results *)

(** [sum(results[1::2])]: the total of the counts of an RLE list. *)
Fixpoint rle_total (l : list Z) : Z :=
  match l with
  | _ :: c :: l' => (c + rle_total l')%Z
  | _ => 0%Z
  end.

(** The cells of a row that hold a result: the total of the counts of the
    groups whose value is not [NO_RESULT]. *)
Fixpoint rle_filled (l : list Z) : Z :=
  match l with
  | v :: c :: l' =>
      ((if decide (v = state.Row_NO_RESULT) then 0 else c) + rle_filled l')%Z
  | _ => 0%Z
  end.

(** An RLE list is made of (value, count) pairs with counts that are not
    negative. *)
Fixpoint rle_wf (l : list Z) : Prop :=
  match l with
  | [] => True
  | _ :: c :: l' => (0 <= c)%Z ∧ rle_wf l'
  | _ => False
  end.

(** ** [AppendResult]

    [latest := int32(rowResult.Result)] converts between two names of the
    same 32-bit type and leaves the value as it is. *)

Definition AppendResult (row : state.Row.t) (rowResult : Row.t) (count : Z)
  : option state.Row.t :=
  let latest := Row.Result rowResult in
  let results := state.Row.Results row in
  let n := Z.of_nat (length results) in
  results' ←
    (if decide (n = 0%Z) then Some (results ++ [latest; Go.int32 count])
     else
       prev ← Go.index results (n - 2);
       if decide (prev ≠ latest)
       then Some (results ++ [latest; Go.int32 count])
       else
         last ← Go.index results (n - 1);
         Some (<[Z.to_nat (n - 1) := Go.int32 (last + Go.int32 count)]> results));
  let cellIds := state.Row.CellIds row ++ replicate (Z.to_nat count) ""%string in
  let filled := negb (bool_decide (Row.Result rowResult = state.Row_NO_RESULT)) in
  let messages :=
    if filled
    then state.Row.Messages row ++ replicate (Z.to_nat count) (Row.Message rowResult)
    else state.Row.Messages row in
  let icons :=
    if filled
    then state.Row.Icons row ++ replicate (Z.to_nat count) (Row.Icon rowResult)
    else state.Row.Icons row in
  Some (state.Row.mk (state.Row.Name row) (state.Row.Id row) results'
          cellIds messages icons (state.Row.Metrics row)).

(** ** Package [strings] *)

Module strings.

(** [strings.Index(s, sep)]: the position of the first occurrence of
    [sep] in [s]; [None] stands for [-1]. *)
Fixpoint Index (s sep : string) : option nat :=
  if String.prefix sep s then Some 0
  else match s with
       | EmptyString => None
       | String _ s' => S <$> Index s' sep
       end.

Definition Contains (s sep : string) : bool :=
  bool_decide (is_Some (Index s sep)).

Definition HasPrefix (s p : string) : bool := String.prefix p s.

(** The loop of [genSplit] for a non-empty separator: at most [k] cuts,
    the last element is the remainder. *)
Fixpoint split_loop (k : nat) (s sep : string) : list string :=
  match k with
  | 0 => [s]
  | S k' =>
      match Index s sep with
      | None => [s]
      | Some m =>
          Go.slice_to m s
            :: split_loop k' (Go.slice_from (m + String.length sep) s) sep
      end
  end.

(** [strings.SplitN(s, sep, n)] for a non-empty [sep] and [n >= 0]. *)
Definition SplitN (s sep : string) (n : nat) : list string :=
  match n with
  | 0 => []
  | S k => split_loop k s sep
  end.

End strings.

(** [fmt.Sprintf("%s [%d]", prefix, idx)] *)
Definition Sprintf_indexed (prefix : string) (idx : Z) : string :=
  prefix +:+ " [" +:+ pretty idx +:+ "]".

(** ** Metrics *)

Definition AppendMetric (metric : state.Metric.t) (idx : Z) (value : Go.float64)
  : option state.Metric.t :=
  let indices := state.Metric.Indices metric in
  let l := Go.int32 (Z.of_nat (length indices)) in
  indices' ←
    (if decide (l = 0%Z) then Some (indices ++ [idx; 1%Z])
     else
       start ← Go.index indices (l - 2);
       len ← Go.index indices (l - 1);
       if decide (Go.int32 (start + len) ≠ idx)
       then Some (indices ++ [idx; 1%Z])
       else Some (<[Z.to_nat (l - 1) := Go.int32 (len + 1)]> indices));
  Some (state.Metric.mk (state.Metric.Name metric) indices'
          (state.Metric.Values metric ++ [value])).

(** [FindMetric] returns a pointer into [row.Metrics]: the position of the
    first metric called [name], [None] for [nil]. *)
Fixpoint FindMetric_from (i : nat) (ms : list state.Metric.t) (name : string)
  : option nat :=
  match ms with
  | [] => None
  | m :: ms' =>
      if decide (state.Metric.Name m = name) then Some i
      else FindMetric_from (S i) ms' name
  end.

Definition FindMetric (row : state.Row.t) (name : string) : option nat :=
  FindMetric_from 0 (state.Row.Metrics row) name.

(** ** Names *)

Module NameConfig.
Record t : Type := mk
  { format : string;
    parts : list string }.
End NameConfig.

(** [MakeNameConfig(nil)] *)
Definition defaultNameConfig : NameConfig.t :=
  NameConfig.mk "%s" ["Tests name"%string].

(** The grid under construction. A [*state.Row] is the position of the row
    in [grid.Rows]: [AppendColumn] allocates a row only when it appends it
    there, and rows are never removed. *)
Module Grid.
Record t : Type := mk
  { Columns : list state.Column.t;
    Rows : list state.Row.t }.
End Grid.

(** ** [AppendColumn] *)

(** The state of the loop over the records of one column. *)
Module Assembly.
Record t : Type := mk
  { grid_rows : list state.Row.t;
    rows : gmap string nat;
    missing : gmap string nat;
    found : gset string }.
End Assembly.

(** Monadic fold: the loop stops at the first panic. *)
Fixpoint foldM {A B} (f : B → A → option B) (l : list A) (b : B) : option B :=
  match l with
  | [] => Some b
  | a :: l' => b' ← f b a; foldM f l' b'
  end.

(** [for idx := 1; found[name]; idx++ { name = Sprintf("%s [%d]", prefix, idx) }]
    The loop leaves within [size found + 1] tests of [found[name]]
    ([unique_name_fuel] below); [fuel] counts the tests that remain. *)
Fixpoint unique_name (fuel : nat) (found : gset string) (prefix name : string)
    (idx : Z) : option string :=
  if decide (name ∈ found)
  then match fuel with
       | 0 => None
       | S fuel' =>
           unique_name fuel' found prefix (Sprintf_indexed prefix idx) (idx + 1)
       end
  else Some name.

(** The extra value of one header: the body of the loop over [headers]. *)
Definition header_extra (build : Column.t) (h : string) : string :=
  if decide (Column.Finished build = 0%Z) then ""
  else
    let '(h, trunc, ah) :=
      if decide (h = "Commit")
      then ("repo-commit"%string, 9, "job-version"%string)
      else (h, 0, ""%string) in
    let v :=
      match Column.Metadata build !! h with
      | Some v => v
      | None =>
          if decide (ah = "") then "missing"%string
          else
            match Column.Metadata build !! ah with
            | Some av =>
                let parts := strings.SplitN av "+" 2 in
                default ""%string (parts !! (length parts - 1))
            | None => ""%string
            end
      end in
    if decide (0 < trunc ∧ trunc < String.length v)
    then Go.slice_to trunc v
    else v.

(** [c := state.Column{...}] with the extra values of all headers. *)
Definition column_record (headers : list string) (build : Column.t)
  : state.Column.t :=
  state.Column.mk (Column.Id build)
    (Go.float64_of_int64 (Go.int64 (Column.Started build * 1000)))
    (header_extra build <$> headers).

Section Updater.

(** [fmt.Sprintf] applied to string operands. *)
Variable Sprintf : string → list string → string.

(** [range m]: the entries of a map in the order the loop visits them,
    which Go leaves unspecified. *)
Variable range : ∀ V : Type, gmap string V → list (string * V).

Definition Row_Format (r : Row.t) (config : NameConfig.t)
    (meta : gmap string string) : string :=
  let parsed :=
    (λ p, match Row.Metadata r !! p with
          | Some v => v
          | None => default ""%string (meta !! p)
          end) <$> NameConfig.parts config in
  Sprintf (NameConfig.format config) parsed.

(** The body of [for k, v := range br.Metrics]. *)
Definition append_metric (r : state.Row.t) (kv : string * Go.float64)
  : option state.Row.t :=
  let '(k, v) := kv in
  let idx := Go.int32 (Z.of_nat (length (state.Row.Messages r))) in
  match FindMetric r k with
  | Some i =>
      m ← state.Row.Metrics r !! i;
      m' ← AppendMetric m idx v;
      Some (state.Row.mk (state.Row.Name r) (state.Row.Id r)
              (state.Row.Results r) (state.Row.CellIds r)
              (state.Row.Messages r) (state.Row.Icons r)
              (<[i := m']> (state.Row.Metrics r)))
  | None =>
      m' ← AppendMetric (state.Metric.mk k [] []) idx v;
      Some (state.Row.mk (state.Row.Name r) (state.Row.Id r)
              (state.Row.Results r) (state.Row.CellIds r)
              (state.Row.Messages r) (state.Row.Icons r)
              (state.Row.Metrics r ++ [m']))
  end.

(** The body of [for _, br := range results], for the records of the
    key [target]; [ncols] is [len(grid.Columns)]. *)
Definition append_record (format : NameConfig.t) (build : Column.t)
    (ncols : nat) (target : string) (st : Assembly.t) (br : Row.t)
  : option Assembly.t :=
  let prefix := Row_Format br format (Column.Metadata build) in
  name ← unique_name (S (size (Assembly.found st))) (Assembly.found st)
           prefix prefix 1;
  let found := {[name]} ∪ Assembly.found st in
  let missing := delete name (Assembly.missing st) in
  '(p, grid_rows, rows) ←
    match Assembly.rows st !! name with
    | Some p => Some (p, Assembly.grid_rows st, Assembly.rows st)
    | None =>
        let r := state.Row.mk name target [] [] [] [] [] in
        r' ← (if decide (1 < ncols)
              then AppendResult r noResult (Z.of_nat ncols - 1)
              else Some r);
        let p := length (Assembly.grid_rows st) in
        Some (p, Assembly.grid_rows st ++ [r'], <[name := p]> (Assembly.rows st))
    end;
  r ← grid_rows !! p;
  r1 ← AppendResult r br 1;
  r2 ← foldM append_metric (range _ (Row.Metrics br)) r1;
  Some (Assembly.mk (<[p := r2]> grid_rows) rows missing found).

(** The body of [for target, results := range build.Rows]. *)
Definition append_target (format : NameConfig.t) (build : Column.t)
    (ncols : nat) (st : Assembly.t) (entry : string * list Row.t)
  : option Assembly.t :=
  foldM (append_record format build ncols entry.1) entry.2 st.

(** The body of [for _, row := range missing]. *)
Definition append_missing (grid_rows : list state.Row.t) (entry : string * nat)
  : option (list state.Row.t) :=
  r ← grid_rows !! entry.2;
  r' ← AppendResult r noResult 1;
  Some (<[entry.2 := r']> grid_rows).

Definition AppendColumn (headers : list string) (format : NameConfig.t)
    (grid : Grid.t) (rows : gmap string nat) (build : Column.t)
  : option (Grid.t * gmap string nat) :=
  let c := column_record headers build in
  let columns := Grid.Columns grid ++ [c] in
  let st0 := Assembly.mk (Grid.Rows grid) rows rows ∅ in
  st ← foldM (append_target format build (length columns))
         (range _ (Column.Rows build)) st0;
  grid_rows ← foldM append_missing (range _ (Assembly.missing st))
                (Assembly.grid_rows st);
  Some (Grid.mk columns grid_rows, Assembly.rows st).

End Updater.

(** ** JUnit results *)

Module JunitResult.
Record t : Type := mk
  { Name : string;
    Time : Go.float64;
    ClassName : string;
    Failure : option string;
    Output : option string;
    Error : option string;
    Skipped : option string }.

(** [p != nil && *p != ""] *)
Definition present (p : option string) : bool :=
  match p with
  | Some s => negb (bool_decide (s = ""%string))
  | None => false
  end.

(** The [switch] of [Message]: the text that is then shortened. *)
Definition text (jr : t) : string :=
  if present (Failure jr) then default ""%string (Failure jr)
  else if present (Skipped jr) then default ""%string (Skipped jr)
  else if present (Output jr) then default ""%string (Output jr)
  else ""%string.

Definition Message (jr : t) : string :=
  let max := 140 in
  let msg := text jr in
  let l := String.length msg in
  if decide (max = 0 ∨ l ≤ max) then msg
  else
    let h := max / 2 in
    Go.slice_to h msg +:+ "..." +:+ Go.slice_from (l - h - 1) msg.
End JunitResult.

(** ** Package [time]

    A [time.Time] is the number of nanoseconds since the Unix epoch, a
    [time.Duration] a number of nanoseconds. *)

Module time.
Definition Second : Z := 1000000000%Z.
Definition Hour : Z := (3600 * Second)%Z.
Definition Add (t d : Z) : Z := (t + d)%Z.
(** [t.Unix()]: whole seconds, rounded down. *)
Definition Unix (t : Z) : Z := (t / Second)%Z.
(** The zero [time.Time] is January 1 of year 1, 00:00:00 UTC. *)
Definition zero : Z := (-62135596800 * Second)%Z.
End time.

(** [Column.Overall], with [now] for [time.Now()]. *)
Definition Column_Overall (now : Z) (br : Column.t) : Row.t :=
  let metadata : gmap string string := {[ "Tests name"%string := "Overall"%string ]} in
  if decide (Column.Finished br > 0)%Z then
    Row.mk (if Column.Passed br then state.Row_PASS else state.Row_FAIL)
      {[ elapsedKey :=
           Go.float64_of_int64 (Go.int64 (Column.Finished br - Column.Started br)) ]}
      metadata "" ""
  else if decide (time.Unix (time.Add now (-24 * time.Hour)) > Column.Started br)%Z then
    Row.mk state.Row_FAIL ∅ metadata "Testing did not complete within 24 hours" "T"
  else
    Row.mk state.Row_RUNNING ∅ metadata "Still running; has not finished..." "R".

(** ** Package [path] *)

Module path.

(** [for len(path) > 0 && path[len(path)-1] == '/' { path = path[0 : len(path)-1] }] *)
Fixpoint strip_trailing_slashes (s : string) : string :=
  match s with
  | EmptyString => EmptyString
  | String c s' =>
      let t := strip_trailing_slashes s' in
      if decide (t = EmptyString ∧ c = "/"%char) then EmptyString
      else String c t
  end.

(** [if i := strings.LastIndex(path, "/"); i >= 0 { path = path[i+1:] }] *)
Fixpoint after_last_slash (s : string) : string :=
  match s with
  | EmptyString => EmptyString
  | String c s' =>
      if strings.Contains s' "/" then after_last_slash s'
      else if decide (c = "/"%char) then s'
      else s
  end.

Definition Base (p : string) : string :=
  if decide (p = ""%string) then "."%string
  else
    let p := after_last_slash (strip_trailing_slashes p) in
    if decide (p = ""%string) then "/"%string else p.

End path.

(** ** Build metadata *)

(** The values [encoding/json] stores in an [interface{}]. *)
#[local] Unset Elimination Schemes.
Inductive json : Type :=
| JNull
| JBool (b : bool)
| JNumber (f : Go.float64)
| JString (s : string)
| JArray (l : list json)
| JObject (l : list (string * json)).
#[local] Set Elimination Schemes.

Module Started.
Record t : Type := mk
  { Timestamp : Z;
    RepoVersion : string;
    Node : string;
    Pull : string;
    Repos : gmap string string }.
End Started.

Module Finished.
Record t : Type := mk
  { Timestamp : Z;
    Passed : bool;
    JobVersion : string;
    Metadata : gmap string json;
    running : bool }.
End Finished.

(** [Metadata.ColumnMetadata]: the entries whose value is a string. *)
Definition ColumnMetadata (m : gmap string json) : gmap string string :=
  omap (λ v, match v with JString s => Some s | _ => None end) m.

(** ** [ReadBuild] *)

(** What the main goroutine of [ReadBuild] receives while it waits for
    [started.json] and [finished.json]: a value from [ec] ([None] is the
    [nil] sent when every task is done), from [sc] or from [fc]. *)
Inductive received : Type :=
| FromEc (err : option string)
| FromSc (s : Started.t)
| FromFc (f : Finished.t).

(** The outcome of the second [select] of [ReadBuild]. *)
Inductive selected : Type :=
| CtxDone
| Ec (err : option string).

Inductive ReadError : Type :=
| FailedToRead (cause : string)
| Interrupted.

(** [for { select {...}; if started != nil && finished != nil { break } }]:
    [None] when the channels deliver no further value. *)
Fixpoint wait_started_finished (evs : list received)
    (started : option Started.t) (finished : option Finished.t)
  : option (string + Started.t * Finished.t) :=
  match evs with
  | [] => None
  | ev :: evs' =>
      match ev with
      | FromEc (Some err) => Some (inl err)
      | _ =>
          let started := match ev with FromSc s => Some s | _ => started end in
          let finished := match ev with FromFc f => Some f | _ => finished end in
          match started, finished with
          | Some s, Some f => Some (inr (s, f))
          | _, _ => wait_started_finished evs' started finished
          end
      end
  end.

(** [br.Rows["Overall"][0].Icon = "F"; br.Rows["Overall"][0].Message = ...] *)
Definition amend_overall (rows : gmap string (list Row.t))
  : option (gmap string (list Row.t)) :=
  rs ← rows !! "Overall"%string;
  r ← rs !! 0;
  let r' := Row.mk (Row.Result r) (Row.Metrics r) (Row.Metadata r)
              "Build failed outside of test results" "F" in
  Some (<["Overall"%string := <[0 := r']> rs]> rows).

Section Reader.

Variable range : ∀ V : Type, gmap string V → list (string * V).

(** [for t, rs := range rows { br.Rows[t] = append(br.Rows[t], rs...) }] *)
Definition merge_rows (br_rows rows : gmap string (list Row.t))
  : gmap string (list Row.t) :=
  foldl (λ m (entry : string * list Row.t),
           <[entry.1 := default [] (m !! entry.1) ++ entry.2]> m)
    br_rows (range _ rows).

(** The search for a failing test: [ft] after the loop. *)
Definition has_failing_test (br_rows : gmap string (list Row.t)) : bool :=
  existsb (λ entry : string * list Row.t,
             if decide (entry.1 = "Overall"%string) then false
             else existsb (λ r, bool_decide (Row.Result r = state.Row_FAIL)) entry.2)
    (range _ br_rows).

(** [ReadBuild] from the point where the tasks are running: [evs] is
    what the channels deliver to the first loop, [sel] the outcome of the
    second [select], [rows] the rows the collecting task has gathered
    and [now] the value of [time.Now()]. [None]: the call does not
    return. *)
Definition ReadBuild (now : Z) (prefix : string) (evs : list received)
    (sel : selected) (rows : gmap string (list Row.t))
  : option (ReadError + Column.t) :=
  res ← wait_started_finished evs None None;
  match res with
  | inl err => Some (inl (FailedToRead err))
  | inr (started, finished) =>
      let br := Column.mk (path.Base prefix) (Started.Timestamp started)
                  0 false ∅ ∅ in
      if Finished.running finished then
        Some (inr (Column.mk (Column.Id br) (Column.Started br)
                     (Column.Finished br) (Column.Passed br)
                     {[ "Overall"%string := [Column_Overall now br] ]}
                     (Column.Metadata br)))
      else
        let br := Column.mk (Column.Id br) (Column.Started br)
                    (Finished.Timestamp finished) (Finished.Passed finished)
                    ∅ (ColumnMetadata (Finished.Metadata finished)) in
        let or := Column_Overall now br in
        let br_rows : gmap string (list Row.t) := {[ "Overall"%string := [or] ]} in
        match sel with
        | CtxDone => Some (inl Interrupted)
        | Ec (Some err) => Some (inl (FailedToRead err))
        | Ec None =>
            let br_rows := merge_rows br_rows rows in
            br_rows ←
              (if decide (Row.Result or = state.Row_FAIL)
               then if has_failing_test br_rows then Some br_rows
                    else amend_overall br_rows
               else Some br_rows);
            Some (inr (Column.mk (Column.Id br) (Column.Started br)
                         (Column.Finished br) (Column.Passed br)
                         br_rows (Column.Metadata br)))
        end
  end.

End Reader.

(** ** [ReadBuilds]: from the collected columns to the grid *)

Section Driver.

Variable Sprintf : string → list string → string.
Variable range : ∀ V : Type, gmap string V → list (string * V).

(** [sort.Stable(Rows(grid.Rows))] *)
Variable sort_Stable : list state.Row.t → list state.Row.t.

(** [stop.Unix()]: [stop] stays the zero time when [dur] is zero. *)
Definition stop_Unix (now dur : Z) : Z :=
  if decide (dur ≠ 0%Z)
  then time.Unix (time.Add now (Go.int64 (- dur)))
  else time.Unix time.zero.

(** [for _, c := range cols]; [interrupted i] tells whether the context
    is done when slot [i] is reached. *)
Fixpoint append_columns (h : list string) (nc : NameConfig.t) (stop : Z)
    (interrupted : nat → bool) (i : nat) (cols : list (option Column.t))
    (grid : Grid.t) (rows : gmap string nat)
  : option (ReadError + Grid.t) :=
  match cols with
  | [] => Some (inr grid)
  | c :: cols' =>
      if interrupted i then Some (inl Interrupted)
      else
        match c with
        | None => append_columns h nc stop interrupted (S i) cols' grid rows
        | Some c =>
            '(grid', rows') ← AppendColumn Sprintf range h nc grid rows c;
            if decide (Column.Started c < stop)%Z then Some (inr grid')
            else append_columns h nc stop interrupted (S i) cols' grid' rows'
        end
  end.

(** The tail of [ReadBuilds], once the workers have filled [cols] and
    no error was received. *)
Definition ReadBuilds_grid (h : list string) (nc : NameConfig.t)
    (now dur : Z) (interrupted : nat → bool) (cols : list (option Column.t))
  : option (ReadError + Grid.t) :=
  res ← append_columns h nc (stop_Unix now dur) interrupted 0 cols
          (Grid.mk [] []) ∅;
  match res with
  | inl err => Some (inl err)
  | inr grid =>
      Some (inr (Grid.mk (Grid.Columns grid) (sort_Stable (Grid.Rows grid))))
  end.

End Driver.

(** ** Package [net/url]

    [url.Parse] and [URL.String] of the Go standard library (release
    1.10, the one the updater was written against), byte for byte. *)

Module url.

Inductive encoding : Type :=
| encodePath
| encodePathSegment
| encodeHost
| encodeZone
| encodeUserPassword
| encodeQueryComponent
| encodeFragment.

#[global] Instance encoding_eq_dec : EqDecision encoding.
Proof. solve_decision. Defined.

Definition code (c : ascii) : N := N_of_ascii c.

Definition between (lo hi c : ascii) : bool :=
  (code lo <=? code c)%N && (code c <=? code hi)%N.

Definition is_alpha (c : ascii) : bool :=
  between "a" "z" c || between "A" "Z" c.
Definition is_digit (c : ascii) : bool := between "0" "9" c.

(** [c] is one of the bytes of [set]. *)
Definition one_of (set : string) (c : ascii) : bool :=
  existsb (Ascii.eqb c) (list_ascii_of_string set).

Definition double_quote : ascii := ascii_of_N 34.

Definition ishex (c : ascii) : bool :=
  is_digit c || between "a" "f" c || between "A" "F" c.

Definition unhex (c : ascii) : N :=
  if is_digit c then (code c - code "0")%N
  else if between "a" "f" c then (code c - code "a" + 10)%N
  else if between "A" "F" c then (code c - code "A" + 10)%N
  else 0%N.

Definition shouldEscape (c : ascii) (mode : encoding) : bool :=
  if is_alpha c || is_digit c then false
  else if bool_decide (mode = encodeHost ∨ mode = encodeZone)
          && (one_of "!$&'()*+,;=:[]<>" c || Ascii.eqb c double_quote)
  then false
  else if one_of "-_.~" c then false
  else if one_of "$&+,/:;=?@" c then
    match mode with
    | encodePath => Ascii.eqb c "?"
    | encodePathSegment => one_of "/;,?" c
    | encodeUserPassword => one_of "@/?:" c
    | encodeQueryComponent => true
    | encodeFragment => false
    | _ => true
    end
  else true.

(** [unescape]: [None] is an [EscapeError] or [InvalidHostError]. *)
Fixpoint unescape (s : string) (mode : encoding) : option string :=
  match s with
  | EmptyString => Some EmptyString
  | String c s1 =>
      if Ascii.eqb c "%" then
        match s1 with
        | String a (String b s2) =>
            if negb (ishex a && ishex b) then None
            else if bool_decide (mode = encodeHost) && (unhex a <? 8)%N
                    && negb (Ascii.eqb a "2" && Ascii.eqb b "5")
            then None
            else
              let v := ascii_of_N (unhex a * 16 + unhex b) in
              if bool_decide (mode = encodeZone)
                 && negb (Ascii.eqb a "2" && Ascii.eqb b "5")
                 && negb (Ascii.eqb v " ")
                 && shouldEscape v encodeHost
              then None
              else String v <$> unescape s2 mode
        | _ => None
        end
      else if Ascii.eqb c "+" then
        String (if bool_decide (mode = encodeQueryComponent) then " "%char else "+"%char)
          <$> unescape s1 mode
      else if bool_decide (mode = encodeHost ∨ mode = encodeZone)
              && (code c <? 128)%N && shouldEscape c encodeHost
      then None
      else String c <$> unescape s1 mode
  end.

Definition hexdigit (n : N) : ascii :=
  default "0"%char (list_ascii_of_string "0123456789ABCDEF" !! N.to_nat n).

Fixpoint escape (s : string) (mode : encoding) : string :=
  match s with
  | EmptyString => EmptyString
  | String c s' =>
      if Ascii.eqb c " " && bool_decide (mode = encodeQueryComponent)
      then String "+" (escape s' mode)
      else if shouldEscape c mode
      then String "%" (String (hexdigit (code c / 16))
                         (String (hexdigit (code c mod 16)) (escape s' mode)))
      else String c (escape s' mode)
  end.

Module Userinfo.
Record t : Type := mk
  { username : string;
    password : string;
    passwordSet : bool }.
End Userinfo.

Record URL : Type := mkURL
  { Scheme : string;
    Opaque : string;
    User : option Userinfo.t;
    Host : string;
    Path : string;
    RawPath : string;
    ForceQuery : bool;
    RawQuery : string;
    Fragment : string }.

(** [getscheme]: the loop from position [i], where [s] is [rawurl[i:]].
    [None] is the error "missing protocol scheme". *)
Fixpoint getscheme_from (rawurl : string) (i : nat) (s : string)
  : option (string * string) :=
  match s with
  | EmptyString => Some (EmptyString, rawurl)
  | String c s' =>
      if is_alpha c then getscheme_from rawurl (S i) s'
      else if is_digit c || one_of "+-." c then
        if decide (i = 0) then Some (EmptyString, rawurl)
        else getscheme_from rawurl (S i) s'
      else if Ascii.eqb c ":" then
        if decide (i = 0) then None
        else Some (Go.slice_to i rawurl, s')
      else Some (EmptyString, rawurl)
  end.

Definition getscheme (rawurl : string) : option (string * string) :=
  getscheme_from rawurl 0 rawurl.

(** [split(s, c, cutc)] *)
Definition split (s c : string) (cutc : bool) : string * string :=
  match strings.Index s c with
  | None => (s, EmptyString)
  | Some i =>
      if cutc then (Go.slice_to i s, Go.slice_from (i + String.length c) s)
      else (Go.slice_to i s, Go.slice_from i s)
  end.

Definition lower (c : ascii) : ascii :=
  if between "A" "Z" c then ascii_of_N (code c + 32) else c.

(** [strings.ToLower] on a scheme, which holds ASCII bytes only. *)
Fixpoint ToLower (s : string) : string :=
  match s with
  | EmptyString => EmptyString
  | String c s' => String (lower c) (ToLower s')
  end.

(** [strings.LastIndex(s, sep)] *)
Fixpoint LastIndex (s sep : string) : option nat :=
  match s with
  | EmptyString => if String.prefix sep s then Some 0 else None
  | String _ s' =>
      match LastIndex s' sep with
      | Some i => Some (S i)
      | None => if String.prefix sep s then Some 0 else None
      end
  end.

(** [strings.Count(s, sep)] for a separator of one byte. *)
Fixpoint Count (s : string) (sep : ascii) : nat :=
  match s with
  | EmptyString => 0
  | String c s' => (if Ascii.eqb c sep then 1 else 0) + Count s' sep
  end.

Definition HasSuffix (s suffix : string) : bool :=
  bool_decide (String.length suffix ≤ String.length s)
  && bool_decide (Go.slice_from (String.length s - String.length suffix) s = suffix).

Definition all_bytes (P : ascii → bool) (s : string) : bool :=
  forallb P (list_ascii_of_string s).

Definition validOptionalPort (port : string) : bool :=
  match port with
  | EmptyString => true
  | String c digits => Ascii.eqb c ":" && all_bytes is_digit digits
  end.

Definition parseHost (host : string) : option string :=
  if strings.HasPrefix host "[" then
    i ← LastIndex host "]";
    let colonPort := Go.slice_from (i + 1) host in
    if negb (validOptionalPort colonPort) then None
    else
      match strings.Index (Go.slice_to i host) "%25" with
      | Some zone =>
          host1 ← unescape (Go.slice_to zone host) encodeHost;
          host2 ← unescape (substring zone (i - zone) host) encodeZone;
          host3 ← unescape (Go.slice_from i host) encodeHost;
          Some (host1 +:+ host2 +:+ host3)
      | None => unescape host encodeHost
      end
  else unescape host encodeHost.

Definition validUserinfo (s : string) : bool :=
  all_bytes (λ c, is_alpha c || is_digit c || one_of "-._:~!$&'()*+,;=%@" c) s.

Definition parseAuthority (authority : string)
  : option (option Userinfo.t * string) :=
  match LastIndex authority "@" with
  | None => host ← parseHost authority; Some (None, host)
  | Some i =>
      host ← parseHost (Go.slice_from (i + 1) authority);
      let userinfo := Go.slice_to i authority in
      if negb (validUserinfo userinfo) then None
      else if negb (strings.Contains userinfo ":") then
        userinfo ← unescape userinfo encodeUserPassword;
        Some (Some (Userinfo.mk userinfo EmptyString false), host)
      else
        let '(username, password) := split userinfo ":" true in
        username ← unescape username encodeUserPassword;
        password ← unescape password encodeUserPassword;
        Some (Some (Userinfo.mk username password true), host)
  end.

(** [setPath]: the pair of [Path] and [RawPath]. *)
Definition setPath (p : string) : option (string * string) :=
  path ← unescape p encodePath;
  if decide (p = escape path encodePath) then Some (path, EmptyString)
  else Some (path, p).

(** In a relative reference the first path segment holds no colon. *)
Definition first_segment_has_colon (rest : string) : bool :=
  match strings.Index rest ":", strings.Index rest "/" with
  | Some colon, None => true
  | Some colon, Some slash => bool_decide (colon < slash)
  | None, _ => false
  end.

(** [parse(rawurl, false)] *)
Definition parse (rawurl : string) : option URL :=
  if decide (rawurl = "*"%string)
  then Some (mkURL "" "" None "" "*" "" false "" "")
  else
    '(scheme, rest) ← getscheme rawurl;
    let scheme := ToLower scheme in
    let '(rest, rawQuery, forceQuery) :=
      if HasSuffix rest "?" && bool_decide (Count rest "?" = 1)
      then (Go.slice_to (String.length rest - 1) rest, EmptyString, true)
      else let '(r, q) := split rest "?" true in (r, q, false) in
    if negb (strings.HasPrefix rest "/") && negb (bool_decide (scheme = ""%string))
    then Some (mkURL scheme rest None "" "" "" forceQuery rawQuery "")
    else if negb (strings.HasPrefix rest "/") && first_segment_has_colon rest
    then None
    else
      '(user, host, rest) ←
        (if (negb (bool_decide (scheme = ""%string))
             || negb (strings.HasPrefix rest "///"))
            && strings.HasPrefix rest "//"
         then
           let '(authority, rest') := split (Go.slice_from 2 rest) "/" false in
           '(user, host) ← parseAuthority authority;
           Some (user, host, rest')
         else Some (None, EmptyString, rest));
      '(path, rawPath) ← setPath rest;
      Some (mkURL scheme "" user host path rawPath forceQuery rawQuery "").

(** [url.Parse] *)
Definition Parse (rawurl : string) : option URL :=
  let '(u, frag) := split rawurl "#" true in
  url ← parse u;
  if decide (frag = ""%string) then Some url
  else
    fragment ← unescape frag encodeFragment;
    Some (mkURL (Scheme url) (Opaque url) (User url) (Host url) (Path url)
            (RawPath url) (ForceQuery url) (RawQuery url) fragment).

Definition validEncodedPath (s : string) : bool :=
  all_bytes (λ c, one_of "!$&'()*+,;=:@[]%" c || negb (shouldEscape c encodePath)) s.

Definition EscapedPath (u : URL) : string :=
  if negb (bool_decide (RawPath u = ""%string)) && validEncodedPath (RawPath u)
     && bool_decide (unescape (RawPath u) encodePath = Some (Path u))
  then RawPath u
  else if decide (Path u = "*"%string) then "*"%string
  else escape (Path u) encodePath.

Definition Userinfo_String (u : Userinfo.t) : string :=
  escape (Userinfo.username u) encodeUserPassword
    +:+ (if Userinfo.passwordSet u
         then ":" +:+ escape (Userinfo.password u) encodeUserPassword
         else "").

(** [URL.String] *)
Definition String_ (u : URL) : string :=
  let buf := if decide (Scheme u = ""%string) then ""%string else Scheme u +:+ ":" in
  let buf :=
    if decide (Opaque u ≠ ""%string) then buf +:+ Opaque u
    else
      let buf :=
        if decide (Scheme u ≠ ""%string ∨ Host u ≠ ""%string ∨ User u ≠ None) then
          let buf :=
            if decide (Host u ≠ ""%string ∨ Path u ≠ ""%string ∨ User u ≠ None)
            then buf +:+ "//" else buf in
          let buf :=
            match User u with
            | Some ui => buf +:+ Userinfo_String ui +:+ "@"
            | None => buf
            end in
          if decide (Host u ≠ ""%string) then buf +:+ escape (Host u) encodeHost
          else buf
        else buf in
      let path := EscapedPath u in
      let buf :=
        if negb (bool_decide (path = ""%string))
           && negb (strings.HasPrefix path "/")
           && negb (bool_decide (Host u = ""%string))
        then buf +:+ "/" else buf in
      let buf :=
        if decide (buf = ""%string) then
          match strings.Index path ":" with
          | Some i =>
              if strings.Contains (Go.slice_to i path) "/" then buf
              else buf +:+ "./"
          | None => buf
          end
        else buf in
      buf +:+ path in
  let buf :=
    if ForceQuery u || negb (bool_decide (RawQuery u = ""%string))
    then buf +:+ "?" +:+ RawQuery u else buf in
  if decide (Fragment u ≠ ""%string)
  then buf +:+ "#" +:+ escape (Fragment u) encodeFragment
  else buf.

End url.

(** ** [gcsPath] *)

Module gcsPath.

Record t : Type := mk { url : url.URL }.

(** The errors of [Set], one per case of its [switch]. *)
Inductive error : Type :=
| InvalidURL
| NotGs
| HasPort
| HasOpaque
| HasUser
| HasQuery
| HasFragment.

Definition String_ (g : t) : string := url.String_ (url g).

(** [Set] updates the receiver only when it returns [nil] ([None]). *)
Definition Set_ (g : t) (v : string) : t * option error :=
  match url.Parse v with
  | None => (g, Some InvalidURL)
  | Some u =>
      if decide (url.Scheme u ≠ "gs"%string) then (g, Some NotGs)
      else if strings.Contains (url.Host u) ":" then (g, Some HasPort)
      else if decide (url.Opaque u ≠ ""%string) then (g, Some HasOpaque)
      else if decide (url.User u ≠ None) then (g, Some HasUser)
      else if decide (url.RawQuery u ≠ ""%string) then (g, Some HasQuery)
      else if decide (url.Fragment u ≠ ""%string) then (g, Some HasFragment)
      else (mk u, None)
  end.

Definition bucket (g : t) : string := url.Host (url g).

Definition object (g : t) : string :=
  if decide (url.Path (url g) = ""%string) then url.Path (url g)
  else Go.slice_from 1 (url.Path (url g)).

End gcsPath.

(** ** Instances for closed examples *)

(** One order in which [range] may visit a map. *)
Definition range_any (V : Type) (m : gmap string V) : list (string * V) :=
  map_to_list m.

(** An instance of [Sprintf] that agrees with [fmt.Sprintf] on formats made
    of plain text and [%s] verbs with as many operands as verbs. *)
Fixpoint Sprintf_plain (format : string) (args : list string) : string :=
  match format with
  | String "%" (String "s" rest) =>
      match args with
      | a :: args' => a +:+ Sprintf_plain rest args'
      | [] => "%!s(MISSING)" +:+ Sprintf_plain rest []
      end
  | String c rest => String c (Sprintf_plain rest args)
  | EmptyString => EmptyString
  end.

(** ** Invariants of the grid assembler *)

(** A metric of a row in a grid of [n] columns: its indices come in
    (start, length) pairs, at most one pair per value, at most one value
    per column. *)
Definition metric_ok (n : Z) (m : state.Metric.t) : Prop :=
  Nat.Even (length (state.Metric.Indices m))
  ∧ length (state.Metric.Indices m) ≤ 2 * length (state.Metric.Values m)
  ∧ (Z.of_nat (length (state.Metric.Values m)) <= n)%Z.

(** A row of a grid of [n] columns. *)
Definition row_ok (n : Z) (r : state.Row.t) : Prop :=
  rle_wf (state.Row.Results r)
  ∧ rle_total (state.Row.Results r) = n
  ∧ Z.of_nat (length (state.Row.CellIds r)) = n
  ∧ length (state.Row.Messages r) = length (state.Row.Icons r)
  ∧ Z.of_nat (length (state.Row.Messages r)) = rle_filled (state.Row.Results r)
  ∧ NoDup (state.Metric.Name <$> state.Row.Metrics r)
  ∧ Forall (metric_ok n) (state.Row.Metrics r).

(** The map [rows] points at the rows of the grid by their names. *)
Definition rows_index (grid_rows : list state.Row.t) (rows : gmap string nat)
  : Prop :=
  (∀ p r, grid_rows !! p = Some r → rows !! state.Row.Name r = Some p)
  ∧ (∀ name p, rows !! name = Some p →
       ∃ r, grid_rows !! p = Some r ∧ state.Row.Name r = name).

Definition grid_inv (grid : Grid.t) (rows : gmap string nat) : Prop :=
  rows_index (Grid.Rows grid) rows
  ∧ Forall (row_ok (Z.of_nat (length (Grid.Columns grid)))) (Grid.Rows grid).

(** While column [n] is appended, the rows still in [missing] have [n - 1]
    cells and the others [n]; a known row that left [missing] is in
    [found]. *)
Definition assembly_inv (n : Z) (st : Assembly.t) : Prop :=
  rows_index (Assembly.grid_rows st) (Assembly.rows st)
  ∧ (∀ name p, Assembly.missing st !! name = Some p →
       Assembly.rows st !! name = Some p)
  ∧ (∀ name p, Assembly.rows st !! name = Some p →
       Assembly.missing st !! name = None → name ∈ Assembly.found st)
  ∧ (∀ p r, Assembly.grid_rows st !! p = Some r →
       row_ok (if Assembly.missing st !! state.Row.Name r is Some _
               then n - 1 else n)%Z r).

(** [range] visits every entry of a map once. *)
Definition range_visits_once
    (range : ∀ V : Type, gmap string V → list (string * V)) : Prop :=
  ∀ (V : Type) (m : gmap string V), range V m ≡ₚ map_to_list m.

(** The relation between the lists of a row and the number [columns] of
    columns of its grid: as many counted results and cell ids as columns,
    and one message and one icon per cell that holds a result. *)
Definition row_lengths (columns : nat) (r : state.Row.t) : Prop :=
  rle_total (state.Row.Results r) = Z.of_nat columns
  ∧ length (state.Row.CellIds r) = columns
  ∧ length (state.Row.Messages r) = length (state.Row.Icons r)
  ∧ Z.of_nat (length (state.Row.Messages r)) = rle_filled (state.Row.Results r).

(** The relation as the specification words it: all five numbers agree. *)
Definition row_lengths_all_equal (columns : nat) (r : state.Row.t) : Prop :=
  rle_total (state.Row.Results r) = Z.of_nat columns
  ∧ columns = length (state.Row.CellIds r)
  ∧ length (state.Row.CellIds r) = length (state.Row.Messages r)
  ∧ length (state.Row.Messages r) = length (state.Row.Icons r).

(** Two builds: the newer one, [b2], ran the test [T]; the older one, [b1],
    did not. *)
Definition example_row (name : string) (result : state.Row_Result) : Row.t :=
  Row.mk result ∅ {[ "Tests name"%string := name ]} "" "".

Definition example_b2 : Column.t :=
  Column.mk "b2" 7200 7300 true
    (<[ "T"%string := [example_row "T" state.Row_PASS] ]>
       {[ "Overall"%string := [example_row "Overall" state.Row_PASS] ]})
    ∅.

Definition example_b1 : Column.t :=
  Column.mk "b1" 3600 3700 true
    {[ "Overall"%string := [example_row "Overall" state.Row_PASS] ]}
    ∅.


(** ** Words of the specification *)

(** [w] is [v] cut down to its first [k] bytes. *)
Definition truncated_to (k : nat) (v w : string) : Prop :=
  if decide (String.length v ≤ k) then w = v
  else String.length w = k ∧ ∃ rest, v = w +:+ rest.

(** What follows the last occurrence of the byte [c] in [s]; all of [s]
    when there is none. *)
Fixpoint after_last (c : ascii) (s : string) : string :=
  match s with
  | EmptyString => EmptyString
  | String a s' =>
      if bool_decide (c ∈ list_ascii_of_string s') then after_last c s'
      else if decide (a = c) then s'
      else s
  end.

(** The shortening of a message as the specification words it: the first
    70 bytes, three dots and the last 69 bytes. *)
Definition truncate_70_69 (msg : string) : string :=
  if decide (String.length msg ≤ 140) then msg
  else Go.slice_to 70 msg +:+ "..." +:+ Go.slice_from (String.length msg - 69) msg.

Fixpoint repeat_string (n : nat) (s : string) : string :=
  match n with
  | 0 => EmptyString
  | S n' => s +:+ repeat_string n' s
  end.

(** A failure text of 141 bytes. *)
Definition example_long_text : string :=
  repeat_string 14 "0123456789" +:+ "x".

Definition example_failure : JunitResult.t :=
  JunitResult.mk "T" (S754_zero false) "" (Some example_long_text) None None None.

(** A finished build whose metadata holds a job version with two '+'. *)
Definition example_versioned : Column.t :=
  Column.mk "b3" 3600 3700 true ∅
    {[ "job-version"%string := "v1.10.0+ab+cd"%string ]}.




(** A build that started and is still running, and one that failed with
    one passing test. *)
Definition example_started : Started.t :=
  Started.mk 3600 "v1.10.0" "node" "" ∅.

Definition example_running : Finished.t :=
  Finished.mk 0 false "" ∅ true.

Definition example_failed : Finished.t :=
  Finished.mk 3700 false "v1.10.0" ∅ false.

Definition example_junit_rows : gmap string (list Row.t) :=
  {[ "T"%string := [example_row "T" state.Row_PASS] ]}.

(** What the first loop of [ReadBuild] has received among [evs]: no error
    of a task; the decoded [started.json]; an answer for [finished.json]. *)
Definition no_task_error (evs : list received) : Prop :=
  ∀ err, FromEc (Some err) ∉ evs.

Definition started_received (evs : list received) : Prop :=
  ∃ s, FromSc s ∈ evs.

Definition finished_received (evs : list received) : Prop :=
  ∃ f, FromFc f ∈ evs.

(** [finished.json] is absent: what [fc] delivers is the running sentinel. *)
Definition finished_absent (evs : list received) : Prop :=
  ∀ f, FromFc f ∈ evs → Finished.running f = true.

(** Some row other than the overall one holds a failed result. *)
Definition some_test_failed (rows : gmap string (list Row.t)) : Prop :=
  ∃ name rs r,
    name ≠ "Overall"%string ∧ rows !! name = Some rs ∧ r ∈ rs
    ∧ Row.Result r = state.Row_FAIL.

(** ** gs:// URLs in plain form *)

(** The [gcsPath] that [flag.Var] starts from: the zero value. *)
Definition gcsPath_zero : gcsPath.t :=
  gcsPath.mk (url.mkURL "" "" None "" "" "" false "" "").







(** ** The cells behind the run-length encodings *)

(** The cells of a row, one result per column: every (value, count) pair
    stands for [count] cells holding [value]. *)
Fixpoint rle_decode (l : list Z) : list Z :=
  match l with
  | v :: c :: l' => replicate (Z.to_nat c) v ++ rle_decode l'
  | _ => []
  end.

(** No two groups that follow one another hold the same value. *)
Fixpoint rle_grouped (l : list Z) : Prop :=
  match l with
  | v :: _ :: l' =>
      match l' with v' :: _ => v ≠ v' | [] => True end ∧ rle_grouped l'
  | _ => True
  end.

(** The cells a metric has a value for: every (start, length) pair of its
    indices stands for the cells [start], ..., [start + length - 1]. *)
Fixpoint indices_cells (l : list Z) : list Z :=
  match l with
  | s :: n :: l' => seqZ s n ++ indices_cells l'
  | _ => []
  end.

(** Indices that [AppendMetric] can extend without overflow: pairs of a
    start and a length, each below 2^30, fewer than 2^31 numbers in all. *)
Definition indices_ok (l : list Z) : Prop :=
  rle_wf l ∧ Forall (λ z, 0 <= z < 2 ^ 30)%Z l
  ∧ (Z.of_nat (length l) < 2 ^ 31)%Z.

(** ** Rows before and after a column *)

(** The records whose cell holds a result: [AppendResult] stores a
    message and an icon for these only. *)
Definition filled (brs : list Row.t) : list Row.t :=
  filter (λ br, Row.Result br ≠ state.Row_NO_RESULT) brs.

(** The values of the metric of a row that [FindMetric] finds under the
    name [k]; none when it finds no metric. *)
Definition metric_values (r : state.Row.t) (k : string) : list Go.float64 :=
  match FindMetric r k with
  | Some i => default [] (state.Metric.Values <$> state.Row.Metrics r !! i)
  | None => []
  end.

(** [r'] has the name, the id and the cells of [r], and then the cells,
    cell ids, messages and icons of the records [brs], in their order. *)
Definition cells_extended (r r' : state.Row.t) (brs : list Row.t) : Prop :=
  state.Row.Name r' = state.Row.Name r
  ∧ state.Row.Id r' = state.Row.Id r
  ∧ rle_decode (state.Row.Results r')
    = rle_decode (state.Row.Results r) ++ (Row.Result <$> brs)
  ∧ state.Row.CellIds r'
    = state.Row.CellIds r ++ replicate (length brs) ""%string
  ∧ state.Row.Messages r'
    = state.Row.Messages r ++ (Row.Message <$> filled brs)
  ∧ state.Row.Icons r' = state.Row.Icons r ++ (Row.Icon <$> filled brs).

(** Every metric of [r'] has the values it has in [r], and then the
    values that the records [brs] have for it, in their order. *)
Definition measured (r r' : state.Row.t) (brs : list Row.t) : Prop :=
  ∀ k, metric_values r' k
       = metric_values r k ++ omap (λ br, Row.Metrics br !! k) brs.

(** [r'] is [r] with one more cell for each of the records [brs], in
    their order: the name, the id and the earlier cells are those of [r],
    and so are the earlier values of its metrics. *)
Definition row_extended (r r' : state.Row.t) (brs : list Row.t) : Prop :=
  state.Row.Name r' = state.Row.Name r
  ∧ state.Row.Id r' = state.Row.Id r
  ∧ rle_decode (state.Row.Results r')
    = rle_decode (state.Row.Results r) ++ (Row.Result <$> brs)
  ∧ state.Row.CellIds r'
    = state.Row.CellIds r ++ replicate (length brs) ""%string
  ∧ state.Row.Messages r'
    = state.Row.Messages r ++ (Row.Message <$> filled brs)
  ∧ state.Row.Icons r' = state.Row.Icons r ++ (Row.Icon <$> filled brs)
  ∧ measured r r' brs.

(** [br] is one of the records that the build holds under [target]. *)
Definition record_of (build : Column.t) (target : string) (br : Row.t) : Prop :=
  ∃ results, Column.Rows build !! target = Some results ∧ br ∈ results.

(** [&state.Row{Name: name, Id: target}] *)
Definition new_row (name target : string) : state.Row.t :=
  state.Row.mk name target [] [] [] [] [].

(** While column [n] of the build is appended to a grid whose rows were
    [rows0]: these rows are at their places, with more cells; the rows
    after them are new, were named in this column, and hold [n - 1] empty
    cells and one record of the build; [missing] points at rows of
    [rows0] only. *)
Definition assembly_grows (build : Column.t) (n : nat)
    (rows0 : list state.Row.t) (st : Assembly.t) : Prop :=
  (∀ p r, rows0 !! p = Some r →
     ∃ r' brs,
       Assembly.grid_rows st !! p = Some r' ∧ row_extended r r' brs
       ∧ Forall (λ br, br = noResult ∨ ∃ target, record_of build target br) brs)
  ∧ (∀ p r', length rows0 ≤ p → Assembly.grid_rows st !! p = Some r' →
       (state.Row.Name r' ∈ Assembly.found st)
       ∧ ∃ br,
           record_of build (state.Row.Id r') br
           ∧ row_extended (new_row (state.Row.Name r') (state.Row.Id r')) r'
               (replicate (n - 1) noResult ++ [br]))
  ∧ (∀ name p, Assembly.missing st !! name = Some p → p < length rows0).

(** A grid of one column, for the build [b2], and the map that points at
    its rows. *)
Definition example_grid : Grid.t :=
  Grid.mk [column_record [] example_b2]
    [state.Row.mk "Overall" "Overall" [1; 1]%Z [""] [""] [""] [];
     state.Row.mk "T" "T" [1; 1]%Z [""] [""] [""] []].

Definition example_rows : gmap string nat :=
  <[ "Overall"%string := 0 ]> {[ "T"%string := 1 ]}.

(** A build with two records called [T] under one key. *)
Definition example_twice : Column.t :=
  Column.mk "b0" 1800 1900 false
    {[ "T"%string :=
         [example_row "T" state.Row_PASS; example_row "T" state.Row_FAIL] ]}
    ∅.

(** ** The rows of a JUnit artifact *)

Module JunitSuite.
Record t : Type := mk
  { Name : string;
    Time : Go.float64;
    Failures : Z;
    Tests : Z;
    Results : list JunitResult.t }.
End JunitSuite.

(** [jr.Row(suite)] *)
Definition JunitResult_Row (jr : JunitResult.t) (suite : string)
  : string * Row.t :=
  let n :=
    if decide (suite ≠ ""%string) then suite +:+ "." +:+ JunitResult.Name jr
    else JunitResult.Name jr in
  let metrics : gmap string Go.float64 :=
    if SFltb (S754_zero false) (JunitResult.Time jr)
    then {[ elapsedKey := JunitResult.Time jr ]}
    else ∅ in
  let message :=
    let msg := JunitResult.Message jr in
    if decide (msg ≠ ""%string) then msg else ""%string in
  let '(result, icon) :=
    match JunitResult.Failure jr, JunitResult.Skipped jr with
    | Some _, _ =>
        (state.Row_FAIL, if decide (message ≠ ""%string) then "F" else "")
    | None, Some _ =>
        (state.Row_PASS_WITH_SKIPS,
         if decide (message ≠ ""%string) then "S" else "")
    | None, None => (state.Row_PASS, "")
    end%string in
  (n, Row.mk result metrics {[ "Tests name"%string := n ]} message icon).

(** [sr.Skipped != nil && len( *sr.Skipped) == 0] *)
Definition skipped_empty (sr : JunitResult.t) : bool :=
  match JunitResult.Skipped sr with
  | Some s => bool_decide (String.length s = 0)
  | None => false
  end.

(** The errors of [extractRows]: neither decoding worked. *)
Inductive extractRows_error : Type :=
| NotValid (err ie : string).

Section Artifact.

Variable range : ∀ V : Type, gmap string V → list (string * V).

(** [unmarshalXML(buf, &suites)] and [unmarshalXML(buf, &suites.Suites[0])]:
    the decoded value, or the error of the decoder. *)
Variable unmarshal_suites : string → string + list JunitSuite.t.
Variable unmarshal_suite : string → string + JunitSuite.t.

(** The body of [for _, sr := range suite.Results]. *)
Definition extract_case (meta : gmap string string) (suite : string)
    (rows : gmap string (list Row.t)) (sr : JunitResult.t)
  : gmap string (list Row.t) :=
  if skipped_empty sr then rows
  else
    let '(n, r) := JunitResult_Row sr suite in
    let metadata :=
      foldl (λ md (kv : string * string), <[kv.1 := kv.2]> md)
        (Row.Metadata r) (range _ meta) in
    let r := Row.mk (Row.Result r) (Row.Metrics r) metadata
               (Row.Message r) (Row.Icon r) in
    <[n := default [] (rows !! n) ++ [r]]> rows.

(** [for _, suite := range suites.Suites] *)
Definition extract_suites (suites : list JunitSuite.t)
    (meta : gmap string string) : gmap string (list Row.t) :=
  foldl (λ rows suite,
           foldl (extract_case meta (JunitSuite.Name suite)) rows
             (JunitSuite.Results suite))
    ∅ suites.

Definition extractRows (buf : string) (meta : gmap string string)
  : extractRows_error + gmap string (list Row.t) :=
  match unmarshal_suites buf with
  | inr suites => inr (extract_suites suites meta)
  | inl err =>
      match unmarshal_suite buf with
      | inr suite => inr (extract_suites [suite] meta)
      | inl ie => inl (NotValid err ie)
      end
  end.

End Artifact.

(** The test cases of the suites in the order of the document, each with
    the name of its suite. *)
Definition suite_cases (suites : list JunitSuite.t)
  : list (string * JunitResult.t) :=
  suites ≫= λ suite, pair (JunitSuite.Name suite) <$> JunitSuite.Results suite.

(** The row of a test case with the metadata of the artifact, which wins
    over the row's own. *)
Definition case_row (meta : gmap string string) (c : string * JunitResult.t)
  : Row.t :=
  let r := (JunitResult_Row c.2 c.1).2 in
  Row.mk (Row.Result r) (Row.Metrics r) (meta ∪ Row.Metadata r)
    (Row.Message r) (Row.Icon r).

(** The rows of the cases called [n] that are not skipped without a
    text. *)
Definition rows_called (meta : gmap string string) (n : string)
    (cases : list (string * JunitResult.t)) : list Row.t :=
  case_row meta
    <$> filter (λ c, skipped_empty c.2 = false ∧ (JunitResult_Row c.2 c.1).1 = n)
          cases.

(** A suite with a passed case, a failed case of the same name and a case
    that is skipped without a text. *)
Definition example_suite : JunitSuite.t :=
  JunitSuite.mk "pkg" (S754_zero false) 1 3
    [JunitResult.mk "T" (S754_zero false) "" None None None None;
     JunitResult.mk "T" (S754_zero false) "" (Some "boom"%string) None None None;
     JunitResult.mk "U" (S754_zero false) "" None None None (Some ""%string)].

(** Decoders for an artifact that holds [example_suite] alone. *)
Definition example_unmarshal_suites (buf : string)
  : string + list JunitSuite.t :=
  inl "expected element type <testsuites> but have <testsuite>"%string.

Definition example_unmarshal_suite (buf : string) : string + JunitSuite.t :=
  inr example_suite.

(** A failed test case. *)
Definition example_case : JunitResult.t :=
  JunitResult.mk "T" (S754_zero false) "" (Some "boom"%string) None None None.

(** ** Metadata as the loops have it *)

(** [Metadata.String]: the string under [name], if the value there is
    one, and whether the key is there. *)
Definition Metadata_String (m : gmap string json) (name : string)
  : option string * bool :=
  match m !! name with
  | None => (None, false)
  | Some (JString t) => (Some t, true)
  | Some _ => (None, true)
  end.

(** [Metadata.ColumnMetadata] as the loop over the map that it is. *)
Definition ColumnMetadata_loop
    (range : ∀ V : Type, gmap string V → list (string * V))
    (m : gmap string json) : gmap string string :=
  foldl (λ (bm : gmap string string) (kv : string * json),
           match kv.2 with
           | JString s => <[kv.1 := s]> bm
           | _ => bm
           end)
    ∅ (range _ m).

(** ** Options *)

Module options.

Record t : Type := mk
  { config : gcsPath.t;
    creds : string;
    confirm : bool;
    group : string;
    groupConcurrency : Z;
    buildConcurrency : Z }.

(** The errors of [validate]; the second one carries [o.config] as it is
    printed. *)
Inductive error : Type :=
| EmptyConfig
| ProdBucket (config : string).

(** [o.validate()], with [NumCPU] for [runtime.NumCPU()]. The receiver
    is a pointer: the options come back with the result. *)
Definition validate (NumCPU : Z) (o : t) : t * option error :=
  if decide (gcsPath.String_ (config o) = ""%string) then (o, Some EmptyConfig)
  else if decide (gcsPath.bucket (config o) = "k8s-testgrid"%string)
  then (o, Some (ProdBucket (gcsPath.String_ (config o))))
  else
    let o :=
      if decide (groupConcurrency o = 0%Z)
      then mk (config o) (creds o) (confirm o) (group o)
             (Go.int64 (4 * NumCPU)) (buildConcurrency o)
      else o in
    let o :=
      if decide (buildConcurrency o = 0%Z)
      then mk (config o) (creds o) (confirm o) (group o)
             (groupConcurrency o) (Go.int64 (4 * NumCPU))
      else o in
    (o, None).

End options.

(** ** [listBuilds] *)

(** [p := path.object(); if p[len(p)-1] != '/' { p += "/" }]: [None]
    stands for the panic of an index out of range. *)
Definition listing_prefix (object : string) : option string :=
  c ← last (list_ascii_of_string object);
  if decide (c ≠ "/"%char) then Some (object +:+ "/") else Some object.

(** The loop over [it.Next()]: [entries] is what the calls return before
    [iterator.Done], the prefix of an entry or an error. *)
Fixpoint collect_builds (entries : list (string + string)) (all : list string)
  : string + list string :=
  match entries with
  | [] => inr all
  | inl err :: _ => inl err
  | inr prefix :: entries' =>
      if decide (String.length prefix = 0) then collect_builds entries' all
      else collect_builds entries' (all ++ [prefix])
  end.

Section Listing.

(** The entries that a bucket lists for a query prefix, and
    [sort.Sort(sort.Reverse(all))]. *)
Variable objects : string → string → list (string + string).
Variable sort_Reverse : list string → list string.

Definition listBuilds (path : gcsPath.t) : option (string + list string) :=
  p ← listing_prefix (gcsPath.object path);
  match collect_builds (objects (gcsPath.bucket path) p) [] with
  | inl err => Some (inl err)
  | inr all => Some (inr (sort_Reverse all))
  end.

End Listing.

(** ** Test groups and results *)

Section Groups.

(** A [config.TestGroup] and its [Name]. *)
Variable TestGroup : Type.
Variable Name : TestGroup → string.

(** [Group(cfg, name)] over [cfg.TestGroups]: [None] stands for
    [nil, false]. *)
Fixpoint Group (groups : list TestGroup) (name : string) : option TestGroup :=
  match groups with
  | [] => None
  | g :: groups' => if decide (Name g = name) then Some g else Group groups' name
  end.

End Groups.

(** [normalize(result)]; [state.Row_Result(result)] keeps the low 32 bits
    of the [int]. *)
Definition normalize (result : Z) : state.Row_Result :=
  let r := Go.int32 result in
  if decide (r = state.Row_NO_RESULT ∨ r = state.Row_RUNNING)
  then state.Row_NO_RESULT
  else if decide (r = state.Row_PASS ∨ r = state.Row_PASS_WITH_ERRORS
                  ∨ r = state.Row_PASS_WITH_SKIPS ∨ r = state.Row_FLAKY)
  then state.Row_PASS
  else state.Row_FAIL.

(** ** [ReadBuilds] from its first line *)



Section Builds.

Variable Sprintf : string → list string → string.
Variable range : ∀ V : Type, gmap string V → list (string * V).
Variable sort_Stable : list state.Row.t → list state.Row.t.


End Builds.

(** ** Rows as a reader of the grid finds them *)

(** Every group of a run-length encoding counts at least one cell. *)
Fixpoint rle_positive (l : list Z) : Prop :=
  match l with
  | _ :: c :: l' => (1 <= c)%Z ∧ rle_positive l'
  | _ => True
  end.

(** The results of a row are a run-length encoding in its shortest form:
    no empty group, no two groups in a row with the same value. *)
Definition results_canonical (r : state.Row.t) : Prop :=
  rle_wf (state.Row.Results r)
  ∧ rle_positive (state.Row.Results r)
  ∧ rle_grouped (state.Row.Results r).

(** A metric of a row with [messages] messages: its indices are (start,
    length) pairs of numbers below 2^30, they cover as many cells as the
    metric has values, and every cell they cover is at most [messages]. *)
Definition metric_inv (messages : nat) (m : state.Metric.t) : Prop :=
  rle_wf (state.Metric.Indices m)
  ∧ Forall (λ z, 0 <= z < 2 ^ 30)%Z (state.Metric.Indices m)
  ∧ length (indices_cells (state.Metric.Indices m))
    = length (state.Metric.Values m)
  ∧ Forall (λ i, 0 <= i <= Z.of_nat messages)%Z
      (indices_cells (state.Metric.Indices m)).

Definition metrics_consistent (r : state.Row.t) : Prop :=
  Forall (metric_inv (length (state.Row.Messages r))) (state.Row.Metrics r).

(** A build of one test with a metric, and the same test an hour
    before. *)
Definition example_timed (id : string) (started : Z) (seconds : Z) : Column.t :=
  Column.mk id started (started + seconds) true
    {[ "T"%string :=
         [Row.mk state.Row_PASS
            {[ elapsedKey := Go.float64_of_int64 seconds ]}
            {[ "Tests name"%string := "T"%string ]} "" ""] ]}
    ∅.

(** ** Where [AppendColumn] puts the records of a build *)

Section Placement.

Variable Sprintf : string → list string → string.

(** [br.Format(format, build.Metadata)]: the name of a record in its
    build. *)
Definition record_name (format : NameConfig.t) (build : Column.t) (br : Row.t)
  : string :=
  Row_Format Sprintf br format (Column.Metadata build).

(** No two records of the build are given the same name. *)
Definition names_distinct (format : NameConfig.t) (build : Column.t) : Prop :=
  ∀ t1 rs1 i br1 t2 rs2 j br2,
    Column.Rows build !! t1 = Some rs1 → rs1 !! i = Some br1 →
    Column.Rows build !! t2 = Some rs2 → rs2 !! j = Some br2 →
    record_name format build br1 = record_name format build br2 →
    t1 = t2 ∧ i = j.

(** The record [br] of the key [t] has its cell in the row [r'] at [p]:
    the row is one of [rows0] with one more cell, or a new row with
    [k] empty cells before it. *)
Definition placed (format : NameConfig.t) (build : Column.t) (k : nat)
    (rows0 : list state.Row.t) (t : string) (br : Row.t)
    (p : nat) (r' : state.Row.t) : Prop :=
  (∃ r0, rows0 !! p = Some r0 ∧ row_extended r0 r' [br])
  ∨ (length rows0 ≤ p
     ∧ row_extended (new_row (record_name format build br) t) r'
         (replicate k noResult ++ [br])).

(** While column [n] is appended and the records [done] have been dealt
    with: [found] holds their names, each of them is placed, [missing]
    points at the rows of the grid that none of them names, these rows
    are as they were, and the new rows are named by records. *)
Definition assembly_placed (format : NameConfig.t) (build : Column.t)
    (n : nat) (rows0 : list state.Row.t) (rows_init : gmap string nat)
    (done : list (string * Row.t)) (st : Assembly.t) : Prop :=
  (∀ nm, nm ∈ Assembly.found st
         ↔ ∃ t br, (t, br) ∈ done ∧ record_name format build br = nm)
  ∧ (∀ t br, (t, br) ∈ done →
       ∃ p r',
         Assembly.rows st !! record_name format build br = Some p
         ∧ Assembly.grid_rows st !! p = Some r'
         ∧ placed format build (n - 1) rows0 t br p r')
  ∧ (∀ nm p, Assembly.missing st !! nm = Some p
             ↔ rows_init !! nm = Some p ∧ nm ∉ Assembly.found st)
  ∧ (∀ p r, rows0 !! p = Some r → state.Row.Name r ∉ Assembly.found st →
            Assembly.grid_rows st !! p = Some r)
  ∧ (∀ p r', length rows0 ≤ p → Assembly.grid_rows st !! p = Some r' →
             state.Row.Name r' ∈ Assembly.found st)
  ∧ length rows0 ≤ length (Assembly.grid_rows st).

End Placement.

(** ** The grid as a table of the builds *)

Section Table.

Variable Sprintf : string → list string → string.



End Table.

Section Records.

Variable Sprintf : string → list string → string.



End Records.

(** ** gs:// URLs as [URL.String] writes them *)

Definition upper_hex (c : ascii) : bool :=
  url.is_digit c || url.between "A" "F" c.

(** [s] is made of what [escape] writes in mode [mode]: the bytes that
    need no escaping as they are, and "%XY", with hexadecimal digits in
    upper case, for a byte that does. *)
Fixpoint escaped (s : string) (mode : url.encoding) : bool :=
  match s with
  | EmptyString => true
  | String c s1 =>
      if Ascii.eqb c "%" then
        match s1 with
        | String a (String b s2) =>
            upper_hex a && upper_hex b
            && url.shouldEscape (ascii_of_N (url.unhex a * 16 + url.unhex b)) mode
            && escaped s2 mode
        | _ => false
        end
      else negb (url.shouldEscape c mode) && escaped s1 mode
  end.

(** A bucket as [URL.String] writes a host. *)
Definition written_bucket (bucket : string) : Prop :=
  escaped bucket url.encodeHost = true.

(** An object path that [URL.String] writes back as it is: empty or
    starting with a slash, and of bytes that are valid in an encoded
    path. *)
Definition written_object_path (path : string) : Prop :=
  (path = ""%string ∨ ∃ object, path = String "/" object)
  ∧ url.validEncodedPath path = true.

(** What [URL.String] writes after "gs:": nothing, or "//" with a bucket
    and an object path that are not both empty. *)
Definition written_body (body : string) : Prop :=
  body = ""%string
  ∨ ∃ bucket path,
      body = ("//" +:+ bucket +:+ path)%string
      ∧ (bucket ≠ ""%string ∨ path ≠ ""%string)
      ∧ written_bucket bucket ∧ written_object_path path.

(** The gs URLs as [URL.String] writes them: the scheme in lower case,
    the body, and at most a question mark at the end. *)
Definition written (v : string) : Prop :=
  ∃ body query,
    v = ("gs:" +:+ body +:+ query)%string
    ∧ written_body body
    ∧ (query = ""%string ∨ query = "?"%string).

(** What follows "gs:" in a URL that [Set] accepts, with the host and the
    path that [parse] makes of it: nothing; a path with a single leading
    slash; or "//", an authority and a path. *)
Definition gs_parts (rest host path rawPath : string) : Prop :=
  (rest = ""%string ∧ host = ""%string ∧ path = ""%string ∧ rawPath = ""%string)
  ∨ (∃ r, rest = String "/" r ∧ strings.HasPrefix r "/" = false
          ∧ host = ""%string ∧ url.setPath rest = Some (path, rawPath))
  ∨ (∃ authority rest',
       rest = "//" +:+ authority +:+ rest'
       ∧ ("/"%char ∉ list_ascii_of_string authority)
       ∧ (rest' = ""%string ∨ ∃ object, rest' = String "/" object)
       ∧ url.parseHost authority = Some host
       ∧ url.setPath rest' = Some (path, rawPath)).

(** * Properties *)

(** ** Integers and slices *)

Lemma int32_small z : Go.in_int32 z → Go.int32 z = z.
Proof.
  unfold Go.in_int32, Go.int32, Go.wrap. intros H.
  rewrite Z.mod_small; lia.
Qed.

Lemma int64_small z : Go.in_int64 z → Go.int64 z = z.
Proof.
  unfold Go.in_int64, Go.int64, Go.wrap. intros H.
  rewrite Z.mod_small; lia.
Qed.

Lemma index_of_nat {A} (l : list A) (i : nat) : Go.index l (Z.of_nat i) = l !! i.
Proof.
  unfold Go.index. destruct (Z.ltb_spec (Z.of_nat i) 0); [lia|].
  by rewrite Nat2Z.id.
Qed.

(** ** Run-length encoded lists *)

Lemma rle_pairs_ind (P : list Z → Prop) :
  P [] → (∀ v c l, (0 <= c)%Z → rle_wf l → P l → P (v :: c :: l)) →
  ∀ l, rle_wf l → P l.
Proof.
  intros Hnil Hcons. fix IH 1. intros [|v [|c l]]; simpl; try done.
  intros [Hc Hl]. apply Hcons; auto.
Qed.

Lemma rle_wf_snoc l v c : rle_wf l → (0 <= c)%Z → rle_wf (l ++ [v; c]).
Proof.
  intros Hl Hc. induction Hl using rle_pairs_ind; simpl; auto.
Qed.

Lemma rle_total_snoc l v c :
  rle_wf l → rle_total (l ++ [v; c]) = (rle_total l + c)%Z.
Proof.
  intros Hl. induction Hl as [|v' c' l _ _ IH] using rle_pairs_ind; simpl; [lia|].
  rewrite IH. lia.
Qed.

Lemma rle_filled_snoc l v c :
  rle_wf l →
  rle_filled (l ++ [v; c])
  = (rle_filled l + if decide (v = state.Row_NO_RESULT) then 0 else c)%Z.
Proof.
  intros Hl. induction Hl as [|v' c' l _ _ IH] using rle_pairs_ind; simpl; [lia|].
  rewrite IH. lia.
Qed.

Lemma rle_total_nonneg l : rle_wf l → (0 <= rle_total l)%Z.
Proof.
  intros Hl. induction Hl using rle_pairs_ind; simpl; lia.
Qed.

Lemma rle_filled_bounds l : rle_wf l → (0 <= rle_filled l <= rle_total l)%Z.
Proof.
  intros Hl. induction Hl using rle_pairs_ind; simpl; [lia|].
  case_decide; lia.
Qed.

(** A well-formed list that is not empty ends with a (value, count) pair. *)
Lemma rle_wf_last l :
  rle_wf l → l ≠ [] →
  ∃ pre v c, l = pre ++ [v; c] ∧ rle_wf pre ∧ (0 <= c)%Z.
Proof.
  intros Hl. induction Hl as [|v c l Hc Hl IH] using rle_pairs_ind; [done|].
  intros _. destruct l as [|x l'].
  - exists [], v, c. auto.
  - destruct IH as (pre & v' & c' & Heq & Hpre & Hc'); [done|].
    exists (v :: c :: pre), v', c'. rewrite Heq. simpl. auto.
Qed.

(** ** [AppendResult] *)

Lemma AppendResult_results (results : list Z) (latest count : Z) :
  rle_wf results → (0 <= count)%Z → (rle_total results + count < 2 ^ 31)%Z →
  let n := Z.of_nat (length results) in
  ∃ results',
    (if decide (n = 0%Z) then Some (results ++ [latest; Go.int32 count])
     else
       prev ← Go.index results (n - 2);
       if decide (prev ≠ latest)
       then Some (results ++ [latest; Go.int32 count])
       else
         last ← Go.index results (n - 1);
         Some (<[Z.to_nat (n - 1) := Go.int32 (last + Go.int32 count)]> results))
    = Some results'
    ∧ rle_wf results'
    ∧ rle_total results' = (rle_total results + count)%Z
    ∧ rle_filled results'
      = (rle_filled results
         + if decide (latest = state.Row_NO_RESULT) then 0 else count)%Z.
Proof.
  intros Hwf Hcount Hmax n.
  pose proof (rle_total_nonneg _ Hwf) as Htot.
  assert (Go.int32 count = count) as Hc32
    by (apply int32_small; unfold Go.in_int32; lia).
  assert (∃ r', Some (results ++ [latest; Go.int32 count]) = Some r'
            ∧ rle_wf r' ∧ rle_total r' = (rle_total results + count)%Z
            ∧ rle_filled r'
              = (rle_filled results
                 + if decide (latest = state.Row_NO_RESULT) then 0 else count)%Z)
    as Happend.
  { eexists; split; [reflexivity|]. rewrite Hc32.
    auto using rle_wf_snoc, rle_total_snoc, rle_filled_snoc. }
  destruct (decide (n = 0%Z)) as [Hn|Hn]; [exact Happend|].
  destruct (rle_wf_last results Hwf) as (pre & v & c & Heq & Hpre & Hc).
  { intros ->. by apply Hn. }
  assert (n = Z.of_nat (length pre) + 2)%Z as Hlen
    by (subst n results; rewrite length_app; simpl; lia).
  replace (n - 2)%Z with (Z.of_nat (length pre)) by lia.
  replace (n - 1)%Z with (Z.of_nat (length pre + 1)) by lia.
  clear Hlen Hn. subst n results.
  rewrite !index_of_nat, Nat2Z.id.
  rewrite !(lookup_app_r pre) by lia.
  replace (length pre - length pre) with 0 by lia.
  replace (length pre + 1 - length pre) with 1 by lia.
  simpl. destruct (decide (v ≠ latest)) as [Hv|Hv]; [exact Happend|].
  apply dec_stable in Hv. subst v.
  pose proof (rle_total_nonneg _ Hpre) as Hpretot.
  rewrite rle_total_snoc in * by done.
  rewrite Hc32, int32_small by (unfold Go.in_int32; lia).
  rewrite insert_app_r_alt by lia.
  replace (length pre + 1 - length pre) with 1 by lia. simpl.
  eexists; split; [reflexivity|].
  split; [apply rle_wf_snoc; [done | lia]|].
  rewrite rle_total_snoc, !rle_filled_snoc by done.
  split; [lia|]. case_decide; lia.
Qed.

Lemma AppendResult_spec (row : state.Row.t) (r : Row.t) (count : Z) :
  rle_wf (state.Row.Results row) → (0 <= count)%Z →
  (rle_total (state.Row.Results row) + count < 2 ^ 31)%Z →
  ∃ results',
    AppendResult row r count
    = Some (state.Row.mk (state.Row.Name row) (state.Row.Id row) results'
              (state.Row.CellIds row ++ replicate (Z.to_nat count) ""%string)
              (if decide (Row.Result r = state.Row_NO_RESULT)
               then state.Row.Messages row
               else state.Row.Messages row
                      ++ replicate (Z.to_nat count) (Row.Message r))
              (if decide (Row.Result r = state.Row_NO_RESULT)
               then state.Row.Icons row
               else state.Row.Icons row ++ replicate (Z.to_nat count) (Row.Icon r))
              (state.Row.Metrics row))
    ∧ rle_wf results'
    ∧ rle_total results' = (rle_total (state.Row.Results row) + count)%Z
    ∧ rle_filled results'
      = (rle_filled (state.Row.Results row)
         + if decide (Row.Result r = state.Row_NO_RESULT) then 0 else count)%Z.
Proof.
  intros Hwf Hcount Hmax.
  destruct (AppendResult_results _ (Row.Result r) count Hwf Hcount Hmax)
    as (results' & Hres & Hrest).
  exists results'. split; [|exact Hrest].
  unfold AppendResult. cbv zeta in Hres |- *. rewrite Hres. simpl.
  case_decide as Hno.
  - by rewrite (bool_decide_eq_true_2 _ Hno).
  - by rewrite (bool_decide_eq_false_2 _ Hno).
Qed.

(** C9. Every call [AppendResult(row, r, count)] on a row whose results are
    (value, count) pairs, with a count that is not negative and a total
    that stays below 2^31, returns and preserves
    [len(Messages) == len(Icons)] and [len(CellIds) == sum(Results[1::2])];
    it appends [count] empty cell ids whatever the result is, and appends
    [count] messages and [count] icons exactly when the result is not
    [NO_RESULT]. *)
Theorem AppendResult_preserves (row : state.Row.t) (r : Row.t) (count : Z) :
  rle_wf (state.Row.Results row) →
  length (state.Row.Messages row) = length (state.Row.Icons row) →
  Z.of_nat (length (state.Row.CellIds row)) = rle_total (state.Row.Results row) →
  (0 <= count)%Z →
  (rle_total (state.Row.Results row) + count < 2 ^ 31)%Z →
  ∃ row',
    AppendResult row r count = Some row'
    ∧ rle_wf (state.Row.Results row')
    ∧ length (state.Row.Messages row') = length (state.Row.Icons row')
    ∧ Z.of_nat (length (state.Row.CellIds row')) = rle_total (state.Row.Results row')
    ∧ state.Row.CellIds row'
      = state.Row.CellIds row ++ replicate (Z.to_nat count) ""%string
    ∧ (Row.Result r ≠ state.Row_NO_RESULT →
       state.Row.Messages row'
       = state.Row.Messages row ++ replicate (Z.to_nat count) (Row.Message r)
       ∧ state.Row.Icons row'
         = state.Row.Icons row ++ replicate (Z.to_nat count) (Row.Icon r))
    ∧ (Row.Result r = state.Row_NO_RESULT →
       state.Row.Messages row' = state.Row.Messages row
       ∧ state.Row.Icons row' = state.Row.Icons row).
Proof.
  intros Hwf Hmi Hcells Hcount Hmax.
  destruct (AppendResult_spec row r count Hwf Hcount Hmax)
    as (results' & -> & Hwf' & Htot & _).
  eexists; split; [reflexivity|]. simpl.
  split; [done|].
  split; [case_decide; [done|]; rewrite !length_app, !length_replicate; lia|].
  split; [rewrite length_app, length_replicate; lia|].
  split; [done|].
  split; intros Hr; case_decide; done.
Qed.

Lemma AppendResult_preserves_witness :
  ∃ row',
    AppendResult (state.Row.mk "T" "T" [1; 2]%Z [""; ""] ["a"; "b"] ["F"; "F"] [])%string
      noResult 3 = Some row'
    ∧ state.Row.Results row' = [1; 2; 0; 3]%Z
    ∧ length (state.Row.CellIds row') = 5
    ∧ state.Row.Messages row' = ["a"; "b"]%string.
Proof.
  destruct (AppendResult_preserves
              (state.Row.mk "T" "T" [1; 2]%Z [""; ""] ["a"; "b"] ["F"; "F"] [])%string
              noResult 3
              ltac:(simpl; split; [lia | done]) ltac:(done) ltac:(done)
              ltac:(lia) ltac:(simpl; lia))
    as (row' & Hrow' & _).
  exists row'. split; [exact Hrow'|].
  vm_compute in Hrow'. injection Hrow' as <-. by vm_compute.
Defined.


(** ** Unique names *)

Lemma append_char_inj (s1 s2 : string) (c : ascii) :
  s1 +:+ String c "" = s2 +:+ String c "" → s1 = s2.
Proof.
  revert s2. induction s1 as [|a s1 IH]; intros [|b s2] H; try done.
  - destruct s2; discriminate H.
  - destruct s1; discriminate H.
  - injection H as -> H. f_equal. by apply IH.
Qed.

Lemma Sprintf_indexed_inj prefix i j :
  Sprintf_indexed prefix i = Sprintf_indexed prefix j → i = j.
Proof.
  unfold Sprintf_indexed. intros H.
  apply String.app_inj, String.app_inj, append_char_inj in H.
  by apply (inj pretty).
Qed.

Lemma Sprintf_indexed_neq prefix i : Sprintf_indexed prefix i ≠ prefix.
Proof.
  assert (prefix +:+ "" = prefix) as Hnil.
  { induction prefix as [|a s IH]; [reflexivity|].
    change (String a (s +:+ "") = String a s). by rewrite IH. }
  unfold Sprintf_indexed. intros H.
  rewrite <- Hnil in H at 2. apply String.app_inj in H. discriminate H.
Qed.

(** The loop that looks for a free name leaves once it has met every
    member of [found] it can meet: [fuel] tests remain, [rest] holds the
    members that the names still to come may hit. *)
Lemma unique_name_fuel fuel (found rest : gset string) prefix name idx :
  size rest ≤ fuel →
  (name ∈ found → name ∈ rest) →
  (∀ k, (idx <= k)%Z →
        Sprintf_indexed prefix k ∈ found → Sprintf_indexed prefix k ∈ rest) →
  (∀ k, (idx <= k)%Z → Sprintf_indexed prefix k ≠ name) →
  ∃ name', unique_name fuel found prefix name idx = Some name' ∧ name' ∉ found.
Proof.
  revert rest name idx.
  induction fuel as [|fuel IH]; intros rest name idx Hsize Hname Hnext Hfresh;
    simpl; case_decide as Hin; try by eauto.
  - apply Hname in Hin. assert (size rest = 0) as Hempty by lia.
    apply size_empty_iff in Hempty. set_solver.
  - apply (IH (rest ∖ {[name]})).
    + assert (size (rest ∖ {[name]}) = size rest - 1) as ->; [|lia].
      rewrite size_difference by set_solver. by rewrite size_singleton.
    + intros Hc. apply elem_of_difference. split; [apply Hnext; [lia | done]|].
      rewrite elem_of_singleton. apply Hfresh. lia.
    + intros k Hk Hc. apply elem_of_difference. split; [apply Hnext; [lia | done]|].
      rewrite elem_of_singleton. apply Hfresh. lia.
    + intros k Hk Heq. apply Sprintf_indexed_inj in Heq. lia.
Qed.

Lemma unique_name_spec (found : gset string) prefix :
  ∃ name,
    unique_name (S (size found)) found prefix prefix 1 = Some name
    ∧ name ∉ found.
Proof.
  apply (unique_name_fuel _ found found); auto using Sprintf_indexed_neq.
Qed.

(** ** Metrics *)

Lemma foldM_cons {A B} (f : B → A → option B) a l b :
  foldM f (a :: l) b = f b a ≫= foldM f l.
Proof. reflexivity. Qed.

Lemma foldM_inv {A B} (f : B → A → option B) (I : B → Prop) l b :
  (∀ b a, a ∈ l → I b → ∃ b', f b a = Some b' ∧ I b') → I b →
  ∃ b', foldM f l b = Some b' ∧ I b'.
Proof.
  revert b. induction l as [|a l IH]; intros b Hstep Hb; [by exists b|].
  destruct (Hstep b a) as (b1 & Hb1 & HI1); [by left | done |].
  rewrite foldM_cons, Hb1. apply IH; [|done].
  intros b2 a2 Ha2. apply Hstep. by right.
Qed.

Lemma metric_ok_mono n n' m : (n <= n')%Z → metric_ok n m → metric_ok n' m.
Proof. unfold metric_ok. intros ? (? & ? & ?). repeat split; [done..|lia]. Qed.

Lemma AppendMetric_spec n m idx v :
  metric_ok (n - 1) m → (n < 2 ^ 30)%Z →
  ∃ m', AppendMetric m idx v = Some m'
        ∧ state.Metric.Name m' = state.Metric.Name m
        ∧ metric_ok n m'.
Proof.
  intros (Heven & Hlen & Hvals) Hn. unfold AppendMetric, metric_ok.
  set (indices := state.Metric.Indices m) in *.
  rewrite int32_small by (unfold Go.in_int32; lia).
  destruct Heven as [k Hk].
  case_decide as H0.
  - simpl. eexists; split; [reflexivity|]. simpl.
    rewrite !length_app. simpl. repeat split; [|lia..].
    exists (S k). lia.
  - replace (Z.of_nat (length indices) - 2)%Z
      with (Z.of_nat (length indices - 2)) by lia.
    replace (Z.of_nat (length indices) - 1)%Z
      with (Z.of_nat (length indices - 1)) by lia.
    rewrite !index_of_nat.
    destruct (lookup_lt_is_Some_2 indices (length indices - 2)) as [start ->]; [lia|].
    destruct (lookup_lt_is_Some_2 indices (length indices - 1)) as [len ->]; [lia|].
    simpl. case_decide; simpl; (eexists; split; [reflexivity|]); simpl.
    + rewrite !length_app. simpl. repeat split; [|lia..].
      exists (S k). lia.
    + rewrite length_insert, length_app. simpl. repeat split; [|lia..].
      by exists k.
Qed.

Lemma FindMetric_from_Some i ms name j :
  FindMetric_from i ms name = Some j →
  ∃ m, i ≤ j ∧ ms !! (j - i) = Some m ∧ state.Metric.Name m = name.
Proof.
  revert i. induction ms as [|m ms IH]; intros i; simpl; [done|].
  case_decide as Hname.
  - intros [= <-]. exists m. by rewrite Nat.sub_diag.
  - intros (m' & Hle & Hm' & Hn)%IH. exists m'. split; [lia|]. split; [|done].
    by replace (j - i) with (S (j - S i)) by lia.
Qed.

Lemma FindMetric_from_None i ms name :
  FindMetric_from i ms name = None → name ∉ state.Metric.Name <$> ms.
Proof.
  revert i. induction ms as [|m ms IH]; intros i; simpl.
  - intros _. by apply not_elem_of_nil.
  - case_decide as Hname; [done|]. intros Hnone%IH.
    rewrite not_elem_of_cons. by split; [congruence|].
Qed.

Section MetricLoop.

Variable n : Z.
Hypothesis n_small : (n < 2 ^ 30)%Z.
Hypothesis n_pos : (1 <= n)%Z.

(** The metrics whose key is still to come hold at most [n - 1] values. *)
Let pending (ks : list string) (m : state.Metric.t) : Prop :=
  metric_ok (if decide (state.Metric.Name m ∈ ks) then n - 1 else n)%Z m.

Lemma append_metric_step (r : state.Row.t) k v (ks : list string) :
  k ∉ ks →
  NoDup (state.Metric.Name <$> state.Row.Metrics r) →
  Forall (pending (k :: ks)) (state.Row.Metrics r) →
  ∃ metrics,
    append_metric r (k, v)
    = Some (state.Row.mk (state.Row.Name r) (state.Row.Id r)
              (state.Row.Results r) (state.Row.CellIds r)
              (state.Row.Messages r) (state.Row.Icons r) metrics)
    ∧ NoDup (state.Metric.Name <$> metrics)
    ∧ Forall (pending ks) metrics.
Proof.
  intros Hk Hnodup Hall. unfold append_metric, FindMetric.
  assert (∀ m, pending (k :: ks) m → state.Metric.Name m ≠ k → pending ks m)
    as Hother.
  { unfold pending. intros m Hm Hne.
    assert (state.Metric.Name m ∈ k :: ks ↔ state.Metric.Name m ∈ ks) as Hiff
      by (rewrite elem_of_cons; split; [intros [?|?]; [congruence | done] | by right]).
    destruct (decide (state.Metric.Name m ∈ ks)) as [Hin|Hnin].
    - by rewrite decide_True in Hm by (by apply Hiff).
    - by rewrite decide_False in Hm by (by rewrite Hiff). }
  destruct (FindMetric_from 0 (state.Row.Metrics r) k) as [i|] eqn:Hfind.
  - apply FindMetric_from_Some in Hfind as (m & _ & Hm & Hname).
    rewrite Nat.sub_0_r in Hm. rewrite Hm. simpl.
    assert (pending (k :: ks) m) as Hpm by by eapply Forall_lookup_1.
    unfold pending in Hpm. rewrite decide_True in Hpm by set_solver.
    destruct (AppendMetric_spec n m
                (Go.int32 (Z.of_nat (length (state.Row.Messages r)))) v Hpm n_small)
      as (m' & -> & Hname' & Hok'). simpl.
    eexists; split; [reflexivity|]. split.
    + rewrite list_fmap_insert, Hname', list_insert_id; [done|].
      by rewrite list_lookup_fmap, Hm.
    + apply Forall_insert; [|unfold pending; by rewrite decide_False by congruence].
      apply Forall_forall. intros m0 Hm0.
      destruct (decide (state.Metric.Name m0 = k)) as [Heq|Hne].
      * (* the metric called [k] is unique: it is the one just replaced *)
        apply list_elem_of_lookup in Hm0 as [j Hj].
        assert (j = i) as ->.
        { apply (NoDup_lookup _ j i k Hnodup); rewrite list_lookup_fmap;
            [rewrite Hj | rewrite Hm]; simpl; congruence. }
        assert (m0 = m) as -> by congruence.
        unfold pending. rewrite decide_False by congruence.
        by apply (metric_ok_mono (n - 1)%Z); [lia|].
      * apply Hother; [|done]. rewrite Forall_forall in Hall. by apply Hall.
  - apply FindMetric_from_None in Hfind.
    destruct (AppendMetric_spec n (state.Metric.mk k [] [])
                (Go.int32 (Z.of_nat (length (state.Row.Messages r)))) v)
      as (m' & -> & Hname' & Hok'); [|done|].
    { unfold metric_ok. simpl. repeat split; [by exists 0 | lia..]. }
    simpl in *. eexists; split; [reflexivity|]. split.
    + rewrite fmap_app. simpl. rewrite Hname'.
      apply NoDup_app. split; [done|]. split; [|apply NoDup_singleton].
      intros x Hx ->%list_elem_of_singleton. done.
    + apply Forall_app. split.
      * apply Forall_forall. intros m0 Hm0. apply Hother.
        -- rewrite Forall_forall in Hall. by apply Hall.
        -- intros Heq. apply Hfind. rewrite <- Heq. by apply list_elem_of_fmap_2.
      * apply Forall_singleton. unfold pending.
        by rewrite Hname', decide_False.
Qed.

Lemma append_metrics_spec (kvs : list (string * Go.float64)) (r : state.Row.t) :
  NoDup kvs.*1 →
  NoDup (state.Metric.Name <$> state.Row.Metrics r) →
  Forall (pending kvs.*1) (state.Row.Metrics r) →
  ∃ metrics,
    foldM append_metric kvs r
    = Some (state.Row.mk (state.Row.Name r) (state.Row.Id r)
              (state.Row.Results r) (state.Row.CellIds r)
              (state.Row.Messages r) (state.Row.Icons r) metrics)
    ∧ NoDup (state.Metric.Name <$> metrics)
    ∧ Forall (metric_ok n) metrics.
Proof.
  revert r. induction kvs as [|[k v] kvs IH]; intros r Hkeys Hnodup Hall.
  - exists (state.Row.Metrics r). split; [by destruct r|]. split; [done|].
    eapply Forall_impl; [exact Hall|]. unfold pending. intros m Hm.
    by rewrite decide_False in Hm by apply not_elem_of_nil.
  - rewrite fmap_cons in Hkeys. apply NoDup_cons in Hkeys as [Hk Hkeys].
    destruct (append_metric_step r k v kvs.*1 Hk Hnodup Hall)
      as (metrics & Hstep & Hnodup' & Hall').
    rewrite foldM_cons, Hstep.
    destruct (IH (state.Row.mk (state.Row.Name r) (state.Row.Id r)
                    (state.Row.Results r) (state.Row.CellIds r)
                    (state.Row.Messages r) (state.Row.Icons r) metrics)
                Hkeys Hnodup' Hall') as (metrics' & Hrest & ? & ?).
    exists metrics'. split; [exact Hrest | done].
Qed.

End MetricLoop.

(** ** The rows of the grid and the map that points at them *)

Lemma rows_index_insert grid_rows rows p (r r' : state.Row.t) :
  rows_index grid_rows rows → grid_rows !! p = Some r →
  state.Row.Name r' = state.Row.Name r →
  rows_index (<[p := r']> grid_rows) rows.
Proof.
  intros [Hrows Hmap] Hp Hname. split.
  - intros q r0 Hq. destruct (decide (p = q)) as [->|Hne].
    + rewrite list_lookup_insert_eq in Hq by by eapply lookup_lt_Some.
      injection Hq as <-. rewrite Hname. by apply Hrows.
    + rewrite list_lookup_insert_ne in Hq by done. by apply Hrows.
  - intros name q Hq. destruct (Hmap name q Hq) as (r0 & Hr0 & Hn0).
    destruct (decide (p = q)) as [->|Hne].
    + exists r'. rewrite list_lookup_insert_eq by by eapply lookup_lt_Some.
      split; [done|]. congruence.
    + exists r0. by rewrite list_lookup_insert_ne.
Qed.

Lemma rows_index_snoc grid_rows rows (r : state.Row.t) :
  rows_index grid_rows rows → rows !! state.Row.Name r = None →
  rows_index (grid_rows ++ [r]) (<[state.Row.Name r := length grid_rows]> rows).
Proof.
  intros [Hrows Hmap] Hfresh. split.
  - intros q r0 Hq. apply lookup_app_Some in Hq as [Hq|[Hlen Hq]].
    + rewrite lookup_insert_ne; [by apply Hrows|].
      intros Heq. apply Hrows in Hq. congruence.
    + apply list_lookup_singleton_Some in Hq as [Hq ->].
      replace q with (length grid_rows) by lia. by rewrite lookup_insert_eq.
  - intros name q Hq. apply lookup_insert_Some in Hq as [[<- <-]|[Hne Hq]].
    + exists r. by rewrite list_lookup_middle.
    + destruct (Hmap name q Hq) as (r0 & Hr0 & Hn0). exists r0.
      split; [|done]. by apply lookup_app_l_Some.
Qed.

Lemma rows_index_inj grid_rows rows name p q :
  rows_index grid_rows rows →
  rows !! name = Some p →
  (∃ r, grid_rows !! q = Some r ∧ state.Row.Name r = name) → p = q.
Proof.
  intros [Hrows _] Hp (r & Hr & <-). apply Hrows in Hr. congruence.
Qed.

Section Assembler.

Variable Sprintf : string → list string → string.
Variable range : ∀ V : Type, gmap string V → list (string * V).
Hypothesis range_once : range_visits_once range.

Lemma range_NoDup V (m : gmap string V) : NoDup (range V m).*1.
Proof. rewrite (range_once V m). apply NoDup_fst_map_to_list. Qed.

Lemma range_lookup V (m : gmap string V) k v :
  (k, v) ∈ range V m ↔ m !! k = Some v.
Proof. rewrite (range_once V m). apply elem_of_map_to_list. Qed.

(** One more cell for a row that has [n - 1] of them. *)
Lemma append_cell_spec (n : Z) (r : state.Row.t) (br : Row.t) :
  (1 <= n < 2 ^ 30)%Z → row_ok (n - 1) r →
  ∃ r1 r2,
    AppendResult r br 1 = Some r1
    ∧ foldM append_metric (range _ (Row.Metrics br)) r1 = Some r2
    ∧ state.Row.Name r2 = state.Row.Name r
    ∧ row_ok n r2.
Proof.
  intros Hn (Hwf & Htot & Hcells & Hmi & Hfill & Hnodup & Hmetrics).
  destruct (AppendResult_spec r br 1 Hwf) as (results' & Hr1 & Hwf' & Htot' & Hfill');
    [lia.. |].
  eexists. edestruct (append_metrics_spec n) as (metrics & Hr2 & Hnodup' & Hmetrics');
    [| | apply range_NoDup | | | eexists; split; [exact Hr1|]; split; [exact Hr2|]];
    [lia | lia | exact Hnodup | |].
  { simpl. eapply Forall_impl; [exact Hmetrics|]. intros m Hm. simpl.
    destruct (decide (state.Metric.Name m ∈ _)); [done|].
    by apply (metric_ok_mono (n - 1)%Z); [lia|]. }
  split; [done|].
  unfold row_ok. simpl. rewrite Htot', Hfill', Htot.
  destruct (decide (Row.Result br = state.Row_NO_RESULT));
    repeat split; try done; rewrite ?length_app; simpl; lia.
Qed.

(** A new row is padded with [NO_RESULT] for the columns before this one. *)
Lemma new_row_spec (ncols : nat) (name target : string) :
  (1 <= Z.of_nat ncols < 2 ^ 30)%Z →
  ∃ r',
    (if decide (1 < ncols)
     then AppendResult (state.Row.mk name target [] [] [] [] []) noResult
            (Z.of_nat ncols - 1)
     else Some (state.Row.mk name target [] [] [] [] []))
    = Some r'
    ∧ state.Row.Name r' = name
    ∧ row_ok (Z.of_nat ncols - 1) r'.
Proof.
  intros Hn. case_decide as Hcols.
  - destruct (AppendResult_spec (state.Row.mk name target [] [] [] [] []) noResult
                (Z.of_nat ncols - 1)) as (results' & -> & Hwf' & Htot' & Hfill');
      [done | simpl; lia.. |].
    eexists; split; [reflexivity|]. split; [done|].
    unfold row_ok. simpl in *. rewrite Htot', Hfill', length_replicate.
    repeat split; try done; try lia; constructor.
  - eexists; split; [reflexivity|]. split; [done|].
    assert (ncols = 1) as -> by lia.
    unfold row_ok. simpl. repeat split; try done; constructor.
Qed.

(** The state after the record that became the row at [p] called [name]. *)
Lemma record_done n grid_rows rows missing (found : gset string) name p
    (r r2 : state.Row.t) :
  rows_index grid_rows rows →
  rows !! name = Some p → grid_rows !! p = Some r →
  state.Row.Name r2 = name → row_ok n r2 →
  (∀ nm q, missing !! nm = Some q → rows !! nm = Some q) →
  (∀ nm q, nm ≠ name → rows !! nm = Some q → missing !! nm = None →
           nm ∈ found) →
  (∀ q r0, q ≠ p → grid_rows !! q = Some r0 →
           row_ok (if missing !! state.Row.Name r0 is Some _
                   then n - 1 else n)%Z r0) →
  assembly_inv n
    (Assembly.mk (<[p := r2]> grid_rows) rows (delete name missing)
       ({[name]} ∪ found)).
Proof.
  intros Hidx Hp Hr Hname2 Hok2 Hsub Hfound Hrows.
  assert (state.Row.Name r = name) as Hname.
  { destruct (proj2 Hidx _ _ Hp) as (r' & Hr' & ?). congruence. }
  split; [|split; [|split]]; simpl.
  - eapply rows_index_insert; eauto. congruence.
  - intros nm q [_ Hq]%lookup_delete_Some. eauto.
  - intros nm q Hq Hnone. destruct (decide (nm = name)) as [->|Hne]; [set_solver|].
    rewrite lookup_delete_ne in Hnone by done.
    apply elem_of_union_r. eauto.
  - intros q r0 Hq. destruct (decide (p = q)) as [<-|Hne].
    + rewrite list_lookup_insert_eq in Hq by by eapply lookup_lt_Some.
      injection Hq as <-. by rewrite Hname2, lookup_delete_eq.
    + rewrite list_lookup_insert_ne in Hq by done.
      assert (state.Row.Name r0 ≠ name) as Hne0.
      { intros Heq. apply Hne.
        apply (rows_index_inj grid_rows rows name); [done | done | eauto]. }
      rewrite lookup_delete_ne by done. apply (Hrows q); [congruence | done].
Qed.

Lemma append_record_spec format build (ncols : nat) target st br :
  (1 <= Z.of_nat ncols < 2 ^ 30)%Z →
  assembly_inv (Z.of_nat ncols) st →
  ∃ st', append_record Sprintf range format build ncols target st br = Some st'
         ∧ assembly_inv (Z.of_nat ncols) st'.
Proof.
  intros Hn (Hidx & Hsub & Hfound & Hrows). unfold append_record.
  destruct (unique_name_spec (Assembly.found st)
              (Row_Format Sprintf br format (Column.Metadata build)))
    as (name & -> & Hfresh).
  cbn [mbind option_bind].
  destruct (Assembly.rows st !! name) as [p|] eqn:Hp.
  - destruct (proj2 Hidx name p Hp) as (r & Hgr & Hname).
    assert (Assembly.missing st !! name = Some p) as Hmiss.
    { destruct (Assembly.missing st !! name) as [q|] eqn:Hq.
      - apply Hsub in Hq. congruence.
      - exfalso. apply Hfresh. eauto. }
    assert (row_ok (Z.of_nat ncols - 1) r) as Hok.
    { specialize (Hrows p r Hgr). by rewrite Hname, Hmiss in Hrows. }
    destruct (append_cell_spec _ r br Hn Hok) as (r1 & r2 & Hr1 & Hr2 & Hname2 & Hok2).
    cbn [mbind option_bind]. rewrite Hgr. cbn [mbind option_bind].
    rewrite Hr1. cbn [mbind option_bind]. rewrite Hr2. cbn [mbind option_bind].
    eexists; split; [reflexivity|].
    eapply record_done; eauto. congruence.
  - destruct (new_row_spec ncols name target Hn) as (r' & -> & Hname' & Hok').
    cbn [mbind option_bind]. rewrite list_lookup_middle by done.
    destruct (append_cell_spec _ r' br Hn Hok') as (r1 & r2 & Hr1 & Hr2 & Hname2 & Hok2).
    cbn [mbind option_bind]. rewrite Hr1. cbn [mbind option_bind].
    rewrite Hr2. cbn [mbind option_bind].
    eexists; split; [reflexivity|].
    assert (∀ nm q, Assembly.missing st !! nm = Some q → nm ≠ name) as Hold.
    { intros nm q Hq%Hsub ->. congruence. }
    eapply (record_done _ _ _ _ _ name _ r').
    + rewrite <- Hname'. apply rows_index_snoc; [done|]. by rewrite Hname'.
    + by rewrite lookup_insert_eq.
    + by rewrite list_lookup_middle.
    + congruence.
    + done.
    + intros nm q Hq. rewrite lookup_insert_ne by (symmetry; eauto). eauto.
    + intros nm q Hne Hq. rewrite lookup_insert_ne in Hq by done. eauto.
    + intros q r0 Hne Hq. apply lookup_app_Some in Hq as [Hq|[Hlen Hq]]; [eauto|].
      apply list_lookup_singleton_Some in Hq as [Hq _]. lia.
Qed.

Lemma append_target_spec format build (ncols : nat) st entry :
  (1 <= Z.of_nat ncols < 2 ^ 30)%Z →
  assembly_inv (Z.of_nat ncols) st →
  ∃ st', append_target Sprintf range format build ncols st entry = Some st'
         ∧ assembly_inv (Z.of_nat ncols) st'.
Proof.
  intros Hn Hst. unfold append_target.
  apply (foldM_inv _ (assembly_inv (Z.of_nat ncols))); [|done].
  intros st1 br _ Hst1. by apply append_record_spec.
Qed.

Lemma row_ok_no_result n (r : state.Row.t) :
  (1 <= n < 2 ^ 30)%Z → row_ok (n - 1) r →
  ∃ r', AppendResult r noResult 1 = Some r'
        ∧ state.Row.Name r' = state.Row.Name r ∧ row_ok n r'.
Proof.
  intros Hn (Hwf & Htot & Hcells & Hmi & Hfill & Hnodup & Hmetrics).
  destruct (AppendResult_spec r noResult 1 Hwf) as (results' & -> & Hwf' & Htot' & Hfill');
    [lia.. |].
  eexists; split; [reflexivity|]. split; [done|].
  unfold row_ok. simpl in *. rewrite Htot', Hfill', Htot, length_app. simpl.
  repeat split; try done; try lia.
  eapply Forall_impl; [exact Hmetrics|].
  intros m. apply metric_ok_mono. lia.
Qed.

(** The rows that the column did not mention get one [NO_RESULT] cell. *)
Lemma append_missing_spec n (entries : list (string * nat)) grid_rows rows :
  (1 <= n < 2 ^ 30)%Z →
  NoDup entries.*1 →
  rows_index grid_rows rows →
  (∀ name p, (name, p) ∈ entries → rows !! name = Some p) →
  (∀ p r, grid_rows !! p = Some r →
          row_ok (if decide (state.Row.Name r ∈ entries.*1) then n - 1 else n)%Z r) →
  ∃ grid_rows',
    foldM append_missing entries grid_rows = Some grid_rows'
    ∧ rows_index grid_rows' rows
    ∧ Forall (row_ok n) grid_rows'.
Proof.
  intros Hn. revert grid_rows.
  induction entries as [|[name p] entries IH]; intros grid_rows Hkeys Hidx Hin Hrows.
  - exists grid_rows. split; [done|]. split; [done|].
    apply Forall_lookup. intros p r Hr. specialize (Hrows p r Hr).
    by rewrite decide_False in Hrows by apply not_elem_of_nil.
  - rewrite fmap_cons in Hkeys. apply NoDup_cons in Hkeys as [Hname Hkeys].
    simpl in Hname.
    destruct (proj2 Hidx name p) as (r & Hr & Hrn); [apply Hin; by left|].
    assert (row_ok (n - 1) r) as Hok.
    { specialize (Hrows p r Hr). rewrite decide_True in Hrows; [done|].
      rewrite Hrn. by left. }
    destruct (row_ok_no_result n r Hn Hok) as (r' & Hr' & Hrn' & Hok').
    assert (append_missing grid_rows (name, p) = Some (<[p := r']> grid_rows))
      as Hstep by (unfold append_missing; simpl; by rewrite Hr; simpl; rewrite Hr').
    rewrite foldM_cons, Hstep. cbn [mbind option_bind].
    apply IH; [done | | |].
    + eapply rows_index_insert; eauto.
    + intros nm q Hq. apply Hin. by right.
    + intros q r0 Hq. destruct (decide (p = q)) as [<-|Hne].
      * rewrite list_lookup_insert_eq in Hq by by eapply lookup_lt_Some.
        injection Hq as <-. rewrite Hrn', Hrn. by rewrite decide_False.
      * rewrite list_lookup_insert_ne in Hq by done.
        assert (state.Row.Name r0 ≠ name) as Hne0.
        { intros Heq. apply Hne.
          apply (rows_index_inj grid_rows rows name); [done | | eauto].
          apply Hin. by left. }
        specialize (Hrows q r0 Hq). simpl in Hrows.
        destruct (decide (state.Row.Name r0 ∈ entries.*1)) as [Hmem|Hmem].
        -- rewrite decide_True in Hrows; [done | by right].
        -- rewrite decide_False in Hrows; [done|].
           by intros [?|?]%elem_of_cons.
Qed.

Lemma AppendColumn_spec headers format grid rows build :
  grid_inv grid rows →
  (Z.of_nat (length (Grid.Columns grid)) + 1 < 2 ^ 30)%Z →
  ∃ grid' rows',
    AppendColumn Sprintf range headers format grid rows build
    = Some (grid', rows')
    ∧ grid_inv grid' rows'
    ∧ Grid.Columns grid' = Grid.Columns grid ++ [column_record headers build].
Proof.
  intros [Hidx Hrows] Hmax. unfold AppendColumn.
  set (c := column_record _ _).
  assert (length (Grid.Columns grid ++ [c]) = S (length (Grid.Columns grid)))
    as Hlen by (rewrite length_app; simpl; lia).
  rewrite Hlen.
  set (n := S (length (Grid.Columns grid))).
  assert (1 <= Z.of_nat n < 2 ^ 30)%Z as Hn by lia.
  destruct (foldM_inv
              (append_target Sprintf range format build n)
              (assembly_inv (Z.of_nat n))
              (range _ (Column.Rows build))
              (Assembly.mk (Grid.Rows grid) rows rows ∅))
    as (st & -> & Hidx' & Hsub & Hfound & Hrows').
  { intros st1 entry _ Hst1. by apply append_target_spec. }
  { split; [done|]. split; [done|]. split; [simpl; congruence|].
    simpl. intros p r Hr. rewrite (proj1 Hidx p r Hr).
    replace (Z.of_nat n - 1)%Z with (Z.of_nat (length (Grid.Columns grid))) by lia.
    rewrite Forall_lookup in Hrows. by eapply Hrows. }
  cbn [mbind option_bind].
  destruct (append_missing_spec (Z.of_nat n) (range _ (Assembly.missing st))
              (Assembly.grid_rows st) (Assembly.rows st))
    as (grid_rows' & -> & Hidx'' & Hall); [done | apply range_NoDup | done | | |].
  { intros name p Hin%range_lookup. by apply Hsub. }
  { intros p r Hr. specialize (Hrows' p r Hr).
    destruct (Assembly.missing st !! state.Row.Name r) as [q|] eqn:Hq.
    - rewrite decide_True; [done|]. apply list_elem_of_fmap.
      exists (state.Row.Name r, q). split; [done|]. by apply range_lookup.
    - rewrite decide_False; [done|]. intros [[nm q] [Hnm Hin]]%list_elem_of_fmap.
      apply range_lookup in Hin. simpl in Hnm. congruence. }
  cbn [mbind option_bind].
  eexists _, _; split; [reflexivity|]. split; [|done].
  split; simpl; [done|]. by rewrite Hlen.
Qed.

End Assembler.

(** ** The grid that [ReadBuilds] assembles *)

Section Emission.

Variable Sprintf : string → list string → string.
Variable range : ∀ V : Type, gmap string V → list (string * V).
Variable sort_Stable : list state.Row.t → list state.Row.t.
Hypothesis range_once : range_visits_once range.
Hypothesis sort_Stable_perm : ∀ l, sort_Stable l ≡ₚ l.

Lemma grid_inv_empty : grid_inv (Grid.mk [] []) ∅.
Proof.
  split; [|by constructor]. split; [by intros ? ? ?|].
  intros name p Hp. by rewrite lookup_empty in Hp.
Qed.

Lemma append_columns_inv h nc stop interrupted cols :
  ∀ i grid rows,
    grid_inv grid rows →
    (Z.of_nat (length (Grid.Columns grid)) + Z.of_nat (length cols) < 2 ^ 30)%Z →
    ∃ res,
      append_columns Sprintf range h nc stop interrupted i cols grid rows
      = Some res
      ∧ ((∀ j, interrupted j = false) → ∃ grid', res = inr grid')
      ∧ (∀ grid', res = inr grid' → ∃ rows', grid_inv grid' rows').
Proof.
  induction cols as [|c cols IH]; intros i grid rows Hinv Hmax; simpl.
  - eexists; split; [reflexivity|]. split; [eauto|].
    intros grid' [= <-]. eauto.
  - destruct (interrupted i) eqn:Hint.
    { eexists; split; [reflexivity|]. split; [|done].
      intros Hnever. by rewrite Hnever in Hint. }
    destruct c as [c|]; [|apply IH; [done | simpl in Hmax; lia]].
    destruct (AppendColumn_spec Sprintf range range_once h nc grid rows c Hinv)
      as (grid1 & rows1 & -> & Hinv1 & Hcols1); [simpl in Hmax; lia|].
    cbn [mbind option_bind]. case_decide.
    + eexists; split; [reflexivity|]. split; [eauto|].
      intros grid' [= <-]. eauto.
    + apply IH; [done|]. rewrite Hcols1, length_app. simpl in *. lia.
Qed.

Lemma row_ok_lengths columns r :
  row_ok (Z.of_nat columns) r → row_lengths columns r.
Proof.
  intros (_ & Htot & Hcells & Hmi & Hfill & _). unfold row_lengths.
  repeat split; try done. lia.
Qed.

(** C1, as the code has it. Whatever the slots hold (fewer than 2^30 of
    them), [ReadBuilds] assembles a grid, unless it is interrupted, in
    which every row has as many counted results and as many cell ids as
    the grid has columns, as many messages as icons, and one message per
    cell whose result is not [NO_RESULT]. *)
Theorem emitted_rows_lengths h nc now dur interrupted cols :
  (Z.of_nat (length cols) < 2 ^ 30)%Z →
  ∃ res,
    ReadBuilds_grid Sprintf range sort_Stable h nc now dur interrupted cols
    = Some res
    ∧ ((∀ j, interrupted j = false) → ∃ grid, res = inr grid)
    ∧ (∀ grid, res = inr grid →
         Forall (row_lengths (length (Grid.Columns grid))) (Grid.Rows grid)).
Proof.
  intros Hmax. unfold ReadBuilds_grid.
  destruct (append_columns_inv h nc (stop_Unix now dur) interrupted cols 0
              (Grid.mk [] []) ∅ grid_inv_empty)
    as (res & -> & Hreturns & Hinv); [simpl; lia|].
  cbn [mbind option_bind]. destruct res as [err|grid].
  - eexists; split; [reflexivity|]. split; [|done].
    intros Hnever. by destruct (Hreturns Hnever).
  - eexists; split; [reflexivity|]. split; [eauto|].
    intros grid' [= <-]. simpl.
    destruct (Hinv grid eq_refl) as (rows' & _ & Hrows).
    rewrite sort_Stable_perm.
    eapply Forall_impl; [exact Hrows|]. apply row_ok_lengths.
Qed.

End Emission.

Lemma range_any_visits_once : range_visits_once range_any.
Proof. intros V m. reflexivity. Defined.

Lemma emitted_rows_lengths_witness :
  ∃ res,
    ReadBuilds_grid Sprintf_plain range_any id [] defaultNameConfig 0 0
      (λ _, false) [Some example_b2; Some example_b1]
    = Some res
    ∧ ((∀ j : nat, (λ _ : nat, false) j = false) → ∃ grid, res = inr grid)
    ∧ (∀ grid, res = inr grid →
         Forall (row_lengths (length (Grid.Columns grid))) (Grid.Rows grid)).
Proof.
  apply (emitted_rows_lengths Sprintf_plain range_any id range_any_visits_once
           (λ l, reflexivity l)).
  simpl. lia.
Defined.

(** C1, as the specification words it, fails: after [b2] and [b1] the row
    [T] has two cells in a grid of two columns, and one message. *)
Lemma emitted_rows_not_all_equal :
  ∃ grid,
    ReadBuilds_grid Sprintf_plain range_any id [] defaultNameConfig 0 0
      (λ _, false) [Some example_b2; Some example_b1]
    = Some (inr grid)
    ∧ length (Grid.Columns grid) = 2
    ∧ state.Row.mk "T" "T" [1; 1; 0; 1]%Z [""; ""] [""] [""] [] ∈ Grid.Rows grid
    ∧ ¬ Forall (row_lengths_all_equal (length (Grid.Columns grid)))
          (Grid.Rows grid).
Proof.
  eexists. split; [vm_compute; reflexivity|].
  split; [reflexivity|]. split; [set_solver|].
  rewrite Forall_forall. intros Hall.
  destruct (Hall (state.Row.mk "T" "T" [1; 1; 0; 1]%Z [""; ""] [""] [""] []))
    as (_ & _ & Hlen & _); [set_solver|].
  discriminate Hlen.
Qed.

(** ** Strings and their slices *)

Lemma string_app_cons a s1 s2 : String a s1 +:+ s2 = String a (s1 +:+ s2).
Proof. reflexivity. Qed.

Lemma string_app_nil_l s : "" +:+ s = s.
Proof. reflexivity. Qed.

Lemma string_app_nil_r s : s +:+ "" = s.
Proof. induction s as [|a s IH]; [done|]. by rewrite string_app_cons, IH. Qed.

Lemma string_app_assoc s1 s2 s3 : (s1 +:+ s2) +:+ s3 = s1 +:+ s2 +:+ s3.
Proof. induction s1 as [|a s1 IH]; [done|]. by rewrite !string_app_cons, IH. Qed.

Lemma string_length_app s1 s2 :
  String.length (s1 +:+ s2) = String.length s1 + String.length s2.
Proof. induction s1 as [|a s1 IH]; [done|]. rewrite string_app_cons. simpl. by rewrite IH. Qed.

Lemma substring_all s : substring 0 (String.length s) s = s.
Proof. induction s as [|a s IH]; [done|]. simpl. by rewrite IH. Qed.

Lemma slice_to_app s1 s2 : Go.slice_to (String.length s1) (s1 +:+ s2) = s1.
Proof.
  unfold Go.slice_to. induction s1 as [|a s1 IH]; [by destruct s2|].
  rewrite string_app_cons. simpl. by rewrite IH.
Qed.

Lemma substring_skip s1 s2 m :
  substring (String.length s1) m (s1 +:+ s2) = substring 0 m s2.
Proof. induction s1 as [|a s1 IH]; [done|]. rewrite string_app_cons. simpl. by rewrite IH. Qed.

Lemma slice_from_app s1 s2 : Go.slice_from (String.length s1) (s1 +:+ s2) = s2.
Proof.
  unfold Go.slice_from. rewrite substring_skip, string_length_app.
  replace (String.length s1 + String.length s2 - String.length s1)
    with (String.length s2) by lia.
  apply substring_all.
Qed.

(** A string is what comes before a position followed by what comes after. *)
Lemma slice_split k s :
  k ≤ String.length s →
  ∃ s1 s2, s = s1 +:+ s2 ∧ String.length s1 = k
           ∧ Go.slice_to k s = s1 ∧ Go.slice_from k s = s2.
Proof.
  revert k. induction s as [|a s IH]; intros k Hk.
  - exists "", "". simpl in Hk. by replace k with 0 by lia.
  - destruct k as [|k].
    + exists "", (String a s). repeat split; try done.
      unfold Go.slice_from. rewrite Nat.sub_0_r. apply substring_all.
    + destruct (IH k) as (s1 & s2 & -> & Hlen & Hto & Hfrom); [simpl in Hk; lia|].
      exists (String a s1), s2.
      split; [reflexivity|]. split; [simpl; lia|].
      unfold Go.slice_to, Go.slice_from in *. simpl. by rewrite Hto, Hfrom.
Qed.

(** Bytes of a string. *)
Lemma bytes_app s1 s2 :
  list_ascii_of_string (s1 +:+ s2)
  = list_ascii_of_string s1 ++ list_ascii_of_string s2.
Proof. induction s1 as [|a s1 IH]; [done|]. rewrite string_app_cons. simpl. by rewrite IH. Qed.

Lemma not_in_bytes c s :
  forallb (λ a, negb (Ascii.eqb a c)) (list_ascii_of_string s) = true →
  c ∉ list_ascii_of_string s.
Proof.
  rewrite forallb_forall. intros Hall Hin%list_elem_of_In.
  apply Hall in Hin. by rewrite Ascii.eqb_refl in Hin.
Qed.

Lemma prefix_char c s :
  String.prefix (String c "") s
  = match s with String a _ => bool_decide (c = a) | EmptyString => false end.
Proof.
  destruct s as [|a s]; [done|]. simpl.
  destruct (ascii_dec c a) as [->|Hne].
  - rewrite bool_decide_eq_true_2 by done. by destruct s.
  - by rewrite bool_decide_eq_false_2.
Qed.

(** The first occurrence of a byte. *)
Lemma Index_char_app pre c post :
  c ∉ list_ascii_of_string pre →
  strings.Index (pre +:+ String c post) (String c "") = Some (String.length pre).
Proof.
  induction pre as [|a pre IH]; intros Hpre.
  - rewrite string_app_nil_l. cbn [strings.Index]. rewrite prefix_char.
    by rewrite bool_decide_eq_true_2.
  - rewrite string_app_cons. cbn [strings.Index]. rewrite prefix_char.
    simpl in Hpre. apply not_elem_of_cons in Hpre as [Hne Hpre].
    rewrite bool_decide_eq_false_2 by done. by rewrite IH.
Qed.

Lemma Index_char_None s c :
  c ∉ list_ascii_of_string s → strings.Index s (String c "") = None.
Proof.
  induction s as [|a s IH]; intros Hs; [done|].
  cbn [strings.Index]. rewrite prefix_char.
  simpl in Hs. apply not_elem_of_cons in Hs as [Hne Hs].
  rewrite bool_decide_eq_false_2 by done. by rewrite IH.
Qed.

(** ** The extra values of a column *)

Lemma truncate_spec k v :
  0 < k →
  truncated_to k v
    (if decide (0 < k ∧ k < String.length v) then Go.slice_to k v else v).
Proof.
  intros Hk. unfold truncated_to.
  destruct (decide (String.length v ≤ k)) as [Hle|Hgt].
  - rewrite decide_False by lia. done.
  - destruct (slice_split k v) as (s1 & s2 & Hv & Hlen & Hto & _); [lia|].
    rewrite decide_True by lia. rewrite Hto. eauto.
Qed.

Lemma SplitN_plus_last pre post :
  "+"%char ∉ list_ascii_of_string pre →
  let parts := strings.SplitN (pre +:+ "+" +:+ post) "+" 2 in
  default ""%string (parts !! (length parts - 1)) = post.
Proof.
  intros Hpre. cbv zeta. unfold strings.SplitN, strings.split_loop.
  change ("+" +:+ post) with (String "+" post).
  rewrite (Index_char_app pre "+" post Hpre). simpl.
  replace (String.length pre + 1) with (String.length (pre +:+ "+"))
    by (rewrite string_length_app; simpl; lia).
  change (String "+" post) with ("+" +:+ post).
  by rewrite <- string_app_assoc, slice_from_app.
Qed.

Lemma SplitN_no_plus av :
  "+"%char ∉ list_ascii_of_string av →
  let parts := strings.SplitN av "+" 2 in
  default ""%string (parts !! (length parts - 1)) = av.
Proof.
  intros Hav. cbv zeta. unfold strings.SplitN, strings.split_loop.
  by rewrite (Index_char_None av "+" Hav).
Qed.

Lemma header_extra_commit build :
  Column.Finished build ≠ 0%Z →
  header_extra build "Commit"
  = let v :=
      match Column.Metadata build !! "repo-commit"%string with
      | Some v => v
      | None =>
          match Column.Metadata build !! "job-version"%string with
          | Some av =>
              let parts := strings.SplitN av "+" 2 in
              default ""%string (parts !! (length parts - 1))
          | None => ""%string
          end
      end in
    if decide (0 < 9 ∧ 9 < String.length v) then Go.slice_to 9 v else v.
Proof. intros Hfinished. unfold header_extra. by rewrite decide_False. Qed.

(** C5, as the code has it. For a finished build the header [Commit] is
    the value of [repo-commit] cut to 9 bytes; without [repo-commit] it is
    what follows the first '+' of [job-version] (all of it when it holds no
    '+'), cut to 9 bytes, and the empty string when both keys are absent;
    any other header is its metadata value, or "missing" without one. *)
Theorem header_extra_cases (build : Column.t) :
  Column.Finished build ≠ 0%Z →
  (∀ v, Column.Metadata build !! "repo-commit"%string = Some v →
        truncated_to 9 v (header_extra build "Commit"))
  ∧ (Column.Metadata build !! "repo-commit"%string = None →
     (∀ pre post,
         Column.Metadata build !! "job-version"%string
         = Some (pre +:+ "+" +:+ post) →
         "+"%char ∉ list_ascii_of_string pre →
         truncated_to 9 post (header_extra build "Commit"))
     ∧ (∀ av, Column.Metadata build !! "job-version"%string = Some av →
              "+"%char ∉ list_ascii_of_string av →
              truncated_to 9 av (header_extra build "Commit"))
     ∧ (Column.Metadata build !! "job-version"%string = None →
        header_extra build "Commit" = ""%string))
  ∧ (∀ h, h ≠ "Commit"%string →
          header_extra build h
          = default "missing"%string (Column.Metadata build !! h)).
Proof.
  intros Hfinished.
  rewrite (header_extra_commit build Hfinished). cbv zeta. split; [|split].
  - intros v ->. apply truncate_spec; lia.
  - intros ->. split; [|split].
    + intros pre post -> Hpre. rewrite (SplitN_plus_last pre post Hpre).
      apply truncate_spec; lia.
    + intros av -> Hplus. rewrite (SplitN_no_plus av Hplus).
      apply truncate_spec; lia.
    + by intros ->.
  - intros h Hh. unfold header_extra.
    rewrite !decide_False by done.
    destruct (Column.Metadata build !! h); by rewrite decide_False by lia.
Qed.

Lemma header_extra_cases_witness :
  header_extra example_versioned "Commit" = "ab+cd"%string
  ∧ header_extra example_versioned "Node" = "missing"%string.
Proof.
  destruct (header_extra_cases example_versioned ltac:(done))
    as (_ & Hcommit & Hother).
  destruct (Hcommit ltac:(done)) as (Hplus & _ & _).
  specialize (Hplus "v1.10.0" "ab+cd" ltac:(done)
                ltac:(by apply not_in_bytes))%string.
  split; [exact Hplus|]. by rewrite Hother.
Defined.

(** C5, as the specification words it, fails: the fallback is not what
    follows the last '+'. *)
Lemma header_extra_not_after_last_plus :
  Column.Finished example_versioned ≠ 0%Z
  ∧ Column.Metadata example_versioned !! "repo-commit"%string = None
  ∧ Column.Metadata example_versioned !! "job-version"%string
    = Some "v1.10.0+ab+cd"%string
  ∧ after_last "+" "v1.10.0+ab+cd" = "cd"%string
  ∧ header_extra example_versioned "Commit" = "ab+cd"%string
  ∧ header_extra example_versioned "Commit" ≠ after_last "+" "v1.10.0+ab+cd".
Proof. repeat split; done. Qed.

(** ** JUnit messages *)

(** C2, as the code has it. A text of at most 140 bytes is the message; of
    a longer text the message keeps the first 70 bytes, then three dots,
    then the last 71 bytes. *)
Theorem Message_truncates (jr : JunitResult.t) :
  (String.length (JunitResult.text jr) ≤ 140 →
   JunitResult.Message jr = JunitResult.text jr)
  ∧ (140 < String.length (JunitResult.text jr) →
     ∃ head middle tail,
       JunitResult.text jr = head +:+ middle +:+ tail
       ∧ String.length head = 70
       ∧ String.length tail = 71
       ∧ JunitResult.Message jr = head +:+ "..." +:+ tail).
Proof.
  unfold JunitResult.Message. cbv zeta.
  remember (JunitResult.text jr) as msg eqn:Hmsgdef. clear Hmsgdef.
  split; intros Hlen.
  - by rewrite decide_True by lia.
  - rewrite decide_False by lia.
    change (140 / 2) with 70.
    destruct (slice_split (String.length msg - 70 - 1) msg)
      as (front & tail & Hmsg & Hfront & _ & Htail); [lia|].
    destruct (slice_split 70 front) as (head & middle & Hf & Hhead & _ & _); [lia|].
    exists head, middle, tail.
    assert (msg = head +:+ middle +:+ tail) as Hsplit
      by (by rewrite Hmsg, Hf, string_app_assoc).
    split; [done|]. split; [done|].
    assert (String.length msg = String.length front + String.length tail)
      as Hsum by (rewrite Hmsg at 1; apply string_length_app).
    split; [lia|].
    rewrite Htail. f_equal.
    rewrite Hsplit, <- Hhead. apply slice_to_app.
Qed.

Lemma Message_truncates_witness :
  ∃ head middle tail,
    JunitResult.text example_failure = head +:+ middle +:+ tail
    ∧ String.length head = 70
    ∧ String.length tail = 71
    ∧ JunitResult.Message example_failure = head +:+ "..." +:+ tail.
Proof.
  apply (proj2 (Message_truncates example_failure)).
  vm_compute. lia.
Defined.

(** C2, as the specification words it, fails: of a text of 141 bytes the
    message keeps 70 + 3 + 71 = 144 bytes, not 70 + 3 + 69. *)
Lemma Message_not_70_69 :
  String.length (JunitResult.text example_failure) = 141
  ∧ String.length (JunitResult.Message example_failure) = 144
  ∧ String.length (truncate_70_69 (JunitResult.text example_failure)) = 142
  ∧ JunitResult.Message example_failure
    ≠ truncate_70_69 (JunitResult.text example_failure).
Proof. repeat split; try reflexivity. by vm_compute. Qed.

(** ** The overall row *)

Lemma Unix_day_before now :
  time.Unix (time.Add now (-24 * time.Hour)) = (time.Unix now - 24 * 3600)%Z.
Proof.
  unfold time.Unix, time.Add, time.Hour.
  replace (now + -24 * (3600 * time.Second))%Z
    with (now + (- (24 * 3600)) * time.Second)%Z by lia.
  rewrite Z.div_add by done. lia.
Qed.

(** C4. With a finished timestamp the overall row passes or fails as the
    build did and carries the elapsed seconds; without one it fails with
    icon T when the build started more than 24 hours before now, and is
    running with icon R otherwise. *)
Theorem Overall_cases (now : Z) (br : Column.t) :
  ((Column.Finished br > 0)%Z →
   Go.in_int64 (Column.Finished br - Column.Started br) →
   Column_Overall now br
   = Row.mk (if Column.Passed br then state.Row_PASS else state.Row_FAIL)
       {[ elapsedKey :=
            Go.float64_of_int64 (Column.Finished br - Column.Started br) ]}
       {[ "Tests name"%string := "Overall"%string ]} "" "")
  ∧ ((Column.Finished br <= 0)%Z →
     (Column.Started br < time.Unix now - 24 * 3600)%Z →
     Column_Overall now br
     = Row.mk state.Row_FAIL ∅ {[ "Tests name"%string := "Overall"%string ]}
         "Testing did not complete within 24 hours" "T")
  ∧ ((Column.Finished br <= 0)%Z →
     (time.Unix now - 24 * 3600 <= Column.Started br)%Z →
     Column_Overall now br
     = Row.mk state.Row_RUNNING ∅ {[ "Tests name"%string := "Overall"%string ]}
         "Still running; has not finished..." "R").
Proof.
  unfold Column_Overall. rewrite Unix_day_before. split; [|split].
  - intros Hfin Hrange. rewrite decide_True by done. by rewrite int64_small.
  - intros Hfin Hold. rewrite decide_False by lia. by rewrite decide_True by lia.
  - intros Hfin Hrecent. rewrite decide_False by lia. by rewrite decide_False by lia.
Qed.

Lemma Overall_cases_witness :
  Column_Overall 100000000000000 example_b1
  = Row.mk state.Row_PASS {[ elapsedKey := Go.float64_of_int64 100 ]}
      {[ "Tests name"%string := "Overall"%string ]} "" "".
Proof.
  apply (proj1 (Overall_cases 100000000000000 example_b1)).
  - simpl. lia.
  - unfold Go.in_int64. simpl. lia.
Defined.

(** ** The columns that reach the grid *)

Section Feeding.

Variable Sprintf : string → list string → string.
Variable range : ∀ V : Type, gmap string V → list (string * V).
Variable sort_Stable : list state.Row.t → list state.Row.t.
Hypothesis range_once : range_visits_once range.





End Feeding.



(** ** [ReadBuild] *)

Section Reading.

Variable range : ∀ V : Type, gmap string V → list (string * V).
Hypothesis range_once : range_visits_once range.

Lemma foldl_merge_lookup (l : list (string * list Row.t))
    (m : gmap string (list Row.t)) t :
  NoDup l.*1 →
  foldl (λ m (entry : string * list Row.t),
           <[entry.1 := default [] (m !! entry.1) ++ entry.2]> m) m l !! t
  = match (list_to_map l : gmap string (list Row.t)) !! t with
    | Some rs => Some (default [] (m !! t) ++ rs)
    | None => m !! t
    end.
Proof.
  revert m. induction l as [|[k rs] l IH]; intros m Hkeys; [done|].
  rewrite fmap_cons in Hkeys. apply NoDup_cons in Hkeys as [Hk Hkeys].
  cbn [foldl list_to_map foldr fst snd uncurry]. rewrite IH by done.
  destruct (decide (t = k)) as [->|Hne].
  - rewrite (not_elem_of_list_to_map_1 _ k) by done.
    by rewrite !lookup_insert_eq.
  - by rewrite !lookup_insert_ne.
Qed.

Lemma merge_rows_lookup (br_rows rows : gmap string (list Row.t)) t :
  merge_rows range br_rows rows !! t
  = match rows !! t with
    | Some rs => Some (default [] (br_rows !! t) ++ rs)
    | None => br_rows !! t
    end.
Proof.
  unfold merge_rows. rewrite foldl_merge_lookup by apply range_NoDup, range_once.
  replace (list_to_map (range (list Row.t) rows)) with rows; [done|].
  rewrite (list_to_map_proper _ (map_to_list rows));
    [by rewrite list_to_map_to_list | apply range_NoDup, range_once | apply range_once].
Qed.

Lemma has_failing_test_spec (br_rows : gmap string (list Row.t)) :
  has_failing_test range br_rows = true ↔ some_test_failed br_rows.
Proof.
  unfold has_failing_test, some_test_failed. rewrite existsb_exists. split.
  - intros ([name rs] & Hin & Hfail). simpl in Hfail.
    case_decide as Hname; [done|].
    apply existsb_exists in Hfail as (r & Hr & Hres).
    exists name, rs, r. split; [done|].
    split; [by apply (range_lookup range range_once), list_elem_of_In|].
    split; [by apply list_elem_of_In|]. by apply bool_decide_eq_true in Hres.
  - intros (name & rs & r & Hname & Hrs & Hr & Hres).
    exists (name, rs). split.
    + by apply list_elem_of_In, (range_lookup range range_once).
    + simpl. rewrite decide_False by done. apply existsb_exists.
      exists r. split; [by apply list_elem_of_In|]. by apply bool_decide_eq_true.
Qed.

(** The rows of the JUnit artifacts do not change who failed among the
    rows other than the overall one. *)
Lemma some_test_failed_merge (or : Row.t) (rows : gmap string (list Row.t)) :
  some_test_failed (merge_rows range {[ "Overall"%string := [or] ]} rows)
  ↔ some_test_failed rows.
Proof.
  unfold some_test_failed.
  split; intros (name & rs & r & Hname & Hrs & Hr & Hres);
    exists name, rs, r; (split; [done|]); (split; [|done]).
  - rewrite merge_rows_lookup, lookup_singleton_ne in Hrs by done.
    by destruct (rows !! name).
  - rewrite merge_rows_lookup, lookup_singleton_ne by done. by rewrite Hrs.
Qed.

(** C8. When the overall row of a finished build is a failure, [ReadBuild]
    gives it icon F and the message "Build failed outside of test results"
    if no other row holds a failed result, and leaves it as it is if one
    does. *)
Theorem ReadBuild_failed_outside now prefix evs rows started finished :
  wait_started_finished evs None None = Some (inr (started, finished)) →
  Finished.running finished = false →
  let or :=
    Column_Overall now
      (Column.mk (path.Base prefix) (Started.Timestamp started)
         (Finished.Timestamp finished) (Finished.Passed finished) ∅
         (ColumnMetadata (Finished.Metadata finished))) in
  Row.Result or = state.Row_FAIL →
  ∃ col,
    ReadBuild range now prefix evs (Ec None) rows = Some (inr col)
    ∧ (¬ some_test_failed rows →
       Column.Rows col !! "Overall"%string
       = Some (Row.mk state.Row_FAIL (Row.Metrics or) (Row.Metadata or)
                 "Build failed outside of test results" "F"
                 :: default [] (rows !! "Overall"%string)))
    ∧ (some_test_failed rows →
       Column.Rows col !! "Overall"%string
       = Some (or :: default [] (rows !! "Overall"%string))).
Proof.
  intros Hwait Hrunning or Hfail. unfold ReadBuild.
  rewrite Hwait. cbn [mbind option_bind]. rewrite Hrunning.
  cbn [Column.Id Column.Started Column.Finished Column.Passed Column.Metadata].
  fold or. rewrite decide_True by done.
  assert (merge_rows range {[ "Overall"%string := [or] ]} rows !! "Overall"%string
          = Some (or :: default [] (rows !! "Overall"%string))) as Hoverall.
  { rewrite merge_rows_lookup, lookup_singleton_eq. by destruct (rows !! _). }
  destruct (has_failing_test range _) eqn:Hft.
  - apply has_failing_test_spec, some_test_failed_merge in Hft.
    cbn [mbind option_bind]. eexists; split; [reflexivity|].
    cbn [Column.Rows]. split; [done|]. by intros _.
  - assert (¬ some_test_failed rows) as Hnone.
    { intros Hsome. apply (proj2 (some_test_failed_merge or rows)) in Hsome.
      apply (proj2 (has_failing_test_spec _)) in Hsome. congruence. }
    unfold amend_overall. rewrite Hoverall. cbn [mbind option_bind lookup list_lookup].
    eexists; split; [reflexivity|]. cbn [Column.Rows].
    split; [|done]. intros _. rewrite lookup_insert_eq. simpl. by rewrite Hfail.
Qed.

End Reading.

Lemma ReadBuild_failed_outside_witness :
  ∃ col,
    ReadBuild range_any 1000000 "logs/job/7/"
      [FromSc example_started; FromFc example_failed] (Ec None) example_junit_rows
    = Some (inr col)
    ∧ Column.Rows col !! "Overall"%string
      = Some [Row.mk state.Row_FAIL {[ elapsedKey := Go.float64_of_int64 100 ]}
                {[ "Tests name"%string := "Overall"%string ]}
                "Build failed outside of test results" "F"].
Proof.
  destruct (ReadBuild_failed_outside range_any range_any_visits_once 1000000
              "logs/job/7/" [FromSc example_started; FromFc example_failed]
              example_junit_rows example_started example_failed
              eq_refl eq_refl eq_refl)
    as (col & Hcol & Hnone & _).
  exists col. split; [exact Hcol|].
  apply Hnone. intros (name & rs & r & Hname & Hrs & Hr & Hres).
  unfold example_junit_rows in Hrs.
  apply lookup_singleton_Some in Hrs as [_ <-].
  apply list_elem_of_singleton in Hr as ->. discriminate Hres.
Defined.

(** ** The first loop of [ReadBuild] *)

(** The first loop of [ReadBuild] before started and finished are both
    there. *)
Lemma wait_started_finished_error pre err post started finished :
  (∀ e, FromEc (Some e) ∉ pre) →
  (started = None ∧ ∀ s, FromSc s ∉ pre)
  ∨ (finished = None ∧ ∀ f, FromFc f ∉ pre) →
  wait_started_finished (pre ++ FromEc (Some err) :: post) started finished
  = Some (inl err).
Proof.
  revert started finished.
  induction pre as [|ev pre IH]; intros started finished Hpre Hlack; [done|].
  assert (∀ e, FromEc (Some e) ∉ pre) as Hpre'
    by (intros e He; apply (Hpre e); by right).
  destruct ev as [[e|]|s|f]; simpl.
  - exfalso. apply (Hpre e). by left.
  - destruct Hlack as [[-> Hs]|[-> Hf]].
    + apply IH; [done|]. left. split; [done|]. intros s Hin. apply (Hs s). by right.
    + destruct started; (apply IH; [done|]; right; split; [done|]);
        intros f Hin; apply (Hf f); by right.
  - destruct Hlack as [[-> Hs]|[-> Hf]]; [exfalso; apply (Hs s); by left|].
    apply IH; [done|]. right. split; [done|]. intros f Hin. apply (Hf f). by right.
  - destruct Hlack as [[-> Hs]|[-> Hf]]; [|exfalso; apply (Hf f); by left].
    apply IH; [done|]. left. split; [done|]. intros s Hin. apply (Hs s). by right.
Qed.

(** The loop goes on waiting when the values run out before started and
    finished are both there. *)
Lemma wait_started_finished_blocked evs started finished :
  (∀ e, FromEc (Some e) ∉ evs) →
  (started = None ∧ ∀ s, FromSc s ∉ evs)
  ∨ (finished = None ∧ ∀ f, FromFc f ∉ evs) →
  wait_started_finished evs started finished = None.
Proof.
  revert started finished.
  induction evs as [|ev evs IH]; intros started finished Hevs Hlack; [done|].
  assert (∀ e, FromEc (Some e) ∉ evs) as Hevs'
    by (intros e He; apply (Hevs e); by right).
  destruct ev as [[e|]|s|f]; simpl.
  - exfalso. apply (Hevs e). by left.
  - destruct Hlack as [[-> Hs]|[-> Hf]].
    + apply IH; [done|]. left. split; [done|]. intros s Hin. apply (Hs s). by right.
    + destruct started; (apply IH; [done|]; right; split; [done|]);
        intros f Hin; apply (Hf f); by right.
  - destruct Hlack as [[-> Hs]|[-> Hf]]; [exfalso; apply (Hs s); by left|].
    apply IH; [done|]. right. split; [done|]. intros f Hin. apply (Hf f). by right.
  - destruct Hlack as [[-> Hs]|[-> Hf]]; [|exfalso; apply (Hf f); by left].
    apply IH; [done|]. left. split; [done|]. intros s Hin. apply (Hs s). by right.
Qed.

(** The loop ends with a started and a finished that it has received, once
    both have come in with no error before them, whatever comes
    afterwards. *)
Lemma wait_started_finished_both pre post :
  ∀ started finished,
    (∀ e, FromEc (Some e) ∉ pre) →
    started = None ∨ finished = None →
    (is_Some started ∨ ∃ s, FromSc s ∈ pre) →
    (is_Some finished ∨ ∃ f, FromFc f ∈ pre) →
    ∃ s f,
      (started = Some s ∨ FromSc s ∈ pre)
      ∧ (finished = Some f ∨ FromFc f ∈ pre)
      ∧ wait_started_finished (pre ++ post) started finished = Some (inr (s, f)).
Proof.
  induction pre as [|ev pre IH]; intros started finished Hpre Hnone Hs Hf.
  { exfalso. destruct Hs as [[s ->]|[s Hs]]; [|by apply elem_of_nil in Hs].
    destruct Hf as [[f ->]|[f Hf]]; [|by apply elem_of_nil in Hf].
    by destruct Hnone. }
  assert (∀ e, FromEc (Some e) ∉ pre) as Hpre'
    by (intros e He; apply (Hpre e); by right).
  destruct ev as [[e|]|s0|f0]; cbn [app wait_started_finished].
  - exfalso. apply (Hpre e). by left.
  - destruct (IH started finished Hpre' Hnone) as (s & f & Hs' & Hf' & Hwait).
    + destruct Hs as [Hs|[s Hs]]; [by left|]. right. exists s.
      by apply elem_of_cons in Hs as [[=]|Hs].
    + destruct Hf as [Hf|[f Hf]]; [by left|]. right. exists f.
      by apply elem_of_cons in Hf as [[=]|Hf].
    + exists s, f. split; [|split].
      * destruct Hs' as [Hs'|Hs']; [by left | right; by right].
      * destruct Hf' as [Hf'|Hf']; [by left | right; by right].
      * rewrite <- Hwait. by destruct Hnone as [-> | ->]; [|destruct started].
  - destruct finished as [f0|].
    + exists s0, f0. split; [right; by left|]. split; [by left | done].
    + destruct (IH (Some s0) None Hpre') as (s & f & Hs' & Hf' & Hwait);
        [by right | by left | |].
      * destruct Hf as [[f [=]]|[f Hf]]. right. exists f.
        by apply elem_of_cons in Hf as [[=]|Hf].
      * exists s, f. split; [|split; [|done]].
        -- right. destruct Hs' as [[= ->]|Hs']; [by left | by right].
        -- right. destruct Hf' as [[=]|Hf']. by right.
  - destruct started as [s0|].
    + exists s0, f0. split; [by left|]. split; [right; by left | done].
    + destruct (IH None (Some f0) Hpre') as (s & f & Hs' & Hf' & Hwait);
        [by left | | by left |].
      * destruct Hs as [[s [=]]|[s Hs]]. right. exists s.
        by apply elem_of_cons in Hs as [[=]|Hs].
      * exists s, f. split; [|split; [|done]].
        -- right. destruct Hs' as [[=]|Hs']. by right.
        -- right. destruct Hf' as [[= ->]|Hf']; [by left | by right].
Qed.

(** C10. When [finished.json] is absent, [ReadBuild] returns a column only
    on one path: when [started.json] and the running sentinel have both
    been received before any error of a task. That column has the one key
    "Overall", with a single row under it; what the JUnit artifacts held
    is left out, and [Finished], [Passed] and [Metadata] keep their zero
    values, whatever is received afterwards. When a task reports an error
    before both are there, [ReadBuild] returns that error and no column;
    when the values run out before both are there, it does not return. *)
Theorem ReadBuild_running range now prefix evs sel rows :
  finished_absent evs →
  (∀ pre post,
     evs = pre ++ post →
     no_task_error pre → started_received pre → finished_received pre →
     ∃ started,
       FromSc started ∈ pre
       ∧ ReadBuild range now prefix evs sel rows
         = Some (inr (Column.mk (path.Base prefix) (Started.Timestamp started)
                        0 false
                        {[ "Overall"%string :=
                             [Column_Overall now
                                (Column.mk (path.Base prefix)
                                   (Started.Timestamp started) 0 false ∅ ∅)] ]}
                        ∅)))
  ∧ (∀ pre err post,
       evs = pre ++ FromEc (Some err) :: post →
       no_task_error pre →
       ¬ started_received pre ∨ ¬ finished_received pre →
       ReadBuild range now prefix evs sel rows = Some (inl (FailedToRead err)))
  ∧ (no_task_error evs →
     ¬ started_received evs ∨ ¬ finished_received evs →
     ReadBuild range now prefix evs sel rows = None).
Proof.
  intros Habsent. split; [|split].
  - intros pre post -> Hpre Hs Hf.
    destruct (wait_started_finished_both pre post None None Hpre)
      as (s & f & Hs' & Hf' & Hwait); [by left | by right | by right |].
    destruct Hs' as [[=]|Hs']. destruct Hf' as [[=]|Hf'].
    exists s. split; [done|]. unfold ReadBuild.
    rewrite Hwait. cbn [mbind option_bind].
    rewrite (Habsent f) by (apply elem_of_app; by left). done.
  - intros pre err post -> Hpre Hlack. unfold ReadBuild.
    rewrite (wait_started_finished_error pre err post None None Hpre); [done|].
    destruct Hlack as [Hs|Hf]; [left | right]; (split; [done|]).
    + intros s Hin. apply Hs. by exists s.
    + intros f Hin. apply Hf. by exists f.
  - intros Hevs Hlack. unfold ReadBuild.
    rewrite (wait_started_finished_blocked evs None None Hevs); [done|].
    destruct Hlack as [Hs|Hf]; [left | right]; (split; [done|]).
    + intros s Hin. apply Hs. by exists s.
    + intros f Hin. apply Hf. by exists f.
Qed.

Lemma ReadBuild_running_witness :
  ∃ started,
    FromSc started ∈ [FromFc example_running; FromSc example_started]
    ∧ ReadBuild range_any 1000000 "logs/job/7/"
        ([FromFc example_running; FromSc example_started]
           ++ [FromEc (Some "could not parse junit_01.xml"%string)])
        CtxDone example_junit_rows
      = Some (inr (Column.mk (path.Base "logs/job/7/")
                     (Started.Timestamp started) 0 false
                     {[ "Overall"%string :=
                          [Column_Overall 1000000
                             (Column.mk (path.Base "logs/job/7/")
                                (Started.Timestamp started) 0 false ∅ ∅)] ]}
                     ∅)).
Proof.
  apply (proj1 (ReadBuild_running range_any 1000000 "logs/job/7/"
                  ([FromFc example_running; FromSc example_started]
                     ++ [FromEc (Some "could not parse junit_01.xml"%string)])
                  CtxDone example_junit_rows
                  ltac:(intros f Hf; simpl in Hf;
                        apply elem_of_cons in Hf as [[= ->]|Hf]; [reflexivity|];
                        apply elem_of_cons in Hf as [[=]|Hf];
                        apply list_elem_of_singleton in Hf; discriminate Hf))
           [FromFc example_running; FromSc example_started]
           [FromEc (Some "could not parse junit_01.xml"%string)] eq_refl).
  - intros err Herr. apply elem_of_cons in Herr as [[=]|Herr].
    apply list_elem_of_singleton in Herr. discriminate Herr.
  - exists example_started. right. by left.
  - exists example_running. by left.
Defined.

(** [finished.json] and [started.json] are both absent: the reader of
    [finished.json] sends the running sentinel, the reader of
    [started.json] reports that the build has not started, and [ReadBuild]
    returns that error and no column. *)
Lemma ReadBuild_running_not_started :
  finished_absent
    [FromFc example_running; FromEc (Some "build has not started"%string)]
  ∧ ReadBuild range_any 1000000 "logs/job/7/"
      [FromFc example_running; FromEc (Some "build has not started"%string)]
      (Ec None) example_junit_rows
    = Some (inl (FailedToRead "build has not started"))
  ∧ ¬ ∃ col,
        ReadBuild range_any 1000000 "logs/job/7/"
          [FromFc example_running; FromEc (Some "build has not started"%string)]
          (Ec None) example_junit_rows
        = Some (inr col).
Proof.
  split; [|split].
  - intros f Hf. apply elem_of_cons in Hf as [[= ->]|Hf]; [reflexivity|].
    apply list_elem_of_singleton in Hf. discriminate Hf.
  - reflexivity.
  - intros [col Hcol]. discriminate Hcol.
Qed.

(** ** [net/url] on bytes that need no escaping *)

Lemma all_bytes_cons P c s :
  url.all_bytes P (String c s) = P c && url.all_bytes P s.
Proof. reflexivity. Qed.

Lemma all_bytes_app P s1 s2 :
  url.all_bytes P (s1 +:+ s2) = url.all_bytes P s1 && url.all_bytes P s2.
Proof. unfold url.all_bytes. by rewrite bytes_app, forallb_app. Qed.

(** A byte that fails [P] does not occur in a string whose bytes pass. *)
Lemma all_bytes_not_in P s c :
  url.all_bytes P s = true → P c = false → c ∉ list_ascii_of_string s.
Proof.
  unfold url.all_bytes. rewrite forallb_forall.
  intros Hall Hc Hin%list_elem_of_In. apply Hall in Hin. congruence.
Qed.


Lemma Count_char_zero s c :
  c ∉ list_ascii_of_string s → url.Count s c = 0.
Proof.
  induction s as [|a s IH]; intros Hs; [done|].
  simpl in Hs. apply not_elem_of_cons in Hs as [Hne Hs].
  cbn [url.Count]. rewrite IH by done.
  destruct (Ascii.eqb_spec a c); [congruence | done].
Qed.

Lemma Contains_char_false s c :
  c ∉ list_ascii_of_string s → strings.Contains s (String c "") = false.
Proof.
  intros Hs. unfold strings.Contains. rewrite (Index_char_None s c Hs).
  apply bool_decide_eq_false_2. by intros [? ?].
Qed.

Lemma shouldEscape_percent mode : url.shouldEscape "%" mode = true.
Proof. by destruct mode. Qed.









(** ** [url.Parse] and [URL.String] on plain gs:// URLs *)



Lemma split_none s c cutc :
  c ∉ list_ascii_of_string s → url.split s (String c "") cutc = (s, ""%string).
Proof. intros Hs. unfold url.split. by rewrite (Index_char_None s c Hs). Qed.








Lemma unescape_nonempty s mode t :
  url.unescape s mode = Some t → s ≠ ""%string → t ≠ ""%string.
Proof.
  destruct s as [|c s]; [done|]. intros Ht _. cbn [url.unescape] in Ht.
  repeat (match type of Ht with
          | (if ?b then _ else _) = _ => destruct b
          | match ?x with _ => _ end = _ => destruct x
          end; try discriminate Ht);
    by apply fmap_Some in Ht as (? & _ & ->).
Qed.





(** ** Cutting a string at a byte *)

Lemma bytes_inj s1 s2 :
  list_ascii_of_string s1 = list_ascii_of_string s2 → s1 = s2.
Proof.
  intros Heq. rewrite <- (string_of_list_ascii_of_string s1).
  rewrite Heq. apply string_of_list_ascii_of_string.
Qed.

Lemma string_app_inv_tail s1 s2 t : s1 +:+ t = s2 +:+ t → s1 = s2.
Proof.
  intros Heq%(f_equal list_ascii_of_string). rewrite !bytes_app in Heq.
  apply app_inv_tail in Heq. by apply bytes_inj.
Qed.

(** A byte is absent from a string, or has a first occurrence in it. *)
Lemma first_byte s c :
  c ∉ list_ascii_of_string s
  ∨ ∃ pre post, s = pre +:+ String c post ∧ c ∉ list_ascii_of_string pre.
Proof.
  induction s as [|a s IH]; [left; apply not_elem_of_nil|].
  destruct (decide (a = c)) as [->|Hne].
  { right. exists ""%string, s. split; [done | apply not_elem_of_nil]. }
  destruct IH as [Hs|(pre & post & -> & Hpre)].
  - left. simpl. by apply not_elem_of_cons.
  - right. exists (String a pre), post. split; [done|].
    simpl. apply not_elem_of_cons. split; [congruence | done].
Qed.

(** Two cuts of a string at the first occurrence of a byte agree. *)
Lemma cut_unique c a b a' b' :
  c ∉ list_ascii_of_string a → c ∉ list_ascii_of_string a' →
  (b = ""%string ∨ ∃ t, b = String c t) →
  (b' = ""%string ∨ ∃ t, b' = String c t) →
  a +:+ b = a' +:+ b' → a = a' ∧ b = b'.
Proof.
  revert a'. induction a as [|x a IH]; intros a' Ha Ha' Hb Hb' Heq.
  - destruct a' as [|x' a']; [done|]. exfalso.
    simpl in Ha'. apply not_elem_of_cons in Ha' as [Hne _].
    rewrite string_app_nil_l, string_app_cons in Heq.
    destruct Hb as [->|[t ->]]; [done|]. injection Heq as Hx _. congruence.
  - simpl in Ha. apply not_elem_of_cons in Ha as [Hne Ha].
    destruct a' as [|x' a'].
    + exfalso. rewrite string_app_nil_l, string_app_cons in Heq.
      destruct Hb' as [->|[t ->]]; [done|]. injection Heq as Hx _. congruence.
    + simpl in Ha'. apply not_elem_of_cons in Ha' as [_ Ha'].
      rewrite !string_app_cons in Heq. injection Heq as -> Heq.
      destruct (IH a' Ha Ha' Hb Hb' Heq) as [-> ->]. done.
Qed.

Lemma split_first pre c post cutc :
  c ∉ list_ascii_of_string pre →
  url.split (pre +:+ String c post) (String c "") cutc
  = (pre, if cutc then post else String c post).
Proof.
  intros Hpre. unfold url.split. rewrite (Index_char_app pre c post Hpre).
  rewrite slice_to_app. destruct cutc.
  - replace (String.length pre + String.length (String c ""))
      with (String.length (pre +:+ String c "")) by (by rewrite string_length_app).
    change (String c post) with (String c "" +:+ post).
    by rewrite <- string_app_assoc, slice_from_app.
  - by rewrite slice_from_app.
Qed.

Lemma Count_app s1 s2 c :
  url.Count (s1 +:+ s2) c = url.Count s1 c + url.Count s2 c.
Proof.
  induction s1 as [|a s1 IH]; [done|].
  rewrite string_app_cons. cbn [url.Count]. rewrite IH. lia.
Qed.

Lemma Count_char_pos s c :
  c ∈ list_ascii_of_string s → url.Count s c ≠ 0.
Proof.
  induction s as [|a s IH]; [by intros ?%elem_of_nil|].
  simpl. intros [->|Hin]%elem_of_cons.
  - by rewrite Ascii.eqb_refl.
  - apply IH in Hin. lia.
Qed.

Lemma HasSuffix_char s c :
  url.HasSuffix s (String c "") = true → ∃ s1, s = s1 +:+ String c "".
Proof.
  unfold url.HasSuffix. intros [Hlen Hcut]%andb_prop.
  apply bool_decide_eq_true in Hlen, Hcut. simpl in Hlen.
  destruct (slice_split (String.length s - 1) s) as (s1 & s2 & Hs & _ & _ & Hfrom);
    [lia|].
  exists s1. simpl in Hcut. by rewrite <- Hcut, Hfrom.
Qed.

Lemma HasSuffix_app s c : url.HasSuffix (s +:+ String c "") (String c "") = true.
Proof.
  unfold url.HasSuffix. rewrite string_length_app. simpl.
  rewrite bool_decide_eq_true_2 by lia.
  replace (String.length s + 1 - 1) with (String.length s) by lia.
  rewrite slice_from_app. by rewrite bool_decide_eq_true_2.
Qed.

(** What [parse] does with the end of the URL: a single question mark at
    the very end is cut off and remembered; otherwise the query is what
    follows the first question mark. When no query comes out, nothing but
    that question mark was cut off. *)
Lemma query_cut rest r q f :
  (if url.HasSuffix rest "?" && bool_decide (url.Count rest "?" = 1)
   then (Go.slice_to (String.length rest - 1) rest, ""%string, true)
   else let '(r, q) := url.split rest "?" true in (r, q, false)) = (r, q, f) →
  q = ""%string →
  ("?"%char ∉ list_ascii_of_string r)
  ∧ rest = r +:+ (if f then "?" else "")%string.
Proof.
  destruct (first_byte rest "?") as [Hrest|(pre & post & -> & Hpre)].
  - rewrite (Count_char_zero rest "?" Hrest), andb_false_r.
    rewrite (split_none rest "?" true Hrest). intros [= <- <- <-] _.
    by rewrite string_app_nil_r.
  - destruct post as [|a post].
    + rewrite HasSuffix_app, Count_app, (Count_char_zero pre "?" Hpre).
      cbn [url.Count andb]. rewrite Ascii.eqb_refl. cbn [bool_decide].
      rewrite bool_decide_eq_true_2 by done.
      rewrite string_length_app. simpl.
      replace (String.length pre + 1 - 1) with (String.length pre) by lia.
      rewrite slice_to_app. by intros [= <- <- <-] _.
    + destruct (url.HasSuffix (pre +:+ String "?" (String a post)) "?"
                && bool_decide (url.Count (pre +:+ String "?" (String a post)) "?" = 1))
        eqn:Hcond.
      * exfalso. apply andb_prop in Hcond as [Hsuffix Hcount].
        apply bool_decide_eq_true in Hcount.
        rewrite Count_app, (Count_char_zero pre "?" Hpre) in Hcount.
        cbn [url.Count] in Hcount. rewrite Ascii.eqb_refl in Hcount.
        apply HasSuffix_char in Hsuffix as [s1 Hs1].
        apply (Count_char_pos (String a post) "?"); [|simpl in *; lia].
        apply (f_equal list_ascii_of_string) in Hs1.
        change (String "?" (String a post))
          with ("?" +:+ String a post)%string in Hs1.
        rewrite <- string_app_assoc in Hs1. rewrite !bytes_app in Hs1.
        apply (f_equal last) in Hs1.
        change (list_ascii_of_string (String "?" ""))
          with ["?"%char] in Hs1.
        rewrite last_snoc in Hs1.
        change (list_ascii_of_string (String a post))
          with (a :: list_ascii_of_string post) in Hs1.
        rewrite last_app_cons in Hs1. rewrite last_cons in Hs1.
        destruct (last (list_ascii_of_string post)) as [x|] eqn:Hlast.
        -- injection Hs1 as ->. apply last_Some in Hlast as [l Hl].
           simpl. rewrite Hl. apply elem_of_cons. right.
           apply elem_of_app. right. by left.
        -- injection Hs1 as ->. simpl. by left.
      * rewrite (split_first pre "?" (String a post) true Hpre).
        by intros [= <- <- <-] [=].
Qed.

(** ** What [url.Parse] has read when [Set] accepts *)

Lemma prefix_inv p s : String.prefix p s = true → ∃ t, s = p +:+ t.
Proof.
  revert s. induction p as [|a p IH]; intros s Hs; [by exists s|].
  destruct s as [|b s]; [done|]. simpl in Hs.
  destruct (ascii_dec a b) as [->|]; [|done].
  destruct (IH s Hs) as [t ->]. by exists t.
Qed.

Lemma getscheme_from_inv s :
  ∀ pre scheme rest,
    url.getscheme_from (pre +:+ s) (String.length pre) s = Some (scheme, rest) →
    scheme ≠ ""%string →
    ∃ mid, s = mid +:+ String ":" rest ∧ scheme = pre +:+ mid.
Proof.
  induction s as [|c s IH]; intros pre scheme rest Hget Hscheme;
    cbn [url.getscheme_from] in Hget.
  { injection Hget as <- _. done. }
  assert (url.getscheme_from (pre +:+ String c s) (S (String.length pre)) s
          = Some (scheme, rest) →
          ∃ mid, String c s = mid +:+ String ":" rest ∧ scheme = pre +:+ mid)
    as Hnext.
  { intros Hrec.
    destruct (IH (pre +:+ String c "") scheme rest) as (mid & -> & ->);
      [|done|].
    - rewrite string_app_assoc, string_length_app. simpl.
      by rewrite Nat.add_1_r.
    - exists (String c mid). by rewrite string_app_assoc. }
  destruct (url.is_alpha c); [by apply Hnext|].
  destruct (url.is_digit c || url.one_of "+-." c).
  { destruct (decide (String.length pre = 0)); [|by apply Hnext].
    injection Hget as <- _. done. }
  destruct (Ascii.eqb_spec c ":") as [->|_].
  - destruct (decide (String.length pre = 0)); [done|].
    injection Hget as <- <-. exists ""%string.
    by rewrite slice_to_app, string_app_nil_r.
  - injection Hget as <- _. done.
Qed.

Lemma getscheme_inv rawurl scheme rest :
  url.getscheme rawurl = Some (scheme, rest) → scheme ≠ ""%string →
  rawurl = scheme +:+ String ":" rest.
Proof.
  intros Hget Hscheme.
  destruct (getscheme_from_inv rawurl ""%string scheme rest Hget Hscheme)
    as (mid & -> & ->).
  done.
Qed.

Lemma ToLower_gs scheme :
  url.ToLower scheme = "gs"%string →
  ∃ a b, scheme = String a (String b "").
Proof.
  destruct scheme as [|a [|b [|c scheme]]]; try done. intros _. by exists a, b.
Qed.

(** The URL that [Set] stores. *)
Lemma Set_nil g v g' :
  gcsPath.Set_ g v = (g', None) →
  ∃ u, url.Parse v = Some u ∧ g' = gcsPath.mk u
       ∧ url.Scheme u = "gs"%string
       ∧ url.Opaque u = ""%string
       ∧ url.User u = None
       ∧ url.RawQuery u = ""%string
       ∧ url.Fragment u = ""%string.
Proof.
  unfold gcsPath.Set_. destruct (url.Parse v) as [u|]; [|done].
  destruct (decide (url.Scheme u ≠ "gs"%string)) as [|Hs]; [done|].
  destruct (strings.Contains (url.Host u) ":"); [done|].
  destruct (decide (url.Opaque u ≠ ""%string)) as [|Ho]; [done|].
  destruct (decide (url.User u ≠ None)) as [|Hu]; [done|].
  destruct (decide (url.RawQuery u ≠ ""%string)) as [|Hq]; [done|].
  destruct (decide (url.Fragment u ≠ ""%string)) as [|Hf]; [done|].
  intros [= <-]. exists u. repeat split; by apply dec_stable.
Qed.

Lemma parseAuthority_no_user authority host :
  url.parseAuthority authority = Some (None, host) →
  url.parseHost authority = Some host.
Proof.
  unfold url.parseAuthority.
  destruct (url.LastIndex authority "@") as [i|].
  - destruct (url.parseHost _); [|done]. cbn [mbind option_bind].
    destruct (negb (url.validUserinfo _)); [done|].
    destruct (negb (strings.Contains _ ":")).
    + destruct (url.unescape _ _); done.
    + destruct (url.split _ _ _) as [username password].
      destruct (url.unescape username _); [|done]. cbn [mbind option_bind].
      destruct (url.unescape password _); done.
  - destruct (url.parseHost authority); [|done]. by intros [= ->].
Qed.

Lemma parse_gs u0 u :
  url.parse u0 = Some u →
  url.Scheme u = "gs"%string → url.Opaque u = ""%string →
  url.User u = None → url.RawQuery u = ""%string →
  ∃ scheme rest,
    u0 = scheme +:+ String ":" rest +:+ (if url.ForceQuery u then "?" else "")%string
    ∧ url.ToLower scheme = "gs"%string
    ∧ ("?"%char ∉ list_ascii_of_string rest)
    ∧ gs_parts rest (url.Host u) (url.Path u) (url.RawPath u).
Proof.
  intros Hparse Hs Ho Hu Hq. unfold url.parse in Hparse.
  destruct (decide (u0 = "*"%string)) as [_|_].
  { injection Hparse as <-. discriminate Hs. }
  destruct (url.getscheme u0) as [[scheme rest0]|] eqn:Hget; [|done].
  cbn [mbind option_bind] in Hparse.
  destruct (if url.HasSuffix rest0 "?" && bool_decide (url.Count rest0 "?" = 1)
            then (Go.slice_to (String.length rest0 - 1) rest0, ""%string, true)
            else let '(r, q) := url.split rest0 "?" true in (r, q, false))
    as [[r q] f] eqn:Hcut.
  assert (url.ToLower scheme = "gs"%string → q = ""%string →
          u0 = scheme +:+ String ":" r +:+ (if f then "?" else "")%string
          ∧ ("?"%char ∉ list_ascii_of_string r)) as Hu0.
  { intros Hlower ->. destruct (query_cut rest0 r ""%string f Hcut eq_refl)
      as [Hr Hrest0].
    split; [|done]. rewrite (getscheme_inv u0 scheme rest0 Hget).
    - by rewrite Hrest0.
    - intros ->. discriminate Hlower. }
  destruct (strings.HasPrefix r "/") eqn:Hslash; cbn [negb andb] in Hparse.
  2:{ destruct (bool_decide (url.ToLower scheme = ""%string)) eqn:Hempty;
        cbn [negb] in Hparse.
      - apply bool_decide_eq_true in Hempty.
        destruct (url.first_segment_has_colon r); [done|].
        match type of Hparse with
        | ?m ≫= _ = _ => destruct m as [[[user host] rest1]|]; [|done]
        end.
        cbn [mbind option_bind] in Hparse.
        destruct (url.setPath rest1) as [[path rawPath]|]; [|done].
        injection Hparse as <-. simpl in Hs. congruence.
      - injection Hparse as <-. simpl in *. subst r q.
        destruct (Hu0 Hs eq_refl) as [-> _].
        exists scheme, ""%string. split; [done|]. split; [done|].
        split; [apply not_elem_of_nil|]. by left. }
  destruct ((negb (bool_decide (url.ToLower scheme = ""%string))
             || negb (strings.HasPrefix r "///")) && strings.HasPrefix r "//")
    eqn:Hauth.
  - apply andb_prop in Hauth as [_ Hauth].
    apply prefix_inv in Hauth as [x ->].
    change (Go.slice_from 2 ("//" +:+ x))
      with (Go.slice_from (String.length "//") ("//" +:+ x)) in Hparse.
    rewrite slice_from_app in Hparse.
    destruct (url.split x "/" false) as [authority rest'] eqn:Hsplit.
    destruct (url.parseAuthority authority) as [[user host]|] eqn:Hauthority;
      [|done].
    cbn [mbind option_bind] in Hparse.
    destruct (url.setPath rest') as [[path rawPath]|] eqn:Hpath; [|done].
    injection Hparse as <-. simpl in *. subst user q.
    destruct (Hu0 Hs eq_refl) as [-> Hr].
    exists scheme, ("//" +:+ x)%string. split; [done|]. split; [done|].
    split; [done|]. right. right. exists authority, rest'.
    apply parseAuthority_no_user in Hauthority.
    destruct (first_byte x "/") as [Hx|(pre & post & -> & Hpre)].
    + rewrite (split_none x "/" false Hx) in Hsplit. injection Hsplit as <- <-.
      rewrite string_app_nil_r. split; [done|]. split; [done|].
      split; [by left | done].
    + rewrite (split_first pre "/" post false Hpre) in Hsplit.
      injection Hsplit as <- <-. split; [done|]. split; [done|].
      split; [right; by exists post | done].
  - cbn [mbind option_bind] in Hparse.
    destruct (url.setPath r) as [[path rawPath]|] eqn:Hpath; [|done].
    injection Hparse as <-. simpl in *. subst q.
    destruct (Hu0 Hs eq_refl) as [-> Hr].
    exists scheme, r. split; [done|]. split; [done|]. split; [done|].
    right. left. rewrite Hs in Hauth. cbn [bool_decide negb orb andb] in Hauth.
    apply prefix_inv in Hslash as [r1 ->]. exists r1.
    split; [done|]. split; [|done].
    unfold strings.HasPrefix in *. rewrite prefix_char.
    destruct r1 as [|a r1]; [done|]. apply bool_decide_eq_false_2. intros <-.
    simpl in Hauth. by destruct r1.
Qed.

Lemma Set_gs g v g' :
  gcsPath.Set_ g v = (g', None) →
  ∃ scheme rest host path rawPath forceQuery hash,
    g' = gcsPath.mk (url.mkURL "gs" "" None host path rawPath forceQuery "" "")
    ∧ v = scheme +:+ String ":" rest
            +:+ (if forceQuery then "?" else "")%string +:+ hash
    ∧ url.ToLower scheme = "gs"%string
    ∧ (hash = ""%string ∨ hash = "#"%string)
    ∧ ("?"%char ∉ list_ascii_of_string rest)
    ∧ ("#"%char ∉ list_ascii_of_string rest)
    ∧ gs_parts rest host path rawPath.
Proof.
  intros (u & HParse & -> & Hs & Ho & Hu & Hq & Hf)%Set_nil.
  assert (∀ u0 hash,
            v = u0 +:+ hash → (hash = ""%string ∨ hash = "#"%string) →
            ("#"%char ∉ list_ascii_of_string u0) →
            url.parse u0 = Some u →
            ∃ scheme rest host path rawPath forceQuery hash,
              gcsPath.mk u
              = gcsPath.mk (url.mkURL "gs" "" None host path rawPath forceQuery "" "")
              ∧ v = scheme +:+ String ":" rest
                      +:+ (if forceQuery then "?" else "")%string +:+ hash
              ∧ url.ToLower scheme = "gs"%string
              ∧ (hash = ""%string ∨ hash = "#"%string)
              ∧ ("?"%char ∉ list_ascii_of_string rest)
              ∧ ("#"%char ∉ list_ascii_of_string rest)
              ∧ gs_parts rest host path rawPath) as Hparts.
  { intros u0 hash -> Hhash Hu0 Hparse.
    destruct (parse_gs u0 u Hparse Hs Ho Hu Hq)
      as (scheme & rest & -> & Hlower & Hrest & Hparts).
    exists scheme, rest, (url.Host u), (url.Path u), (url.RawPath u),
      (url.ForceQuery u), hash.
    split; [destruct u; simpl in *; by subst|].
    split; [by rewrite !string_app_assoc|]. split; [done|]. split; [done|].
    split; [done|]. split; [|done].
    rewrite bytes_app in Hu0. apply not_elem_of_app in Hu0 as [_ Hu0].
    change (String ":" rest +:+ (if url.ForceQuery u then "?" else ""))%string
      with (String ":" (rest +:+ (if url.ForceQuery u then "?" else "")))%string
      in Hu0.
    simpl in Hu0. apply not_elem_of_cons in Hu0 as [_ Hu0].
    rewrite bytes_app in Hu0. by apply not_elem_of_app in Hu0 as [Hu0 _]. }
  unfold url.Parse in HParse.
  destruct (first_byte v "#") as [Hv|(pre & post & -> & Hpre)].
  - rewrite (split_none v "#" true Hv) in HParse.
    destruct (url.parse v) as [url|] eqn:Hparse; [|done].
    cbn [mbind option_bind] in HParse. rewrite decide_True in HParse by done.
    injection HParse as ->.
    apply (Hparts v ""%string); [by rewrite string_app_nil_r | by left | done..].
  - rewrite (split_first pre "#" post true Hpre) in HParse.
    destruct (url.parse pre) as [url|] eqn:Hparse; [|done].
    cbn [mbind option_bind] in HParse.
    destruct (decide (post = ""%string)) as [->|Hpost].
    + injection HParse as ->. apply (Hparts pre "#"%string); [done | by right | done..].
    + destruct (url.unescape post url.encodeFragment) as [fragment|] eqn:Hfragment;
        [|done].
      injection HParse as <-. simpl in Hf. subst fragment.
      by apply unescape_nonempty in Hfragment.
Qed.

(** ** What [escape] writes *)

Lemma hexdigit_upper n : (n < 16)%N → upper_hex (url.hexdigit n) = true.
Proof.
  intros Hn. assert (n ∈ (N.of_nat <$> seq 0 16)) as Hin.
  { apply list_elem_of_fmap. exists (N.to_nat n). split; [lia|].
    apply elem_of_seq. lia. }
  vm_compute in Hin. repeat (apply elem_of_cons in Hin as [->|Hin]; [done|]).
  by apply elem_of_nil in Hin.
Qed.

Lemma hexdigit_unhex n : (n < 16)%N → url.unhex (url.hexdigit n) = n.
Proof.
  intros Hn. assert (n ∈ (N.of_nat <$> seq 0 16)) as Hin.
  { apply list_elem_of_fmap. exists (N.to_nat n). split; [lia|].
    apply elem_of_seq. lia. }
  vm_compute in Hin. repeat (apply elem_of_cons in Hin as [->|Hin]; [done|]).
  by apply elem_of_nil in Hin.
Qed.

Lemma upper_hex_hexdigit a :
  upper_hex a = true → (url.unhex a < 16)%N ∧ url.hexdigit (url.unhex a) = a.
Proof.
  destruct a as [[] [] [] [] [] [] [] []]; vm_compute; (discriminate || (intros _; split; reflexivity)).
Qed.

Lemma upper_hex_plain a mode : upper_hex a = true → url.shouldEscape a mode = false.
Proof.
  destruct a as [[] [] [] [] [] [] [] []]; vm_compute; (discriminate || (intros _; reflexivity)).
Qed.

Lemma code_lt c : (url.code c < 256)%N.
Proof. apply N_ascii_bounded. Qed.

(** The byte that "%XY" stands for is written back as "%XY". *)
Lemma unhex_hexdigit a b :
  upper_hex a = true → upper_hex b = true →
  url.hexdigit (url.code (ascii_of_N (url.unhex a * 16 + url.unhex b)) / 16) = a
  ∧ url.hexdigit (url.code (ascii_of_N (url.unhex a * 16 + url.unhex b)) mod 16) = b.
Proof.
  intros [Ha Ha']%upper_hex_hexdigit [Hb Hb']%upper_hex_hexdigit.
  unfold url.code. rewrite N_ascii_embedding by lia.
  replace ((url.unhex a * 16 + url.unhex b) / 16)%N with (url.unhex a).
  2:{ apply (N.div_unique _ 16 _ (url.unhex b)); lia. }
  replace ((url.unhex a * 16 + url.unhex b) mod 16)%N with (url.unhex b).
  2:{ apply (N.mod_unique _ 16 (url.unhex a)); lia. }
  done.
Qed.

(** "%XY" as [escape] writes it stands for the byte it was written for. *)
Lemma hexdigit_code c :
  ascii_of_N (url.unhex (url.hexdigit (url.code c / 16)) * 16
              + url.unhex (url.hexdigit (url.code c mod 16))) = c.
Proof.
  pose proof (code_lt c) as Hc.
  rewrite !hexdigit_unhex.
  - rewrite N.mul_comm, <- N.div_mod by done. apply ascii_N_embedding.
  - apply N.mod_lt. done.
  - apply N.Div0.div_lt_upper_bound. lia.
Qed.

Lemma escape_escaped s mode :
  mode ≠ url.encodeQueryComponent → escaped (url.escape s mode) mode = true.
Proof.
  intros Hmode. induction s as [|c s IH]; [done|]. cbn [url.escape].
  rewrite (bool_decide_eq_false_2 _ Hmode), andb_false_r.
  pose proof (code_lt c) as Hc.
  destruct (url.shouldEscape c mode) eqn:Hescape.
  - cbn [escaped]. rewrite Ascii.eqb_refl, hexdigit_code, Hescape, IH.
    rewrite !hexdigit_upper; [done | by apply N.mod_lt |].
    apply N.Div0.div_lt_upper_bound. lia.
  - cbn [escaped]. rewrite Hescape, IH.
    destruct (Ascii.eqb_spec c "%") as [->|_]; [|done].
    by rewrite shouldEscape_percent in Hescape.
Qed.

(** A byte that needs escaping is not written as it is. *)
Lemma escaped_not_in s mode c :
  escaped s mode = true → url.shouldEscape c mode = true → c ≠ "%"%char →
  c ∉ list_ascii_of_string s.
Proof.
  intros Hs Hc Hpercent.
  assert (∀ n s, String.length s ≤ n → escaped s mode = true →
                 c ∉ list_ascii_of_string s) as Hlen.
  { clear s Hs. induction n as [|n IH]; intros s Hn Hs.
    { destruct s; [apply not_elem_of_nil | simpl in Hn; lia]. }
    destruct s as [|x s]; [apply not_elem_of_nil|]. cbn [escaped] in Hs.
    destruct (Ascii.eqb_spec x "%") as [->|_].
    - destruct s as [|a [|b s]]; [done..|].
      apply andb_prop in Hs as [[[Ha Hb]%andb_prop _]%andb_prop Hs].
      simpl. rewrite !not_elem_of_cons. split; [done|].
      split; [intros ->; by rewrite (upper_hex_plain a mode Ha) in Hc|].
      split; [intros ->; by rewrite (upper_hex_plain b mode Hb) in Hc|].
      apply IH; [simpl in Hn; lia | done].
    - apply andb_prop in Hs as [Hx%negb_true_iff Hs].
      simpl. rewrite not_elem_of_cons. split; [congruence|].
      apply IH; [simpl in Hn; lia | done]. }
  by apply (Hlen (String.length s)).
Qed.

Lemma escape_not_in s mode c :
  mode ≠ url.encodeQueryComponent →
  url.shouldEscape c mode = true → c ≠ "%"%char →
  c ∉ list_ascii_of_string (url.escape s mode).
Proof. intros Hmode. apply escaped_not_in. by apply escape_escaped. Qed.

Lemma escape_app s1 s2 mode :
  url.escape (s1 +:+ s2) mode = url.escape s1 mode +:+ url.escape s2 mode.
Proof.
  induction s1 as [|c s1 IH]; [done|]. rewrite string_app_cons.
  cbn [url.escape]. rewrite IH.
  by destruct (Ascii.eqb c " " && bool_decide (mode = url.encodeQueryComponent)),
    (url.shouldEscape c mode).
Qed.

Lemma validEncodedPath_escape p :
  url.validEncodedPath (url.escape p url.encodePath) = true.
Proof.
  unfold url.validEncodedPath. induction p as [|c p IH]; [done|].
  cbn [url.escape]. cbn [bool_decide andb]. rewrite andb_false_r.
  pose proof (code_lt c) as Hc.
  destruct (url.shouldEscape c url.encodePath) eqn:Hescape.
  - rewrite !all_bytes_cons, IH.
    rewrite (upper_hex_plain (url.hexdigit (url.code c / 16)) url.encodePath).
    2:{ apply hexdigit_upper, N.Div0.div_lt_upper_bound. lia. }
    rewrite (upper_hex_plain (url.hexdigit (url.code c mod 16)) url.encodePath).
    2:{ by apply hexdigit_upper, N.mod_lt. }
    by rewrite !orb_true_r.
  - by rewrite all_bytes_cons, IH, Hescape, orb_true_r.
Qed.

(** [unescape] reads back what [escape] has written for a host. *)
Lemma unescape_escaped s mode h :
  mode ≠ url.encodeQueryComponent →
  escaped s url.encodeHost = true → url.unescape s mode = Some h →
  url.escape h url.encodeHost = s.
Proof.
  intros Hmode Hs Hh.
  assert (∀ n s h, String.length s ≤ n →
                   escaped s url.encodeHost = true → url.unescape s mode = Some h →
                   url.escape h url.encodeHost = s) as Hlen.
  { clear s h Hs Hh. induction n as [|n IH]; intros s h Hn Hs Hh.
    { destruct s; [by injection Hh as <- | simpl in Hn; lia]. }
    destruct s as [|x s]; [by injection Hh as <-|].
    cbn [escaped] in Hs. cbn [url.unescape] in Hh.
    destruct (Ascii.eqb_spec x "%") as [->|Hx].
    - destruct s as [|a [|b s]]; [done..|].
      apply andb_prop in Hs as [[[Ha Hb]%andb_prop Hv]%andb_prop Hs].
      destruct (negb (url.ishex a && url.ishex b)); [done|].
      destruct (bool_decide (mode = url.encodeHost) && _ && _); [done|].
      destruct (bool_decide (mode = url.encodeZone) && _ && _ && _); [done|].
      apply fmap_Some in Hh as (h' & Hh' & ->).
      cbn [url.escape]. cbn [bool_decide andb]. rewrite andb_false_r, Hv.
      destruct (unhex_hexdigit a b Ha Hb) as [-> ->].
      rewrite (IH s h'); [done | simpl in Hn; lia | done..].
    - apply andb_prop in Hs as [Hplain%negb_true_iff Hs].
      assert (url.escape (String x s) url.encodeHost = String x s → ∀ h',
              url.unescape s mode = Some h' →
              url.escape (String x h') url.encodeHost = String x s) as Hstep.
      { intros _ h' Hh'. cbn [url.escape]. cbn [bool_decide andb].
        rewrite andb_false_r, Hplain.
        rewrite (IH s h'); [done | simpl in Hn; lia | done..]. }
      destruct (Ascii.eqb_spec x "+") as [->|_].
      + rewrite (bool_decide_eq_false_2 _ Hmode) in Hh.
        apply fmap_Some in Hh as (h' & Hh' & ->).
        cbn [url.escape]. cbn [bool_decide andb]. rewrite Hplain.
        rewrite (IH s h'); [done | simpl in Hn; lia | done..].
      + destruct (bool_decide _ && _ && _); [done|].
        apply fmap_Some in Hh as (h' & Hh' & ->).
        cbn [url.escape]. cbn [bool_decide andb]. rewrite andb_false_r, Hplain.
        rewrite (IH s h'); [done | simpl in Hn; lia | done..]. }
  by apply (Hlen (String.length s)).
Qed.

Lemma escaped_app_inv s1 s2 mode h1 m :
  escaped (s1 +:+ s2) m = true → url.unescape s1 mode = Some h1 →
  escaped s1 m = true ∧ escaped s2 m = true.
Proof.
  intros Hs Hh.
  assert (∀ n s1 h1, String.length s1 ≤ n →
                     escaped (s1 +:+ s2) m = true → url.unescape s1 mode = Some h1 →
                     escaped s1 m = true ∧ escaped s2 m = true) as Hlen.
  { clear s1 h1 Hs Hh. induction n as [|n IH]; intros s1 h1 Hn Hs Hh.
    { destruct s1; [done | simpl in Hn; lia]. }
    destruct s1 as [|x s1]; [done|].
    rewrite string_app_cons in Hs. cbn [escaped] in Hs |- *.
    cbn [url.unescape] in Hh.
    destruct (Ascii.eqb_spec x "%") as [->|Hx].
    - destruct s1 as [|a [|b s1]]; [done..|].
      rewrite !string_app_cons in Hs.
      apply andb_prop in Hs as [Hab Hs]. rewrite Hab. cbn [andb].
      destruct (negb (url.ishex a && url.ishex b)); [done|].
      destruct (bool_decide (mode = url.encodeHost) && _ && _); [done|].
      destruct (bool_decide (mode = url.encodeZone) && _ && _ && _); [done|].
      apply fmap_Some in Hh as (h' & Hh' & _).
      apply (IH s1 h'); [simpl in Hn; lia | done..].
    - apply andb_prop in Hs as [Hplain Hs]. rewrite Hplain. cbn [andb].
      destruct (Ascii.eqb x "+").
      + apply fmap_Some in Hh as (h' & Hh' & _).
        apply (IH s1 h'); [simpl in Hn; lia | done..].
      + destruct (bool_decide _ && _ && _); [done|].
        apply fmap_Some in Hh as (h' & Hh' & _).
        apply (IH s1 h'); [simpl in Hn; lia | done..]. }
  by apply (Hlen (String.length s1) s1 h1).
Qed.

Lemma Index_le s sep i : strings.Index s sep = Some i → i ≤ String.length s.
Proof.
  revert i. induction s as [|a s IH]; intros i; cbn [strings.Index].
  - destruct (String.prefix sep ""); [|done]. intros [= <-]. done.
  - destruct (String.prefix sep (String a s)); [intros [= <-]; simpl; lia|].
    intros (j & Hj & ->)%fmap_Some. apply IH in Hj. simpl. lia.
Qed.

Lemma LastIndex_le s sep i : url.LastIndex s sep = Some i → i ≤ String.length s.
Proof.
  revert i. induction s as [|a s IH]; intros i; cbn [url.LastIndex].
  - destruct (String.prefix sep ""); [|done]. intros [= <-]. done.
  - destruct (url.LastIndex s sep) as [j|].
    + intros [= <-]. specialize (IH j eq_refl). simpl. lia.
    + destruct (String.prefix sep (String a s)); [|done].
      intros [= <-]. simpl. lia.
Qed.

(** [s] is [s[:a] + s[a:b] + s[b:]]. *)
Lemma slice_three a b s :
  a ≤ b → b ≤ String.length s →
  s = Go.slice_to a s +:+ substring a (b - a) s +:+ Go.slice_from b s.
Proof.
  intros Hab Hb.
  destruct (slice_split a s) as (s1 & t & Hs & Hlen1 & Hto & _); [lia|].
  assert (String.length s = a + String.length t) as Hlen
    by (by rewrite Hs, string_length_app, Hlen1).
  destruct (slice_split (b - a) t) as (s2 & s3 & Ht & Hlen2 & Hto2 & _); [lia|].
  rewrite Hto. subst s t.
  rewrite <- Hlen1 at 1. rewrite substring_skip.
  change (substring 0 (b - a) (s2 +:+ s3)) with (Go.slice_to (b - a) (s2 +:+ s3)).
  rewrite Hto2.
  replace b with (String.length (s1 +:+ s2)) at 1
    by (rewrite string_length_app; lia).
  by rewrite <- string_app_assoc, slice_from_app, string_app_assoc.
Qed.

(** A host that is written as [escape] writes hosts is written back as it
    was read. *)
Lemma parseHost_escaped s h :
  escaped s url.encodeHost = true → url.parseHost s = Some h →
  url.escape h url.encodeHost = s.
Proof.
  intros Hs. unfold url.parseHost.
  destruct (strings.HasPrefix s "["); [|by apply unescape_escaped].
  destruct (url.LastIndex s "]") as [i|] eqn:Hi; [|done].
  cbn [mbind option_bind].
  destruct (negb (url.validOptionalPort _)); [done|].
  destruct (strings.Index (Go.slice_to i s) "%25") as [zone|] eqn:Hzone;
    [|by apply unescape_escaped].
  destruct (url.unescape (Go.slice_to zone s) url.encodeHost)
    as [host1|] eqn:H1; [|done].
  destruct (url.unescape (substring zone (i - zone) s) url.encodeZone)
    as [host2|] eqn:H2; [|done].
  destruct (url.unescape (Go.slice_from i s) url.encodeHost)
    as [host3|] eqn:H3; [|done].
  cbn [mbind option_bind]. intros [= <-].
  apply LastIndex_le in Hi. apply Index_le in Hzone.
  destruct (slice_split i s) as (s1 & _ & _ & Hlen & Hto & _); [done|].
  rewrite Hto, Hlen in Hzone.
  rewrite (slice_three zone i s) in Hs by done.
  destruct (escaped_app_inv _ _ _ _ _ Hs H1) as [Hs1 Hs23].
  destruct (escaped_app_inv _ _ _ _ _ Hs23 H2) as [Hs2 Hs3].
  rewrite !escape_app.
  rewrite (unescape_escaped _ url.encodeHost _ ltac:(done) Hs1 H1).
  rewrite (unescape_escaped _ url.encodeZone _ ltac:(done) Hs2 H2).
  rewrite (unescape_escaped _ url.encodeHost _ ltac:(done) Hs3 H3).
  symmetry. by apply slice_three.
Qed.

(** ** What [URL.String] writes for a URL that [Set] has stored *)

Lemma unescape_slash object p :
  url.unescape (String "/" object) url.encodePath = Some p →
  ∃ p', p = String "/" p'.
Proof.
  cbn [url.unescape]. cbn [Ascii.eqb Bool.eqb bool_decide andb].
  rewrite bool_decide_eq_false_2 by (by intros [|]).
  cbn [andb]. intros (p' & _ & ->)%fmap_Some. by exists p'.
Qed.

Lemma escape_slash p' :
  url.escape (String "/" p') url.encodePath
  = String "/" (url.escape p' url.encodePath).
Proof. reflexivity. Qed.

(** The path of a URL with an authority is written back as it was read
    when its bytes are valid in an encoded path, and escaped anew when
    they are not. *)
Lemma EscapedPath_setPath r p rp sch op us h fq rq fr :
  (r = ""%string ∨ ∃ object, r = String "/" object) →
  url.setPath r = Some (p, rp) →
  url.EscapedPath (url.mkURL sch op us h p rp fq rq fr)
  = (if url.validEncodedPath r then r else url.escape p url.encodePath)
  ∧ (url.EscapedPath (url.mkURL sch op us h p rp fq rq fr) = ""%string
     ∨ ∃ object,
         url.EscapedPath (url.mkURL sch op us h p rp fq rq fr) = String "/" object)
  ∧ (r ≠ ""%string → p ≠ ""%string).
Proof.
  intros Hr Hset. unfold url.setPath in Hset.
  destruct (url.unescape r url.encodePath) as [p0|] eqn:Hp; [|done].
  cbn [mbind option_bind] in Hset.
  assert (p0 ≠ "*"%string ∧ (r ≠ ""%string → p0 ≠ ""%string)
          ∧ (url.escape p0 url.encodePath = ""%string
             ∨ ∃ object, url.escape p0 url.encodePath = String "/" object))
    as (Hstar & Hne & Hshape).
  { destruct Hr as [->|[object ->]].
    - injection Hp as <-. split; [done|]. split; [done | by left].
    - apply unescape_slash in Hp as [p' ->]. split; [done|]. split; [done|].
      right. eexists. apply escape_slash. }
  unfold url.EscapedPath. cbn [url.Path url.RawPath].
  destruct (decide (r = url.escape p0 url.encodePath)) as [Heq|Hneq].
  - injection Hset as <- <-. cbn [bool_decide negb andb].
    rewrite decide_False by done.
    rewrite Heq at 1. rewrite validEncodedPath_escape.
    split; [done|]. done.
  - injection Hset as <- <-.
    rewrite (bool_decide_eq_false_2 (r = ""%string)).
    2:{ intros ->. injection Hp as <-. done. }
    rewrite (bool_decide_eq_true_2 _ Hp), andb_true_r. cbn [negb andb].
    rewrite decide_False by done.
    destruct (url.validEncodedPath r); [|done].
    split; [done|]. split; [|done].
    destruct Hr as [->|[object ->]]; [by left | right; by exists object].
Qed.

Lemma String_gs h p rp fq :
  (url.EscapedPath (url.mkURL "gs" "" None h p rp fq "" "") = ""%string
   ∨ ∃ object,
       url.EscapedPath (url.mkURL "gs" "" None h p rp fq "" "") = String "/" object) →
  url.String_ (url.mkURL "gs" "" None h p rp fq "" "")
  = ("gs:" +:+ (if decide (h = "" ∧ p = "") then "" else "//")
       +:+ url.escape h url.encodeHost
       +:+ url.EscapedPath (url.mkURL "gs" "" None h p rp fq "" "")
       +:+ (if fq then "?" else ""))%string.
Proof.
  intros Hshape. unfold url.String_.
  cbn [url.Scheme url.Opaque url.User url.Host url.Path url.RawPath
         url.ForceQuery url.RawQuery url.Fragment].
  set (path := url.EscapedPath _) in *.
  assert (negb (bool_decide (path = ""%string)) && negb (strings.HasPrefix path "/")
          = false) as ->.
  { destruct Hshape as [->|[object ->]]; [done|].
    unfold strings.HasPrefix. rewrite prefix_char.
    by rewrite (bool_decide_eq_true_2 ("/"%char = "/"%char)), andb_false_r. }
  cbn [andb bool_decide negb]. rewrite orb_false_r.
  repeat case_decide; try done; try (exfalso; intuition congruence).
  - destruct fq; by rewrite ?string_app_assoc, ?string_app_nil_r.
  - assert (h = ""%string) as ->
      by (destruct (decide (h = ""%string)); [done | exfalso; tauto]).
    destruct fq; by rewrite ?string_app_assoc, ?string_app_nil_r.
  - assert (h = ""%string) as ->
      by (destruct (decide (h = ""%string)); [done | exfalso; tauto]).
    destruct fq; by rewrite ?string_app_assoc, ?string_app_nil_r.
Qed.

(** ** [Set] and then [String] *)

Lemma validEncodedPath_not_in path c :
  url.validEncodedPath path = true →
  url.one_of "!$&'()*+,;=:@[]%" c || negb (url.shouldEscape c url.encodePath) = false →
  c ∉ list_ascii_of_string path.
Proof.
  apply (all_bytes_not_in
           (λ c, url.one_of "!$&'()*+,;=:@[]%" c
                 || negb (url.shouldEscape c url.encodePath))).
Qed.

(** Neither '?' nor '#' is written in the body of a gs URL. *)
Lemma written_body_not_in body c :
  written_body body → c = "?"%char ∨ c = "#"%char →
  c ∉ list_ascii_of_string body.
Proof.
  intros [->|(bucket & path & -> & _ & Hbucket & _ & Hpath)] Hc;
    [apply not_elem_of_nil|].
  rewrite !bytes_app, !not_elem_of_app. split; [|split].
  - destruct Hc as [->| ->]; by apply not_in_bytes.
  - apply (escaped_not_in bucket url.encodeHost); [done|..];
      by destruct Hc as [->| ->].
  - apply validEncodedPath_not_in; [done|]. by destruct Hc as [->| ->].
Qed.

(** What [URL.String] writes after "gs:" for the URL that [Set] has
    stored, and when that is what [Set] has read. *)
Lemma stored_body rest h p rp fq :
  gs_parts rest h p rp → "#"%char ∉ list_ascii_of_string rest →
  ∃ body,
    url.String_ (url.mkURL "gs" "" None h p rp fq "" "")
    = ("gs:" +:+ body +:+ (if fq then "?" else ""))%string
    ∧ ("#"%char ∉ list_ascii_of_string body)
    ∧ (body = rest ↔ written_body rest).
Proof.
  intros [(-> & -> & -> & ->)|[(r & -> & Hr & -> & Hset)|Hauthority]] Hhash.
  - exists ""%string. rewrite String_gs by (by left).
    split; [done|]. split; [apply not_elem_of_nil|]. split; [by left | done].
  - destruct (EscapedPath_setPath (String "/" r) p rp "gs" "" None "" fq "" "")
      as (Hpath & Hshape & Hp); [right; by exists r | done |].
    exists ("//" +:+ url.EscapedPath (url.mkURL "gs" "" None "" p rp fq "" ""))%string.
    rewrite String_gs by done.
    rewrite decide_False by (intros [_ ?]; by apply Hp).
    split; [done|]. split.
    { rewrite Hpath. destruct (url.validEncodedPath _).
      - simpl in *. rewrite !not_elem_of_cons. apply not_elem_of_cons in Hhash.
        by destruct Hhash.
      - simpl. rewrite !not_elem_of_cons. split; [done|]. split; [done|].
        by apply escape_not_in. }
    unfold strings.HasPrefix in Hr. rewrite prefix_char in Hr. split.
    + intros [= <-]. rewrite string_app_cons in Hr.
      by rewrite bool_decide_eq_true_2 in Hr.
    + intros [[=]|(bucket & path & [= ->] & _)]. rewrite string_app_cons in Hr.
      by rewrite bool_decide_eq_true_2 in Hr.
  - destruct Hauthority
      as (authority & rest' & -> & Hauthority & Hrest' & Hhost & Hset).
    destruct (EscapedPath_setPath rest' p rp "gs" "" None h fq "" "")
      as (Hpath & Hshape & Hp); [done..|].
    set (path := url.EscapedPath _) in *.
    exists ((if decide (h = ""%string ∧ p = ""%string) then "" else "//")
              +:+ url.escape h url.encodeHost +:+ path)%string.
    rewrite String_gs by done. fold path.
    split; [by rewrite !string_app_assoc|].
    rewrite !bytes_app, !not_elem_of_app in Hhash.
    destruct Hhash as (_ & _ & Hhash).
    split.
    { rewrite !bytes_app, !not_elem_of_app. split; [case_decide; by apply not_in_bytes|].
      split; [by apply escape_not_in|]. rewrite Hpath.
      destruct (url.validEncodedPath rest'); [done | by apply escape_not_in]. }
    assert ("/"%char ∉ list_ascii_of_string (url.escape h url.encodeHost))
      as Hslash by by apply escape_not_in.
    split.
    + case_decide as Hempty.
      { destruct Hempty as [-> ->]. cbn [url.escape].
        assert (rest' = ""%string) as ->
          by (destruct rest'; [done|]; exfalso; by apply Hp).
        by rewrite Hpath. }
      intros [= Heq].
      destruct (cut_unique "/" (url.escape h url.encodeHost) path authority rest')
        as [Hh Hpath']; [done..|].
      right. exists authority, rest'. split; [done|]. split; [|split].
      * destruct (decide (authority = ""%string)) as [->|]; [|by left].
        right. intros ->. apply Hempty. unfold url.parseHost in Hhost.
        injection Hhost as <-. unfold url.setPath in Hset. by injection Hset as <- _.
      * unfold written_bucket. rewrite <- Hh. by apply escape_escaped.
      * split; [done|].
        destruct (url.validEncodedPath rest') eqn:Hvalid; [done|].
        by rewrite <- Hpath', Hpath, validEncodedPath_escape in Hvalid.
    + intros [Hnil|(bucket & object_path & [= Heq] & Hne & Hbucket & Hobject)].
      { by destruct authority. }
      destruct (cut_unique "/" authority rest' bucket object_path) as [-> ->];
        [done | | done | by destruct Hobject | done |].
      { by apply (escaped_not_in bucket url.encodeHost). }
      rewrite (parseHost_escaped bucket h Hbucket Hhost).
      destruct Hobject as [_ Hvalid]. rewrite Hvalid in Hpath. rewrite Hpath.
      rewrite decide_False; [done|]. intros [-> ->].
      destruct Hne as [Hne|Hne]; [|by apply Hp in Hne].
      apply Hne. by rewrite <- (parseHost_escaped bucket "" Hbucket Hhost).
Qed.

(** C6, as the code has it. When [Set] accepts a string, [String] returns
    that very string exactly when the string is written as [URL.String]
    writes a gs URL: "gs:" in lower case; then nothing, or "//" with a
    bucket and an object path that are not both empty, the bucket made of
    the bytes that need no escaping in a host and of the escapes "%XY", in
    upper case, of bytes that do, the object path empty or starting with a
    slash and made of bytes that are valid in an encoded path; then at
    most one question mark. Every other string that [Set] accepts comes
    back changed. *)
Theorem Set_String_written (g g' : gcsPath.t) (v : string) :
  gcsPath.Set_ g v = (g', None) →
  gcsPath.String_ g' = v ↔ written v.
Proof.
  intros (scheme & rest & h & p & rp & fq & hash & -> & -> & Hlower & Hhash
          & Hquery & Hnohash & Hparts)%Set_gs.
  destruct (stored_body rest h p rp fq Hparts Hnohash)
    as (body & HString & Hbody & Hiff).
  destruct (ToLower_gs scheme Hlower) as (a & b & ->).
  unfold gcsPath.String_. cbn [gcsPath.url]. rewrite HString.
  set (q := (if fq then "?" else "")%string).
  assert (q = ""%string ∨ ∃ t, q = String "?" t) as Hq
    by (destruct fq; [right; by exists ""%string | by left]).
  assert (∀ s, "#"%char ∉ list_ascii_of_string s →
               "#"%char ∉ list_ascii_of_string (s +:+ q)) as Hsharp.
  { intros s Hs. rewrite bytes_app, not_elem_of_app. split; [done|].
    destruct fq; by apply not_in_bytes. }
  assert (hash = ""%string ∨ ∃ t, hash = String "#" t) as Hhash'
    by (destruct Hhash as [->| ->]; [by left | right; by exists ""%string]).
  change ("gs:" +:+ body +:+ q)%string
    with (String "g" (String "s" (String ":" (body +:+ q)))).
  change (String a (String b "") +:+ String ":" rest +:+ q +:+ hash)%string
    with (String a (String b (String ":" (rest +:+ q +:+ hash)))).
  split.
  - intros [= <- <- Heq].
    destruct (cut_unique "#" (body +:+ q) "" (rest +:+ q) hash) as [Heq' <-];
      [by apply Hsharp | by apply Hsharp | by left | done | |].
    { by rewrite string_app_nil_r, string_app_assoc. }
    apply string_app_inv_tail, Hiff in Heq'.
    exists rest, q. split; [by rewrite string_app_nil_r|]. split; [done|].
    destruct fq; [by right | by left].
  - intros (body' & query & [= -> -> Heq] & Hbody' & Hquery').
    destruct (cut_unique "#" (rest +:+ q) hash (body' +:+ query) "")
      as [Heq' ->]; [by apply Hsharp | | done | by left | |].
    { rewrite bytes_app, not_elem_of_app.
      split; [apply written_body_not_in; [done | by right]|].
      destruct Hquery' as [->| ->]; by apply not_in_bytes. }
    { by rewrite string_app_nil_r, string_app_assoc. }
    destruct (cut_unique "?" rest q body' query) as [<- _];
      [done | apply written_body_not_in; [done | by left] | done | | done |].
    { destruct Hquery' as [->| ->]; [by left | right; by exists ""%string]. }
    apply Hiff in Hbody' as ->. by rewrite string_app_nil_r.
Qed.

Lemma Set_String_written_witness :
  ∃ g',
    gcsPath.Set_ gcsPath_zero "gs://b/report(1).pdf" = (g', None)
    ∧ written "gs://b/report(1).pdf"
    ∧ gcsPath.String_ g' = "gs://b/report(1).pdf"%string.
Proof.
  assert (written "gs://b/report(1).pdf") as Hwritten.
  { exists "//b/report(1).pdf"%string, ""%string.
    split; [reflexivity|]. split; [|by left].
    right. exists "b"%string, "/report(1).pdf"%string.
    split; [reflexivity|]. split; [by left|]. split; [reflexivity|].
    split; [right; by exists "report(1).pdf"%string | reflexivity]. }
  eexists. split; [reflexivity|]. split; [exact Hwritten|].
  apply (proj2 (Set_String_written gcsPath_zero _ "gs://b/report(1).pdf" eq_refl)).
  exact Hwritten.
Defined.

(** C6, as the specification words it, fails: [Set] accepts a URL that
    ends with '#', and [String] does not write the '#' back. *)
Lemma Set_String_drops_hash :
  ∃ g',
    gcsPath.Set_ gcsPath_zero "gs://b/p#" = (g', None)
    ∧ gcsPath.String_ g' = "gs://b/p"%string
    ∧ gcsPath.String_ g' ≠ "gs://b/p#"%string.
Proof. eexists. split; [reflexivity|]. split; [reflexivity | discriminate]. Qed.

(** * Further properties of the updater *)

(** ** The cells that [AppendResult] adds *)

Lemma rle_decode_snoc l v c :
  rle_wf l → rle_decode (l ++ [v; c]) = rle_decode l ++ replicate (Z.to_nat c) v.
Proof.
  intros Hl. induction Hl as [|v' c' l _ _ IH] using rle_pairs_ind; simpl.
  - by rewrite app_nil_r.
  - by rewrite IH, app_assoc.
Qed.

Lemma rle_grouped_snoc l v c v' c' :
  rle_wf l → rle_grouped (l ++ [v; c]) → v ≠ v' →
  rle_grouped (l ++ [v; c; v'; c']).
Proof.
  intros Hl. induction Hl as [|w d l _ Hl IH] using rle_pairs_ind; simpl.
  - intros _ Hne. done.
  - intros [Hhead Htail] Hne. split; [|by apply IH].
    destruct l as [|x l]; [done|]. done.
Qed.

Lemma rle_grouped_count l v c c' :
  rle_wf l → rle_grouped (l ++ [v; c]) → rle_grouped (l ++ [v; c']).
Proof.
  intros Hl. induction Hl as [|w d l _ Hl IH] using rle_pairs_ind; simpl; [done|].
  intros [Hhead Htail]. split; [|by apply IH].
  destruct l as [|x l]; done.
Qed.

(** The three ways in which [AppendResult] changes the results. *)
Lemma AppendResult_shape (row : state.Row.t) (r : Row.t) (count : Z) :
  rle_wf (state.Row.Results row) → (0 <= count)%Z →
  (rle_total (state.Row.Results row) + count < 2 ^ 31)%Z →
  ∃ row',
    AppendResult row r count = Some row'
    ∧ ((state.Row.Results row = []
        ∧ state.Row.Results row' = [Row.Result r; count])
       ∨ (∃ pre v c,
            state.Row.Results row = pre ++ [v; c] ∧ rle_wf pre
            ∧ v ≠ Row.Result r
            ∧ state.Row.Results row' = pre ++ [v; c; Row.Result r; count])
       ∨ (∃ pre c,
            state.Row.Results row = pre ++ [Row.Result r; c] ∧ rle_wf pre
            ∧ (0 <= c)%Z
            ∧ state.Row.Results row' = pre ++ [Row.Result r; (c + count)%Z])).
Proof.
  intros Hwf Hcount Hmax. unfold AppendResult. cbv zeta.
  pose proof (rle_total_nonneg _ Hwf) as Htot.
  assert (Go.int32 count = count) as Hc32
    by (apply int32_small; unfold Go.in_int32; lia).
  destruct (decide (Z.of_nat (length (state.Row.Results row)) = 0%Z)) as [Hn|Hn].
  - eexists; split; [reflexivity|]. left. simpl.
    destruct (state.Row.Results row); [|done]. by rewrite Hc32.
  - destruct (rle_wf_last _ Hwf) as (pre & v & c & Heq & Hpre & Hc).
    { intros Hnil. by rewrite Hnil in Hn. }
    rewrite Heq in *. clear Hn.
    rewrite length_app. cbn [length].
    replace (Z.of_nat (length pre + 2) - 2)%Z with (Z.of_nat (length pre)) by lia.
    replace (Z.of_nat (length pre + 2) - 1)%Z with (Z.of_nat (length pre + 1)) by lia.
    rewrite !index_of_nat, Nat2Z.id.
    rewrite !(lookup_app_r pre) by lia.
    replace (length pre - length pre) with 0 by lia.
    replace (length pre + 1 - length pre) with 1 by lia.
    cbn [lookup list_lookup mbind option_bind].
    destruct (decide (v ≠ Row.Result r)) as [Hv|Hv].
    + eexists; split; [reflexivity|]. right. left. exists pre, v, c.
      cbn [state.Row.Results]. rewrite Hc32.
      by rewrite <- (app_assoc pre [v; c]).
    + apply dec_stable in Hv. subst v.
      pose proof (rle_total_nonneg _ Hpre) as Hpretot.
      rewrite rle_total_snoc in Hmax by done.
      cbn [mbind option_bind].
      rewrite Hc32, int32_small by (unfold Go.in_int32; lia).
      rewrite insert_app_r_alt by lia.
      replace (length pre + 1 - length pre) with 1 by lia.
      eexists; split; [reflexivity|]. right. right. exists pre, c.
      by cbn [state.Row.Results].
Qed.

(** X1. [AppendResult] adds [count] cells holding the result to the end of
    the row and leaves the earlier cells as they are. *)
Theorem AppendResult_cells (row : state.Row.t) (r : Row.t) (count : Z) :
  rle_wf (state.Row.Results row) → (0 <= count)%Z →
  (rle_total (state.Row.Results row) + count < 2 ^ 31)%Z →
  ∃ row',
    AppendResult row r count = Some row'
    ∧ rle_decode (state.Row.Results row')
      = rle_decode (state.Row.Results row)
          ++ replicate (Z.to_nat count) (Row.Result r).
Proof.
  intros Hwf Hcount Hmax.
  destruct (AppendResult_shape row r count Hwf Hcount Hmax)
    as (row' & Hrow' & Hshape).
  exists row'. split; [done|].
  destruct Hshape as [[Heq ->]|[(pre & v & c & Heq & Hpre & _ & ->)
                               |(pre & c & Heq & Hpre & Hc & ->)]];
    rewrite Heq in Hwf |- *.
  - simpl. by rewrite app_nil_r.
  - change (pre ++ [v; c; Row.Result r; count])
      with (pre ++ [v; c] ++ [Row.Result r; count]).
    rewrite (app_assoc pre). by rewrite (rle_decode_snoc (pre ++ [v; c])).
  - rewrite !rle_decode_snoc by done.
    rewrite Z2Nat.inj_add, replicate_add by lia. by rewrite app_assoc.
Qed.

Lemma AppendResult_cells_witness :
  ∃ row',
    AppendResult (state.Row.mk "T" "T" [1; 2]%Z [""; ""] ["a"; "b"] ["F"; "F"] [])%string
      (example_row "T" state.Row_PASS) 1 = Some row'
    ∧ rle_decode (state.Row.Results row') = [1; 1; 1]%Z.
Proof.
  apply (AppendResult_cells
           (state.Row.mk "T" "T" [1; 2]%Z [""; ""] ["a"; "b"] ["F"; "F"] [])%string
           (example_row "T" state.Row_PASS) 1).
  - simpl. split; [lia | done].
  - lia.
  - simpl. lia.
Defined.

(** X2. [AppendResult] keeps the results strictly grouped: when no two
    groups that follow one another share a value before the call, none do
    after it. *)
Theorem AppendResult_grouped (row : state.Row.t) (r : Row.t) (count : Z) :
  rle_wf (state.Row.Results row) → (0 <= count)%Z →
  (rle_total (state.Row.Results row) + count < 2 ^ 31)%Z →
  rle_grouped (state.Row.Results row) →
  ∃ row',
    AppendResult row r count = Some row'
    ∧ rle_grouped (state.Row.Results row').
Proof.
  intros Hwf Hcount Hmax Hgrouped.
  destruct (AppendResult_shape row r count Hwf Hcount Hmax)
    as (row' & Hrow' & Hshape).
  exists row'. split; [done|].
  destruct Hshape as [[Hnil ->]|[(pre & v & c & Heq & Hpre & Hne & ->)
                                |(pre & c & Heq & Hpre & Hc & ->)]].
  - done.
  - rewrite Heq in Hgrouped. by apply rle_grouped_snoc.
  - rewrite Heq in Hgrouped. by eapply rle_grouped_count.
Qed.

Lemma AppendResult_grouped_witness :
  ∃ row',
    AppendResult (state.Row.mk "T" "T" [1; 2]%Z [""; ""] ["a"; "b"] ["F"; "F"] [])%string
      noResult 3 = Some row'
    ∧ rle_grouped (state.Row.Results row').
Proof.
  apply (AppendResult_grouped
           (state.Row.mk "T" "T" [1; 2]%Z [""; ""] ["a"; "b"] ["F"; "F"] [])%string
           noResult 3).
  - simpl. split; [lia | done].
  - lia.
  - simpl. lia.
  - simpl. done.
Defined.

(** ** The cells that [AppendMetric] marks *)

Lemma indices_cells_snoc l s n :
  rle_wf l → indices_cells (l ++ [s; n]) = indices_cells l ++ seqZ s n.
Proof.
  intros Hl. induction Hl as [|s' n' l _ _ IH] using rle_pairs_ind; simpl.
  - by rewrite app_nil_r.
  - by rewrite IH, app_assoc.
Qed.

Lemma seqZ_one s : seqZ s 1 = [s].
Proof. rewrite seqZ_cons by lia. by rewrite seqZ_nil by lia. Qed.

(** X3. [AppendMetric] appends the value and marks the cell [idx] as the
    last of the cells the metric has a value for, either by extending the
    last (start, length) pair or by opening a new one; the name of the
    metric stays. *)
Theorem AppendMetric_cells (m : state.Metric.t) (idx : Z) (v : Go.float64) :
  indices_ok (state.Metric.Indices m) →
  ∃ m',
    AppendMetric m idx v = Some m'
    ∧ state.Metric.Name m' = state.Metric.Name m
    ∧ indices_cells (state.Metric.Indices m')
      = indices_cells (state.Metric.Indices m) ++ [idx]
    ∧ state.Metric.Values m' = state.Metric.Values m ++ [v].
Proof.
  intros (Hwf & Hsmall & Hlen). unfold AppendMetric. cbv zeta.
  set (indices := state.Metric.Indices m) in *.
  rewrite int32_small by (unfold Go.in_int32; lia).
  destruct (decide (Z.of_nat (length indices) = 0%Z)) as [Hn|Hn].
  - cbn [mbind option_bind]. eexists; split; [reflexivity|].
    cbn [state.Metric.Name state.Metric.Indices state.Metric.Values].
    by rewrite indices_cells_snoc, seqZ_one.
  - destruct (rle_wf_last _ Hwf) as (pre & s & n & Heq & Hpre & Hn0).
    { intros Hnil. by rewrite Hnil in Hn. }
    clearbody indices. subst indices. clear Hn.
    apply Forall_app in Hsmall as [_ Hsn].
    apply Forall_cons in Hsn as [Hs Hsn]. apply Forall_cons in Hsn as [Hn1 _].
    rewrite length_app. cbn [length].
    replace (Z.of_nat (length pre + 2) - 2)%Z with (Z.of_nat (length pre)) by lia.
    replace (Z.of_nat (length pre + 2) - 1)%Z with (Z.of_nat (length pre + 1)) by lia.
    rewrite !index_of_nat, Nat2Z.id.
    rewrite !(lookup_app_r pre) by lia.
    replace (length pre - length pre) with 0 by lia.
    replace (length pre + 1 - length pre) with 1 by lia.
    cbn [lookup list_lookup mbind option_bind].
    rewrite (int32_small (s + n)) by (unfold Go.in_int32; lia).
    destruct (decide ((s + n)%Z ≠ idx)) as [Hne|Heq].
    + eexists; split; [reflexivity|].
      cbn [state.Metric.Name state.Metric.Indices state.Metric.Values].
      rewrite (indices_cells_snoc (pre ++ [s; n])) by done.
      by rewrite seqZ_one.
    + apply dec_stable in Heq. subst idx.
      rewrite int32_small by (unfold Go.in_int32; lia).
      rewrite insert_app_r_alt by lia.
      replace (length pre + 1 - length pre) with 1 by lia.
      eexists; split; [reflexivity|].
      cbn [state.Metric.Name state.Metric.Indices state.Metric.Values insert list_insert].
      rewrite !indices_cells_snoc by done.
      rewrite seqZ_app by lia. by rewrite seqZ_one, app_assoc.
Qed.

Lemma AppendMetric_cells_witness :
  ∃ m',
    AppendMetric (state.Metric.mk elapsedKey [1; 2]%Z
                    [Go.float64_of_int64 7; Go.float64_of_int64 8])
      3 (Go.float64_of_int64 9) = Some m'
    ∧ state.Metric.Name m' = elapsedKey
    ∧ indices_cells (state.Metric.Indices m') = [1; 2; 3]%Z
    ∧ state.Metric.Values m'
      = [Go.float64_of_int64 7; Go.float64_of_int64 8; Go.float64_of_int64 9].
Proof.
  apply (AppendMetric_cells
           (state.Metric.mk elapsedKey [1; 2]%Z
              [Go.float64_of_int64 7; Go.float64_of_int64 8])
           3 (Go.float64_of_int64 9)).
  split; [simpl; split; [lia | done]|].
  split; [repeat constructor; lia | simpl; lia].
Defined.

(** ** Finding the metric that was just appended *)

Lemma FindMetric_from_first i ms name j m :
  ms !! j = Some m → state.Metric.Name m = name →
  (∀ k m', k < j → ms !! k = Some m' → state.Metric.Name m' ≠ name) →
  FindMetric_from i ms name = Some (i + j).
Proof.
  revert i j. induction ms as [|m0 ms IH]; intros i j Hj Hname Hfirst; [done|].
  destruct j as [|j]; simpl in *.
  - injection Hj as ->. rewrite decide_True by done. f_equal. lia.
  - rewrite decide_False by (apply (Hfirst 0); [lia | done]).
    rewrite (IH (S i) j); [f_equal; lia | done | done |].
    intros k m' Hk Hm'. apply (Hfirst (S k)); [lia | done].
Qed.

Lemma FindMetric_from_before i ms name j :
  FindMetric_from i ms name = Some j →
  ∀ k m', k < j - i → ms !! k = Some m' → state.Metric.Name m' ≠ name.
Proof.
  revert i. induction ms as [|m ms IH]; intros i; simpl; [done|].
  case_decide as Hname.
  - intros [= <-] k m' Hk. lia.
  - intros Hfind k m' Hk Hm'. destruct k as [|k]; simpl in Hm'.
    + by injection Hm' as <-.
    + apply (IH (S i) Hfind k m'); [|done].
      apply FindMetric_from_Some in Hfind as (? & ? & _). lia.
Qed.

Lemma AppendMetric_last m idx v m' :
  AppendMetric m idx v = Some m' →
  state.Metric.Name m' = state.Metric.Name m
  ∧ state.Metric.Values m' = state.Metric.Values m ++ [v].
Proof.
  unfold AppendMetric. cbv zeta. intros Hm'.
  apply bind_Some in Hm' as (indices' & _ & [= <-]). done.
Qed.

(** X4. After the body of the loop over the metrics of a record has run
    for the key [k], [FindMetric] finds a metric called [k] in the row, and
    the last value of that metric is the value of the record. *)
Theorem append_metric_found (r r' : state.Row.t) (k : string) (v : Go.float64) :
  append_metric r (k, v) = Some r' →
  ∃ i m,
    FindMetric r' k = Some i
    ∧ state.Row.Metrics r' !! i = Some m
    ∧ state.Metric.Name m = k
    ∧ last (state.Metric.Values m) = Some v.
Proof.
  unfold append_metric, FindMetric.
  destruct (FindMetric_from 0 (state.Row.Metrics r) k) as [i|] eqn:Hfind.
  - intros Hr'. apply bind_Some in Hr' as (m & Hm & Hr').
    apply bind_Some in Hr' as (m' & Hm' & [= <-]).
    apply AppendMetric_last in Hm' as [Hname Hvalues].
    pose proof (FindMetric_from_before _ _ _ _ Hfind) as Hbefore.
    apply FindMetric_from_Some in Hfind as (m0 & _ & Hm0 & Hname0).
    rewrite Nat.sub_0_r in Hm0, Hbefore.
    assert (m0 = m) as -> by congruence.
    exists i, m'. cbn [state.Row.Metrics].
    assert (i < length (state.Row.Metrics r)) as Hi by by eapply lookup_lt_Some.
    split; [|split; [by rewrite list_lookup_insert_eq | split; [congruence|]]].
    + apply (FindMetric_from_first 0 _ k i m');
        [by rewrite list_lookup_insert_eq | congruence |].
      intros j m1 Hj Hm1. rewrite list_lookup_insert_ne in Hm1 by lia. eauto.
    + by rewrite Hvalues, last_snoc.
  - intros Hr'. apply bind_Some in Hr' as (m' & Hm' & [= <-]).
    apply AppendMetric_last in Hm' as [Hname Hvalues]. simpl in Hname, Hvalues.
    apply FindMetric_from_None in Hfind.
    exists (length (state.Row.Metrics r)), m'. cbn [state.Row.Metrics].
    split; [|split; [by rewrite list_lookup_middle | split; [done|]]].
    + apply (FindMetric_from_first 0 _ k (length (state.Row.Metrics r)) m');
        [by rewrite list_lookup_middle | done |].
      intros j m1 Hj Hm1. rewrite lookup_app_l in Hm1 by done.
      intros Heq. apply Hfind. rewrite <- Heq. by eapply list_elem_of_fmap_2, list_elem_of_lookup_2.
    + by rewrite Hvalues.
Qed.

Lemma append_metric_found_witness :
  ∃ i m,
    FindMetric (state.Row.mk "T" "T" [1; 1]%Z [""] [""] [""]
                  [state.Metric.mk elapsedKey [1; 1]%Z [Go.float64_of_int64 9]])
      elapsedKey = Some i
    ∧ [state.Metric.mk elapsedKey [1; 1]%Z [Go.float64_of_int64 9]] !! i = Some m
    ∧ state.Metric.Name m = elapsedKey
    ∧ last (state.Metric.Values m) = Some (Go.float64_of_int64 9).
Proof.
  exact (append_metric_found
           (state.Row.mk "T" "T" [1; 1]%Z [""] [""] [""] [])
           (state.Row.mk "T" "T" [1; 1]%Z [""] [""] [""]
              [state.Metric.mk elapsedKey [1; 1]%Z [Go.float64_of_int64 9]])
           elapsedKey (Go.float64_of_int64 9) eq_refl).
Defined.

(** ** The names that [AppendColumn] gives to rows *)

Lemma unique_name_first fuel (found : gset string) prefix name idx name' :
  unique_name fuel found prefix name idx = Some name' →
  (name' ∉ found)
  ∧ (((name ∉ found) ∧ name' = name)
     ∨ ((name ∈ found)
        ∧ ∃ k, (idx <= k)%Z ∧ name' = Sprintf_indexed prefix k
               ∧ ∀ j, (idx <= j < k)%Z → Sprintf_indexed prefix j ∈ found)).
Proof.
  revert name idx. induction fuel as [|fuel IH]; intros name idx; simpl;
    destruct (decide (name ∈ found)) as [Hin|Hout]; try done;
    try (intros [= <-]; by eauto).
  intros Hname. apply IH in Hname as [Hfresh Hcases]. split; [done|].
  right. split; [done|].
  destruct Hcases as [[_ ->]|(Hfirst & k & Hk & -> & Hbelow)].
  - exists idx. split; [lia|]. split; [done|]. intros j Hj. lia.
  - exists k. split; [lia|]. split; [done|]. intros j Hj.
    destruct (decide (j = idx)) as [->|Hne]; [done|]. apply Hbelow. lia.
Qed.

(** X5. The loop that makes a row name unique ends and yields a name that
    is not yet taken in this column: the formatted name itself when it is
    free, otherwise the formatted name followed by the smallest index
    from 1 on, in brackets, that gives a free name. *)
Theorem unique_name_smallest (found : gset string) (prefix : string) :
  ∃ name,
    unique_name (S (size found)) found prefix prefix 1 = Some name
    ∧ (name ∉ found)
    ∧ (prefix ∉ found → name = prefix)
    ∧ (prefix ∈ found →
       ∃ k, (1 <= k)%Z ∧ name = Sprintf_indexed prefix k
            ∧ ∀ j, (1 <= j < k)%Z → Sprintf_indexed prefix j ∈ found).
Proof.
  destruct (unique_name_spec found prefix) as (name & Hname & _).
  exists name. split; [done|].
  apply unique_name_first in Hname as [Hfresh Hcases]. split; [done|].
  destruct Hcases as [[Hout ->]|(Hin & Hk)]; split; done.
Qed.

(** ** The column record of [AppendColumn] *)

Lemma slice_to_length k s : String.length (Go.slice_to k s) ≤ k.
Proof.
  destruct (decide (k ≤ String.length s)) as [Hk|Hk].
  - destruct (slice_split k s Hk) as (s1 & s2 & _ & Hlen & -> & _). lia.
  - unfold Go.slice_to. revert k Hk. induction s as [|a s IH]; intros k Hk.
    + destruct k; simpl; lia.
    + destruct k as [|k]; simpl in *; [lia|]. specialize (IH k). lia.
Qed.

Section ColumnRecord.

Variable Sprintf : string → list string → string.
Variable range : ∀ V : Type, gmap string V → list (string * V).

(** X6. Whenever [AppendColumn] returns, the grid has one more column, at
    the end: it is named after the build, starts at the build's start in
    milliseconds and has one extra value per header. The extra values of a
    build that has not finished are all empty, and the value under the
    header [Commit] is never longer than 9 bytes. *)
Theorem AppendColumn_column (headers : list string) (format : NameConfig.t)
    (grid grid' : Grid.t) (rows rows' : gmap string nat) (build : Column.t) :
  AppendColumn Sprintf range headers format grid rows build = Some (grid', rows') →
  ∃ c,
    Grid.Columns grid' = Grid.Columns grid ++ [c]
    ∧ state.Column.Build c = Column.Id build
    ∧ state.Column.Started c
      = Go.float64_of_int64 (Go.int64 (Column.Started build * 1000))
    ∧ length (state.Column.Extra c) = length headers
    ∧ (Column.Finished build = 0%Z →
       state.Column.Extra c = replicate (length headers) ""%string)
    ∧ (∀ i e, headers !! i = Some "Commit"%string →
         state.Column.Extra c !! i = Some e → String.length e ≤ 9).
Proof.
  unfold AppendColumn. cbv zeta. intros Hret.
  apply bind_Some in Hret as (st & _ & Hret).
  apply bind_Some in Hret as (grid_rows & _ & [= <- <-]).
  exists (column_record headers build). cbn [Grid.Columns].
  split; [done|]. split; [done|]. split; [done|].
  unfold column_record. cbn [state.Column.Extra].
  split; [by rewrite length_fmap|]. split.
  - intros Hzero. induction headers as [|h hs IH]; [done|].
    rewrite fmap_cons. cbn [length replicate]. rewrite IH.
    unfold header_extra. by rewrite decide_True.
  - intros i e Hi He. rewrite list_lookup_fmap, Hi in He.
    injection He as <-. unfold header_extra.
    destruct (decide (Column.Finished build = 0%Z)); [simpl; lia|].
    rewrite decide_True by done. cbv zeta.
    match goal with
    | |- String.length (if decide (0 < 9 ∧ 9 < String.length ?v) then _ else _) ≤ 9 =>
        destruct (decide (0 < 9 ∧ 9 < String.length v)) as [_|Hle];
          [apply slice_to_length | lia]
    end.
Qed.

End ColumnRecord.

Lemma AppendColumn_column_witness :
  ∃ c,
    [c] = [] ++ [c]
    ∧ state.Column.Build c = "b3"%string
    ∧ state.Column.Started c = Go.float64_of_int64 (Go.int64 (3600 * 1000))
    ∧ length (state.Column.Extra c) = 1
    ∧ (3700%Z = 0%Z → state.Column.Extra c = replicate 1 ""%string)
    ∧ (∀ i e, ["Commit"%string] !! i = Some "Commit"%string →
         state.Column.Extra c !! i = Some e → String.length e ≤ 9).
Proof.
  destruct (AppendColumn_column Sprintf_plain range_any ["Commit"%string]
              defaultNameConfig (Grid.mk [] [])
              (Grid.mk [column_record ["Commit"%string] example_versioned] [])
              ∅ ∅ example_versioned)
    as (c & Hcols & Hrest); [vm_compute; reflexivity|].
  exists c. split; [|exact Hrest].
  simpl in Hcols. injection Hcols as <-. reflexivity.
Defined.

(** ** What [AppendColumn] does to the rows of the grid *)

Lemma rle_decode_length l :
  rle_wf l → Z.of_nat (length (rle_decode l)) = rle_total l.
Proof.
  intros Hl. induction Hl as [|v c l Hc _ IH] using rle_pairs_ind; simpl; [done|].
  rewrite length_app, length_replicate. lia.
Qed.

Lemma filled_app brs1 brs2 : filled (brs1 ++ brs2) = filled brs1 ++ filled brs2.
Proof. apply filter_app. Qed.

Lemma filled_replicate k br :
  filled (replicate k br)
  = if decide (Row.Result br = state.Row_NO_RESULT) then [] else replicate k br.
Proof.
  unfold filled. induction k as [|k IH]; simpl; [by case_decide|].
  rewrite filter_cons, IH.
  destruct (decide (Row.Result br = state.Row_NO_RESULT)) as [Hno|Hno].
  - by rewrite decide_False by (intros Hne; by apply Hne).
  - by rewrite decide_True.
Qed.

Lemma cells_extended_refl r : cells_extended r r [].
Proof. unfold cells_extended. simpl. by rewrite !app_nil_r. Qed.

Lemma cells_extended_trans r1 r2 r3 brs1 brs2 :
  cells_extended r1 r2 brs1 → cells_extended r2 r3 brs2 →
  cells_extended r1 r3 (brs1 ++ brs2).
Proof.
  intros (Hn1 & Hi1 & Hr1 & Hc1 & Hm1 & Ho1) (Hn2 & Hi2 & Hr2 & Hc2 & Hm2 & Ho2).
  unfold cells_extended.
  rewrite Hn2, Hi2, Hr2, Hc2, Hm2, Ho2, Hr1, Hc1, Hm1, Ho1.
  rewrite filled_app, !fmap_app, length_app, replicate_add, <- !app_assoc.
  done.
Qed.

Lemma row_extended_split r r' brs :
  row_extended r r' brs ↔ cells_extended r r' brs ∧ measured r r' brs.
Proof. unfold row_extended, cells_extended. tauto. Qed.

Lemma measured_refl r : measured r r [].
Proof. intros k. simpl. by rewrite app_nil_r. Qed.

Lemma measured_trans r1 r2 r3 brs1 brs2 :
  measured r1 r2 brs1 → measured r2 r3 brs2 → measured r1 r3 (brs1 ++ brs2).
Proof. intros H1 H2 k. by rewrite H2, H1, omap_app, app_assoc. Qed.

Lemma row_extended_refl r : row_extended r r [].
Proof.
  apply row_extended_split. split; [apply cells_extended_refl | apply measured_refl].
Qed.

Lemma row_extended_trans r1 r2 r3 brs1 brs2 :
  row_extended r1 r2 brs1 → row_extended r2 r3 brs2 →
  row_extended r1 r3 (brs1 ++ brs2).
Proof.
  rewrite !row_extended_split. intros [Hc1 Hm1] [Hc2 Hm2].
  split; [by eapply cells_extended_trans | by eapply measured_trans].
Qed.

Lemma AppendResult_cells_extended (row : state.Row.t) (r : Row.t) (count : Z) :
  rle_wf (state.Row.Results row) → (0 <= count)%Z →
  (rle_total (state.Row.Results row) + count < 2 ^ 31)%Z →
  ∃ row',
    AppendResult row r count = Some row'
    ∧ cells_extended row row' (replicate (Z.to_nat count) r)
    ∧ state.Row.Metrics row' = state.Row.Metrics row.
Proof.
  intros Hwf Hcount Hmax.
  destruct (AppendResult_shape row r count Hwf Hcount Hmax)
    as (row' & Hrow' & Hshape).
  destruct (AppendResult_spec row r count Hwf Hcount Hmax)
    as (results' & Hrec & _).
  exists row'. split; [done|].
  assert (rle_decode (state.Row.Results row')
          = rle_decode (state.Row.Results row)
              ++ replicate (Z.to_nat count) (Row.Result r)) as Hcells.
  { destruct Hshape as [[Heq ->]|[(pre & v & c & Heq & Hpre & _ & ->)
                                 |(pre & c & Heq & Hpre & Hc & ->)]];
      rewrite Heq in Hwf |- *.
    - simpl. by rewrite app_nil_r.
    - change (pre ++ [v; c; Row.Result r; count])
        with (pre ++ [v; c] ++ [Row.Result r; count]).
      rewrite (app_assoc pre). by rewrite (rle_decode_snoc (pre ++ [v; c])).
    - rewrite !rle_decode_snoc by done.
      rewrite Z2Nat.inj_add, replicate_add by lia. by rewrite app_assoc. }
  rewrite Hrow' in Hrec. injection Hrec as ->.
  split; [|done].
  unfold cells_extended. cbn [state.Row.Name state.Row.Id state.Row.Results
    state.Row.CellIds state.Row.Messages state.Row.Icons] in *.
  rewrite filled_replicate, fmap_replicate, length_replicate.
  split; [done|]. split; [done|]. split; [done|]. split; [done|].
  destruct (decide (Row.Result r = state.Row_NO_RESULT)); simpl;
    by rewrite ?app_nil_r, ?fmap_replicate.
Qed.

Lemma metric_values_same r r' k :
  state.Row.Metrics r' = state.Row.Metrics r →
  metric_values r' k = metric_values r k.
Proof. intros Heq. unfold metric_values, FindMetric. by rewrite Heq. Qed.

(** A record without metrics adds no value to a metric. *)
Lemma AppendResult_extended (row : state.Row.t) (r : Row.t) (count : Z) :
  Row.Metrics r = ∅ →
  rle_wf (state.Row.Results row) → (0 <= count)%Z →
  (rle_total (state.Row.Results row) + count < 2 ^ 31)%Z →
  ∃ row',
    AppendResult row r count = Some row'
    ∧ row_extended row row' (replicate (Z.to_nat count) r).
Proof.
  intros Hnone Hwf Hcount Hmax.
  destruct (AppendResult_cells_extended row r count Hwf Hcount Hmax)
    as (row' & Hrow' & Hcells & Hmetrics).
  exists row'. split; [done|]. apply row_extended_split. split; [done|].
  intros k. rewrite (metric_values_same _ _ _ Hmetrics).
  replace (omap (λ br, Row.Metrics br !! k) (replicate (Z.to_nat count) r))
    with ([] : list Go.float64); [by rewrite app_nil_r|].
  clear - Hnone. generalize (Z.to_nat count). intros c.
  induction c as [|c IH]; [done|].
  simpl. by rewrite Hnone, lookup_empty.
Qed.

Lemma append_metric_cells r kv r' :
  append_metric r kv = Some r' → cells_extended r r' [].
Proof.
  destruct kv as [k v]. unfold append_metric.
  destruct (FindMetric r k) as [i|]; intros Hr'.
  - apply bind_Some in Hr' as (m & _ & Hr').
    apply bind_Some in Hr' as (m' & _ & [= <-]).
    unfold cells_extended. simpl. by rewrite !app_nil_r.
  - apply bind_Some in Hr' as (m' & _ & [= <-]).
    unfold cells_extended. simpl. by rewrite !app_nil_r.
Qed.

Lemma append_metrics_cells l r r' :
  foldM append_metric l r = Some r' → cells_extended r r' [].
Proof.
  revert r. induction l as [|kv l IH]; intros r; simpl.
  - intros [= <-]. apply cells_extended_refl.
  - intros Hr'. apply bind_Some in Hr' as (r1 & Hr1 & Hr').
    apply (cells_extended_trans r r1 r' [] []);
      [by eapply append_metric_cells | by apply IH].
Qed.

(** [FindMetric] looks at the names of the metrics only. *)
Lemma FindMetric_from_names i ms ms' k :
  state.Metric.Name <$> ms = state.Metric.Name <$> ms' →
  FindMetric_from i ms k = FindMetric_from i ms' k.
Proof.
  revert i ms'. induction ms as [|m ms IH]; intros i [|m' ms'] Heq; try done.
  rewrite !fmap_cons in Heq. injection Heq as Hm Hms. simpl. rewrite Hm.
  case_decide; [done|]. by apply IH.
Qed.

Lemma FindMetric_from_app i ms ms' k :
  FindMetric_from i (ms ++ ms') k
  = match FindMetric_from i ms k with
    | Some j => Some j
    | None => FindMetric_from (i + length ms) ms' k
    end.
Proof.
  revert i. induction ms as [|m ms IH]; intros i; simpl.
  - by rewrite Nat.add_0_r.
  - case_decide; [done|]. rewrite IH.
    by replace (S i + length ms) with (i + S (length ms)) by lia.
Qed.

(** The body of the loop over the metrics of a record adds the value to
    the metric of the key and leaves the other metrics alone. *)
Lemma append_metric_values r k v r' :
  append_metric r (k, v) = Some r' →
  ∀ k', metric_values r' k'
        = metric_values r k' ++ (if decide (k' = k) then [v] else []).
Proof.
  unfold append_metric, metric_values, FindMetric.
  destruct (FindMetric_from 0 (state.Row.Metrics r) k) as [i|] eqn:Hfind.
  - intros Hr' k'. apply bind_Some in Hr' as (m & Hm & Hr').
    apply bind_Some in Hr' as (m' & Hm' & [= <-]).
    apply AppendMetric_last in Hm' as [Hname Hvalues].
    cbn [state.Row.Metrics].
    assert (i < length (state.Row.Metrics r)) as Hi by by eapply lookup_lt_Some.
    rewrite (FindMetric_from_names 0 _ (state.Row.Metrics r) k').
    2:{ rewrite list_fmap_insert, Hname. apply list_insert_id.
        by rewrite list_lookup_fmap, Hm. }
    destruct (decide (k' = k)) as [->|Hne].
    + rewrite Hfind, list_lookup_insert_eq, Hm by done. simpl. by rewrite Hvalues.
    + destruct (FindMetric_from 0 (state.Row.Metrics r) k') as [j|] eqn:Hfind';
        [|done].
      rewrite list_lookup_insert_ne; [by rewrite app_nil_r|].
      intros <-. apply FindMetric_from_Some in Hfind as (m0 & _ & Hm0 & Hn0).
      apply FindMetric_from_Some in Hfind' as (m1 & _ & Hm1 & Hn1).
      rewrite Nat.sub_0_r in Hm0, Hm1. congruence.
  - intros Hr' k'. apply bind_Some in Hr' as (m' & Hm' & [= <-]).
    apply AppendMetric_last in Hm' as [Hname Hvalues]. simpl in Hname, Hvalues.
    cbn [state.Row.Metrics]. rewrite FindMetric_from_app.
    destruct (decide (k' = k)) as [->|Hne].
    + rewrite Hfind. simpl. rewrite decide_True by done.
      rewrite list_lookup_middle by done. simpl. by rewrite Hvalues.
    + destruct (FindMetric_from 0 (state.Row.Metrics r) k') as [j|] eqn:Hfind'.
      * apply FindMetric_from_Some in Hfind' as (m1 & _ & Hm1 & _).
        rewrite Nat.sub_0_r in Hm1.
        rewrite (lookup_app_l_Some _ _ _ _ Hm1), Hm1. by rewrite app_nil_r.
      * simpl. by rewrite decide_False by congruence.
Qed.

Lemma append_metrics_values kvs r r' :
  NoDup kvs.*1 → foldM append_metric kvs r = Some r' →
  ∀ k, metric_values r' k
       = metric_values r k
           ++ match (list_to_map kvs : gmap string Go.float64) !! k with
              | Some v => [v]
              | None => []
              end.
Proof.
  revert r. induction kvs as [|[k0 v0] kvs IH]; intros r Hkeys Hr' k.
  - injection Hr' as <-. simpl. by rewrite lookup_empty, app_nil_r.
  - rewrite fmap_cons in Hkeys. apply NoDup_cons in Hkeys as [Hk0 Hkeys].
    rewrite foldM_cons in Hr'. apply bind_Some in Hr' as (r1 & Hr1 & Hr').
    rewrite (IH r1 Hkeys Hr' k), (append_metric_values _ _ _ _ Hr1 k).
    cbn [list_to_map foldr uncurry fst snd].
    destruct (decide (k = k0)) as [->|Hne].
    + rewrite lookup_insert_eq, (not_elem_of_list_to_map_1 _ k0) by done.
      by rewrite app_nil_r.
    + rewrite lookup_insert_ne by done. by rewrite app_nil_r.
Qed.

(** One record for a row that has [n - 1] cells. *)
Lemma append_cell_extended
    (range : ∀ V : Type, gmap string V → list (string * V))
    (n : Z) (r r1 r2 : state.Row.t) (br : Row.t) :
  range_visits_once range →
  (1 <= n < 2 ^ 30)%Z → row_ok (n - 1) r →
  AppendResult r br 1 = Some r1 →
  foldM append_metric (range _ (Row.Metrics br)) r1 = Some r2 →
  row_extended r r2 [br].
Proof.
  intros range_once Hn (Hwf & Htot & _) Hr1 Hr2.
  destruct (AppendResult_cells_extended r br 1 Hwf)
    as (r1' & Hr1' & Hext & Hmetrics); [lia.. |].
  assert (r1' = r1) as -> by congruence.
  apply row_extended_split. split.
  - apply (cells_extended_trans r r1 r2 [br] []); [done|].
    by eapply append_metrics_cells.
  - intros k.
    rewrite (append_metrics_values _ _ _ (range_NoDup range range_once _ _) Hr2 k).
    rewrite (metric_values_same _ _ _ Hmetrics).
    replace (list_to_map (range Go.float64 (Row.Metrics br)))
      with (Row.Metrics br).
    + simpl. by destruct (Row.Metrics br !! k).
    + rewrite (list_to_map_proper _ (map_to_list (Row.Metrics br)));
        [by rewrite list_to_map_to_list
        | apply (range_NoDup range range_once) | apply range_once].
Qed.

Lemma new_row_extended (ncols : nat) (name target : string) r' :
  (1 <= Z.of_nat ncols < 2 ^ 30)%Z →
  (if decide (1 < ncols)
   then AppendResult (state.Row.mk name target [] [] [] [] []) noResult
          (Z.of_nat ncols - 1)
   else Some (state.Row.mk name target [] [] [] [] []))
  = Some r' →
  row_extended (new_row name target) r' (replicate (ncols - 1) noResult).
Proof.
  intros Hn. case_decide as Hcols.
  - destruct (AppendResult_extended (new_row name target) noResult
                (Z.of_nat ncols - 1)) as (r1 & Hr1 & Hext);
      [done | done | simpl; lia.. |].
    unfold new_row in Hr1 at 1. rewrite Hr1. intros [= <-].
    by replace (ncols - 1) with (Z.to_nat (Z.of_nat ncols - 1)) by lia.
  - intros [= <-]. replace (ncols - 1) with 0 by lia. apply row_extended_refl.
Qed.

Section Growth.

Variable Sprintf : string → list string → string.
Variable range : ∀ V : Type, gmap string V → list (string * V).
Hypothesis range_once : range_visits_once range.

Lemma append_record_grows build rows0 format (ncols : nat) target st br :
  (1 <= Z.of_nat ncols < 2 ^ 30)%Z →
  record_of build target br →
  assembly_inv (Z.of_nat ncols) st → assembly_grows build ncols rows0 st →
  ∃ st', append_record Sprintf range format build ncols target st br = Some st'
         ∧ assembly_inv (Z.of_nat ncols) st'
         ∧ assembly_grows build ncols rows0 st'.
Proof.
  intros Hn Hbr Hinv (Hold & Hnew & Hmiss).
  destruct (append_record_spec Sprintf range range_once format build ncols
              target st br Hn Hinv) as (st' & Hst' & Hinv').
  exists st'. split; [done|]. split; [done|].
  destruct Hinv as (Hidx & Hsub & Hfound & Hrows).
  unfold append_record in Hst'.
  apply bind_Some in Hst' as (name & Hname & Hst').
  apply unique_name_first in Hname as [Hfresh _].
  apply bind_Some in Hst' as ([[p grid_rows] rows] & Hrow & Hst').
  apply bind_Some in Hst' as (r & Hr & Hst').
  apply bind_Some in Hst' as (r1 & Hr1 & Hst').
  apply bind_Some in Hst' as (r2 & Hr2 & [= <-]).
  assert (length rows0 ≤ length (Assembly.grid_rows st)) as Hlen.
  { destruct (decide (length rows0 = 0)) as [->|Hpos]; [lia|].
    destruct (lookup_lt_is_Some_2 rows0 (length rows0 - 1)) as [r0 Hr0]; [lia|].
    destruct (Hold _ _ Hr0) as (r0' & ? & Hr0' & _).
    apply lookup_lt_Some in Hr0'. lia. }
  destruct (Assembly.rows st !! name) as [q|] eqn:Hq.
  - injection Hrow as -> <- <-.
    destruct (proj2 Hidx name p Hq) as (r' & Hgr & Hrname).
    assert (r' = r) as -> by congruence.
    assert (Assembly.missing st !! name = Some p) as Hmissing.
    { destruct (Assembly.missing st !! name) as [q|] eqn:Hq'.
      - apply Hsub in Hq'. congruence.
      - exfalso. apply Hfresh. eauto. }
    assert (row_ok (Z.of_nat ncols - 1) r) as Hok.
    { specialize (Hrows p r Hgr). by rewrite Hrname, Hmissing in Hrows. }
    pose proof (append_cell_extended range _ _ _ _ _ range_once Hn Hok Hr1 Hr2)
      as Hext.
    assert (p < length rows0) as Hp by eauto.
    split; [|split]; cbn [Assembly.grid_rows Assembly.found Assembly.missing].
    + intros q r0 Hr0. destruct (Hold q r0 Hr0) as (r0' & brs & Hr0' & Hext0 & Hbrs).
      destruct (decide (p = q)) as [<-|Hne].
      * exists r2, (brs ++ [br]).
        rewrite list_lookup_insert_eq by by eapply lookup_lt_Some.
        split; [done|]. assert (r0' = r) as -> by congruence.
        split; [by eapply row_extended_trans|].
        apply Forall_app. split; [done|]. apply Forall_singleton. eauto.
      * exists r0', brs. by rewrite list_lookup_insert_ne.
    + intros q r0 Hq0 Hr0. rewrite list_lookup_insert_ne in Hr0 by lia.
      destruct (Hnew q r0 Hq0 Hr0) as [Hin Hrest].
      split; [by apply elem_of_union_r | done].
    + intros nm q [_ Hnm]%lookup_delete_Some. eauto.
  - apply bind_Some in Hrow as (r' & Hr' & [= <- <- <-]).
    rewrite list_lookup_middle in Hr by done. injection Hr as <-.
    destruct (new_row_spec ncols name target Hn) as (r'' & Hr'' & Hname' & Hok').
    assert (r'' = r') as -> by congruence.
    pose proof (new_row_extended _ _ _ _ Hn Hr') as Hext'.
    pose proof (append_cell_extended range _ _ _ _ _ range_once Hn Hok' Hr1 Hr2)
      as Hext.
    pose proof (row_extended_trans _ _ _ _ _ Hext' Hext) as Hall.
    replace (<[length (Assembly.grid_rows st) := r2]>
               (Assembly.grid_rows st ++ [r']))
      with (Assembly.grid_rows st ++ [r2])
      by (rewrite insert_app_r_alt, Nat.sub_diag by lia; done).
    split; [|split]; cbn [Assembly.grid_rows Assembly.found Assembly.missing].
    + intros q r0 Hr0. destruct (Hold q r0 Hr0) as (r0' & brs & Hr0' & Hrest).
      exists r0', brs. split; [|done]. by apply lookup_app_l_Some.
    + intros q r0 Hq0 Hr0. apply lookup_app_Some in Hr0 as [Hr0|[_ Hr0]].
      * destruct (Hnew q r0 Hq0 Hr0) as [Hin Hrest].
        split; [by apply elem_of_union_r | done].
      * apply list_lookup_singleton_Some in Hr0 as [_ <-].
        destruct Hall as (Hn2 & Hi2 & Hrest2). simpl in Hn2, Hi2.
        split; [rewrite Hn2; apply elem_of_union_l; by apply elem_of_singleton|].
        exists br. rewrite Hn2, Hi2. split; [done|]. by split.
    + intros nm q [_ Hnm]%lookup_delete_Some. eauto.
Qed.

Lemma append_target_grows build rows0 format (ncols : nat) st entry :
  (1 <= Z.of_nat ncols < 2 ^ 30)%Z →
  Column.Rows build !! entry.1 = Some entry.2 →
  assembly_inv (Z.of_nat ncols) st → assembly_grows build ncols rows0 st →
  ∃ st', append_target Sprintf range format build ncols st entry = Some st'
         ∧ assembly_inv (Z.of_nat ncols) st'
         ∧ assembly_grows build ncols rows0 st'.
Proof.
  intros Hn Hentry Hinv Hgrows. unfold append_target.
  destruct (foldM_inv
              (append_record Sprintf range format build ncols entry.1)
              (λ st, assembly_inv (Z.of_nat ncols) st
                     ∧ assembly_grows build ncols rows0 st)
              entry.2 st) as (st' & Hst' & Hinv' & Hgrows'); [|done|by eauto].
  intros st1 br Hbr [Hinv1 Hgrows1].
  destruct (append_record_grows build rows0 format ncols entry.1 st1 br)
    as (st2 & Hst2 & Hinv2 & Hgrows2); [done | by exists entry.2 | done | done |].
  by exists st2.
Qed.

(** The rows that the column did not mention keep their cells and get one
    empty cell; the new rows stay as they are. *)
Lemma append_missing_grows n (entries : list (string * nat)) grid_rows rows
    (old : nat) :
  (1 <= n < 2 ^ 30)%Z →
  NoDup entries.*1 →
  rows_index grid_rows rows →
  (∀ name p, (name, p) ∈ entries → rows !! name = Some p) →
  (∀ p r, grid_rows !! p = Some r →
          row_ok (if decide (state.Row.Name r ∈ entries.*1) then n - 1 else n)%Z r) →
  (∀ name p, (name, p) ∈ entries → p < old) →
  ∀ grid_rows',
    foldM append_missing entries grid_rows = Some grid_rows' →
    (∀ p r, grid_rows !! p = Some r →
       ∃ r' brs, grid_rows' !! p = Some r' ∧ row_extended r r' brs
                 ∧ Forall (λ br, br = noResult) brs)
    ∧ (∀ p, old ≤ p → grid_rows' !! p = grid_rows !! p).
Proof.
  intros Hn. revert grid_rows.
  induction entries as [|[name p] entries IH];
    intros grid_rows Hkeys Hidx Hin Hrows Hold grid_rows' Hfold.
  - injection Hfold as <-. split; [|done].
    intros p r Hr. exists r, []. split; [done|].
    split; [apply row_extended_refl | constructor].
  - rewrite fmap_cons in Hkeys. apply NoDup_cons in Hkeys as [Hname Hkeys].
    simpl in Hname.
    destruct (proj2 Hidx name p) as (r & Hr & Hrn); [apply Hin; by left|].
    assert (row_ok (n - 1) r) as Hok.
    { specialize (Hrows p r Hr). rewrite decide_True in Hrows; [done|].
      rewrite Hrn. by left. }
    destruct (row_ok_no_result n r Hn Hok) as (r' & Hr' & Hrn' & Hok').
    destruct (AppendResult_extended r noResult 1) as (r1 & Hr1 & Hext);
      [done | apply Hok | lia | destruct Hok as (_ & -> & _); lia |].
    assert (r1 = r') as -> by congruence.
    assert (append_missing grid_rows (name, p) = Some (<[p := r']> grid_rows))
      as Hstep by (unfold append_missing; simpl; by rewrite Hr; simpl; rewrite Hr').
    rewrite foldM_cons, Hstep in Hfold. cbn [mbind option_bind] in Hfold.
    assert (p < old) as Hp by (apply (Hold name); by left).
    destruct (IH (<[p := r']> grid_rows)) with (grid_rows' := grid_rows')
      as [Hext' Hsame]; [done | | | | | done |].
    + eapply rows_index_insert; eauto.
    + intros nm q Hq. apply Hin. by right.
    + intros q r0 Hq. destruct (decide (p = q)) as [<-|Hne].
      * rewrite list_lookup_insert_eq in Hq by by eapply lookup_lt_Some.
        injection Hq as <-. rewrite Hrn', Hrn. by rewrite decide_False.
      * rewrite list_lookup_insert_ne in Hq by done.
        assert (state.Row.Name r0 ≠ name) as Hne0.
        { intros Heq. apply Hne.
          apply (rows_index_inj grid_rows rows name); [done | | eauto].
          apply Hin. by left. }
        specialize (Hrows q r0 Hq). simpl in Hrows.
        destruct (decide (state.Row.Name r0 ∈ entries.*1)) as [Hmem|Hmem].
        -- rewrite decide_True in Hrows; [done | by right].
        -- rewrite decide_False in Hrows; [done|].
           by intros [?|?]%elem_of_cons.
    + intros nm q Hq. apply (Hold nm). by right.
    + split.
      * intros q r0 Hq. destruct (decide (p = q)) as [<-|Hne].
        -- assert (r0 = r) as -> by congruence.
           destruct (Hext' p r') as (r2 & brs & Hr2 & Hext2 & Hbrs).
           { rewrite list_lookup_insert_eq; [done | by eapply lookup_lt_Some]. }
           exists r2, ([noResult] ++ brs). split; [done|].
           split; [by eapply row_extended_trans|].
           by constructor.
        -- apply Hext'. by rewrite list_lookup_insert_ne.
      * intros q Hq. rewrite Hsame by done.
        apply list_lookup_insert_ne. lia.
Qed.

Lemma row_extended_one n r r' brs :
  row_ok (n - 1) r → row_ok n r' → row_extended r r' brs →
  ∃ br, brs = [br].
Proof.
  intros (Hwf & Htot & _) (Hwf' & Htot' & _) (_ & _ & Hcells & _).
  apply (f_equal length) in Hcells.
  rewrite length_app, length_fmap in Hcells.
  pose proof (rle_decode_length _ Hwf) as Hlen.
  pose proof (rle_decode_length _ Hwf') as Hlen'.
  destruct brs as [|br [|br' brs]]; simpl in Hcells; [lia | by exists br | lia].
Qed.

Lemma AppendColumn_grows headers format grid rows build :
  grid_inv grid rows →
  (Z.of_nat (length (Grid.Columns grid)) + 1 < 2 ^ 30)%Z →
  ∃ grid' rows',
    AppendColumn Sprintf range headers format grid rows build
    = Some (grid', rows')
    ∧ grid_inv grid' rows'
    ∧ (∀ p r, Grid.Rows grid !! p = Some r →
         ∃ r' br,
           Grid.Rows grid' !! p = Some r' ∧ row_extended r r' [br]
           ∧ (br = noResult ∨ ∃ target, record_of build target br))
    ∧ (∀ p r', length (Grid.Rows grid) ≤ p → Grid.Rows grid' !! p = Some r' →
         ∃ br,
           record_of build (state.Row.Id r') br
           ∧ row_extended (new_row (state.Row.Name r') (state.Row.Id r')) r'
               (replicate (length (Grid.Columns grid)) noResult ++ [br])).
Proof.
  intros [Hidx Hrows] Hmax.
  destruct (AppendColumn_spec Sprintf range range_once headers format grid rows
              build (conj Hidx Hrows) Hmax)
    as (grid' & rows' & Hret & Hinv' & Hcols').
  exists grid', rows'. split; [done|]. split; [done|].
  unfold AppendColumn in Hret. cbv zeta in Hret.
  assert (length (Grid.Columns grid ++ [column_record headers build])
          = S (length (Grid.Columns grid)))
    as Hlen by (rewrite length_app; simpl; lia).
  rewrite Hlen in Hret.
  set (n := S (length (Grid.Columns grid))) in *.
  assert (1 <= Z.of_nat n < 2 ^ 30)%Z as Hn by lia.
  destruct (foldM_inv
              (append_target Sprintf range format build n)
              (λ st, assembly_inv (Z.of_nat n) st
                     ∧ assembly_grows build n (Grid.Rows grid) st)
              (range _ (Column.Rows build))
              (Assembly.mk (Grid.Rows grid) rows rows ∅))
    as (st & Hst & (Hidx' & Hsub & Hfound & Hrows') & Hold & Hnew & Hmiss).
  { intros st1 [target results] Hentry%(range_lookup range range_once) [Hinv1 Hgrows1].
    destruct (append_target_grows build (Grid.Rows grid) format n st1
                (target, results)) as (st2 & Hst2 & Hinv2 & Hgrows2); [done..|].
    by exists st2. }
  { split.
    - split; [done|]. split; [done|]. split; [simpl; congruence|].
      simpl. intros p r Hr. rewrite (proj1 Hidx p r Hr).
      replace (Z.of_nat n - 1)%Z with (Z.of_nat (length (Grid.Columns grid))) by lia.
      rewrite Forall_lookup in Hrows. by eapply Hrows.
    - split; [|split]; simpl.
      + intros p r Hr. exists r, []. split; [done|].
        split; [apply row_extended_refl | constructor].
      + intros p r' Hp Hr'. apply lookup_lt_Some in Hr'. lia.
      + intros name p Hp. destruct (proj2 Hidx name p Hp) as (r & Hr & _).
        by eapply lookup_lt_Some. }
  rewrite Hst in Hret. cbn [mbind option_bind] in Hret.
  apply bind_Some in Hret as (grid_rows & Hfold & [= <- <-]).
  destruct (append_missing_grows (Z.of_nat n) (range _ (Assembly.missing st))
              (Assembly.grid_rows st) (Assembly.rows st)
              (length (Grid.Rows grid)) Hn)
    with (grid_rows' := grid_rows) as [Hext Hsame];
    [apply (range_NoDup range range_once) | done | | | | done |].
  { intros name p Hin%(range_lookup range range_once). by apply Hsub. }
  { intros p r Hr. specialize (Hrows' p r Hr).
    destruct (Assembly.missing st !! state.Row.Name r) as [q|] eqn:Hq.
    - rewrite decide_True; [done|]. apply list_elem_of_fmap.
      exists (state.Row.Name r, q). split; [done|]. by apply (range_lookup range range_once).
    - rewrite decide_False; [done|]. intros [[nm q] [Hnm Hin]]%list_elem_of_fmap.
      apply (range_lookup range range_once) in Hin. simpl in Hnm. congruence. }
  { intros name p Hin%(range_lookup range range_once). eauto. }
  cbn [Grid.Rows]. split.
  - intros p r Hr.
    destruct (Hold p r Hr) as (r1 & brs1 & Hr1 & Hext1 & Hbrs1).
    destruct (Hext p r1 Hr1) as (r2 & brs2 & Hr2 & Hext2 & Hbrs2).
    pose proof (row_extended_trans _ _ _ _ _ Hext1 Hext2) as Hext12.
    destruct (row_extended_one (Z.of_nat n) r r2 (brs1 ++ brs2)) as [br Hbr];
      [| | done |].
    { replace (Z.of_nat n - 1)%Z with (Z.of_nat (length (Grid.Columns grid))) by lia.
      rewrite Forall_lookup in Hrows. by eapply Hrows. }
    { destruct Hinv' as [_ Hall]. rewrite Forall_lookup in Hall.
      specialize (Hall p r2 Hr2). simpl in Hall. by rewrite Hlen in Hall. }
    exists r2, br. rewrite <- Hbr. split; [done|]. split; [done|].
    assert (Forall (λ br, br = noResult ∨ ∃ target, record_of build target br)
              (brs1 ++ brs2)) as Hboth.
    { apply Forall_app. split; [done|].
      eapply Forall_impl; [exact Hbrs2|]. intros ? ->. by left. }
    rewrite Hbr, Forall_singleton in Hboth. exact Hboth.
  - intros p r' Hp Hr'. rewrite Hsame in Hr' by done.
    destruct (Hnew p r' Hp Hr') as [_ Hbr].
    by replace (length (Grid.Columns grid)) with (n - 1) by lia.
Qed.

(** X7. [AppendColumn] returns on a grid that it has built, and every row
    that the grid had is then still at its place, with its name, its id and
    its earlier cells, cell ids, messages, icons and metric values; it has
    exactly one more cell, which is empty or holds one of the build's
    records, a message and an icon more only when that cell holds a
    result, and for every metric the value that the record has for it. *)
Theorem AppendColumn_keeps_rows headers format grid rows build :
  grid_inv grid rows →
  (Z.of_nat (length (Grid.Columns grid)) + 1 < 2 ^ 30)%Z →
  ∃ grid' rows',
    AppendColumn Sprintf range headers format grid rows build
    = Some (grid', rows')
    ∧ ∀ p r, Grid.Rows grid !! p = Some r →
        ∃ r' br,
          Grid.Rows grid' !! p = Some r' ∧ row_extended r r' [br]
          ∧ (br = noResult ∨ ∃ target, record_of build target br).
Proof.
  intros Hinv Hmax.
  destruct (AppendColumn_grows headers format grid rows build Hinv Hmax)
    as (grid' & rows' & Hret & _ & Hold & _).
  by exists grid', rows'.
Qed.

(** X8. Every row that [AppendColumn] adds to the grid comes after the
    rows the grid had; it has an empty cell for each column the grid had
    and then one cell with a record of the build, found under the key that
    is the row's id, and no cell id, message, icon or metric value besides
    those of these cells. *)
Theorem AppendColumn_new_rows headers format grid rows build :
  grid_inv grid rows →
  (Z.of_nat (length (Grid.Columns grid)) + 1 < 2 ^ 30)%Z →
  ∃ grid' rows',
    AppendColumn Sprintf range headers format grid rows build
    = Some (grid', rows')
    ∧ ∀ p r', length (Grid.Rows grid) ≤ p → Grid.Rows grid' !! p = Some r' →
        ∃ br,
          record_of build (state.Row.Id r') br
          ∧ row_extended (new_row (state.Row.Name r') (state.Row.Id r')) r'
              (replicate (length (Grid.Columns grid)) noResult ++ [br]).
Proof.
  intros Hinv Hmax.
  destruct (AppendColumn_grows headers format grid rows build Hinv Hmax)
    as (grid' & rows' & Hret & _ & _ & Hnew).
  by exists grid', rows'.
Qed.

End Growth.

Lemma example_grid_inv : grid_inv example_grid example_rows.
Proof.
  split; [split|].
  - intros p r Hr. destruct p as [|[|p]]; simpl in Hr; [| |done];
      injection Hr as <-; by vm_compute.
  - intros name p Hp. unfold example_rows in Hp.
    apply lookup_insert_Some in Hp as [[<- <-]|[_ Hp]]; [by eexists|].
    apply lookup_singleton_Some in Hp as [<- <-]. by eexists.
  - repeat apply Forall_cons_2; [| |apply Forall_nil_2];
      unfold row_ok; simpl; repeat split; try done; try lia; constructor.
Qed.

Lemma AppendColumn_keeps_rows_witness :
  ∃ grid' rows',
    AppendColumn Sprintf_plain range_any [] defaultNameConfig example_grid
      example_rows example_b1
    = Some (grid', rows')
    ∧ ∀ p r, Grid.Rows example_grid !! p = Some r →
        ∃ r' br,
          Grid.Rows grid' !! p = Some r' ∧ row_extended r r' [br]
          ∧ (br = noResult ∨ ∃ target, record_of example_b1 target br).
Proof.
  apply (AppendColumn_keeps_rows Sprintf_plain range_any range_any_visits_once
           [] defaultNameConfig example_grid example_rows example_b1
           example_grid_inv).
  simpl. lia.
Defined.

Lemma AppendColumn_new_rows_witness :
  ∃ grid' rows',
    AppendColumn Sprintf_plain range_any [] defaultNameConfig example_grid
      example_rows example_twice
    = Some (grid', rows')
    ∧ ∀ p r', length (Grid.Rows example_grid) ≤ p →
        Grid.Rows grid' !! p = Some r' →
        ∃ br,
          record_of example_twice (state.Row.Id r') br
          ∧ row_extended (new_row (state.Row.Name r') (state.Row.Id r')) r'
              (replicate (length (Grid.Columns example_grid)) noResult ++ [br]).
Proof.
  apply (AppendColumn_new_rows Sprintf_plain range_any range_any_visits_once
           [] defaultNameConfig example_grid example_rows example_twice
           example_grid_inv).
  simpl. lia.
Defined.

(** ** The names in the grid that [ReadBuilds] assembles *)

Lemma rows_index_NoDup grid_rows rows :
  rows_index grid_rows rows → NoDup (state.Row.Name <$> grid_rows).
Proof.
  intros [Hrows _]. apply NoDup_alt. intros i j name Hi Hj.
  rewrite list_lookup_fmap in Hi, Hj.
  destruct (grid_rows !! i) as [ri|] eqn:Hri; [|done].
  destruct (grid_rows !! j) as [rj|] eqn:Hrj; [|done].
  simpl in Hi, Hj. apply Hrows in Hri, Hrj. congruence.
Qed.

Section Names.

Variable Sprintf : string → list string → string.
Variable range : ∀ V : Type, gmap string V → list (string * V).
Variable sort_Stable : list state.Row.t → list state.Row.t.
Hypothesis range_once : range_visits_once range.
Hypothesis sort_Stable_perm : ∀ l, sort_Stable l ≡ₚ l.

(** X9. In a grid that [ReadBuilds] assembles no two rows have the same
    name, and no row has two metrics of the same name. *)
Theorem emitted_rows_distinct h nc now dur interrupted cols grid :
  (Z.of_nat (length cols) < 2 ^ 30)%Z →
  ReadBuilds_grid Sprintf range sort_Stable h nc now dur interrupted cols
  = Some (inr grid) →
  NoDup (state.Row.Name <$> Grid.Rows grid)
  ∧ Forall (λ r, NoDup (state.Metric.Name <$> state.Row.Metrics r))
      (Grid.Rows grid).
Proof.
  intros Hmax. unfold ReadBuilds_grid.
  destruct (append_columns_inv Sprintf range range_once h nc
              (stop_Unix now dur) interrupted cols 0
              (Grid.mk [] []) ∅ (grid_inv_empty))
    as (res & -> & _ & Hinv); [simpl; lia|].
  cbn [mbind option_bind]. destruct res as [err|grid1]; [done|].
  intros [= <-]. cbn [Grid.Rows].
  destruct (Hinv grid1 eq_refl) as (rows' & Hidx & Hrows).
  rewrite sort_Stable_perm. split; [by eapply rows_index_NoDup|].
  eapply Forall_impl; [exact Hrows|].
  by intros r (_ & _ & _ & _ & _ & Hnodup & _).
Qed.

End Names.

Lemma emitted_rows_distinct_witness :
  ∃ grid,
    ReadBuilds_grid Sprintf_plain range_any id [] defaultNameConfig 0 0
      (λ _, false) [Some example_b2; Some example_twice]
    = Some (inr grid)
    ∧ NoDup (state.Row.Name <$> Grid.Rows grid)
    ∧ Forall (λ r, NoDup (state.Metric.Name <$> state.Row.Metrics r))
        (Grid.Rows grid).
Proof.
  eexists. split; [vm_compute; reflexivity|].
  apply (emitted_rows_distinct Sprintf_plain range_any id range_any_visits_once
           (λ l, reflexivity l) [] defaultNameConfig 0 0 (λ _, false)
           [Some example_b2; Some example_twice]);
    [simpl; lia | vm_compute; reflexivity].
Defined.

(** ** What [ReadBuild] returns *)

Lemma Contains_char_true s c :
  c ∈ list_ascii_of_string s → strings.Contains s (String c "") = true.
Proof.
  intros Hs. unfold strings.Contains. apply bool_decide_eq_true_2.
  induction s as [|a s IH]; simpl in Hs; [by apply elem_of_nil in Hs|].
  cbn [strings.Index]. rewrite prefix_char.
  destruct (decide (c = a)) as [->|Hne].
  - by rewrite bool_decide_eq_true_2.
  - rewrite bool_decide_eq_false_2 by done.
    apply elem_of_cons in Hs as [?|Hs]; [done|].
    destruct (IH Hs) as [i ->]. by eexists.
Qed.

Lemma strip_trailing_slashes_last s c :
  c ≠ "/"%char →
  path.strip_trailing_slashes (s +:+ String c "") = s +:+ String c "".
Proof.
  intros Hc. induction s as [|a s IH].
  - rewrite string_app_nil_l. simpl. rewrite decide_False; [done|].
    by intros [_ ?].
  - rewrite string_app_cons. cbn [path.strip_trailing_slashes]. cbv zeta.
    rewrite IH. rewrite decide_False; [done|].
    intros [Hnil _]. by destruct s.
Qed.

Lemma strip_trailing_slashes_slash s :
  path.strip_trailing_slashes (s +:+ "/") = path.strip_trailing_slashes s.
Proof.
  induction s as [|a s IH]; [done|].
  rewrite string_app_cons. cbn [path.strip_trailing_slashes]. cbv zeta.
  by rewrite IH.
Qed.

Lemma after_last_slash_app dir id :
  "/"%char ∉ list_ascii_of_string id →
  path.after_last_slash (dir +:+ String "/" id) = id.
Proof.
  intros Hid. induction dir as [|a dir IH].
  - rewrite string_app_nil_l. cbn [path.after_last_slash].
    rewrite (Contains_char_false id "/" Hid). by rewrite decide_True.
  - rewrite string_app_cons. cbn [path.after_last_slash].
    rewrite (Contains_char_true _ "/"); [done|].
    rewrite bytes_app. apply elem_of_app. right. simpl. by left.
Qed.

Lemma string_last_byte s :
  s ≠ ""%string → ∃ s' c, s = s' +:+ String c "" ∧ c ∈ list_ascii_of_string s.
Proof.
  induction s as [|a s IH]; [done|]. intros _.
  destruct s as [|b s].
  - exists "", a. split; [done|]. simpl. by left.
  - destruct IH as (s' & c & Heq & Hc); [done|].
    exists (String a s'), c. rewrite string_app_cons, <- Heq.
    split; [done|]. simpl. right. exact Hc.
Qed.

Lemma Base_build dir id :
  id ≠ ""%string → "/"%char ∉ list_ascii_of_string id →
  path.Base (dir +:+ String "/" id +:+ "/") = id.
Proof.
  intros Hne Hid. unfold path.Base.
  rewrite decide_False by (destruct dir; discriminate).
  cbv zeta.
  replace (dir +:+ String "/" id +:+ "/") with ((dir +:+ String "/" id) +:+ "/")
    by (by rewrite string_app_assoc, string_app_cons).
  rewrite strip_trailing_slashes_slash.
  destruct (string_last_byte id Hne) as (id' & c & Heq & Hc).
  assert (c ≠ "/"%char) as Hc' by (by intros ->).
  replace (dir +:+ String "/" id) with ((dir +:+ String "/" id') +:+ String c "")
    by (by rewrite string_app_assoc, string_app_cons, <- Heq).
  rewrite strip_trailing_slashes_last by done.
  replace ((dir +:+ String "/" id') +:+ String c "") with (dir +:+ String "/" id)
    by (by rewrite string_app_assoc, string_app_cons, <- Heq).
  rewrite after_last_slash_app by done. by rewrite decide_False.
Qed.

(** X10. The [Id] of every column that [ReadBuild] returns for a build
    stored under [dir/id/] is [id]. *)
Theorem ReadBuild_Id range now dir id evs sel rows col :
  id ≠ ""%string → "/"%char ∉ list_ascii_of_string id →
  ReadBuild range now (dir +:+ String "/" id +:+ "/") evs sel rows
  = Some (inr col) →
  Column.Id col = id.
Proof.
  intros Hne Hid. unfold ReadBuild. intros Hret.
  apply bind_Some in Hret as ([err|[started finished]] & _ & Hret); [done|].
  cbv zeta in Hret. rewrite Base_build in Hret by done.
  destruct (Finished.running finished); [by injection Hret as <-|].
  destruct sel as [|[err|]]; [done..|].
  apply bind_Some in Hret as (br_rows & _ & [= <-]). done.
Qed.

Lemma ReadBuild_Id_witness :
  Column.Id
    (Column.mk "7" 3600 0 false
       {[ "Overall"%string :=
            [Row.mk state.Row_RUNNING ∅
               {[ "Tests name"%string := "Overall"%string ]}
               "Still running; has not finished..." "R"] ]}
       ∅)
  = "7"%string.
Proof.
  apply (ReadBuild_Id range_any 1000000 "logs/job" "7"
           [FromSc example_started; FromFc example_running] CtxDone
           example_junit_rows).
  - discriminate.
  - apply not_in_bytes. reflexivity.
  - vm_compute. reflexivity.
Defined.

Section FinishedBuild.

Variable range : ∀ V : Type, gmap string V → list (string * V).
Hypothesis range_once : range_visits_once range.


End FinishedBuild.


(** X12. When a task reports an error before [started.json] and
    [finished.json] have both been received, [ReadBuild] returns that
    error and no column, whatever is delivered afterwards. *)
Theorem ReadBuild_error_first range now prefix pre err post sel rows :
  (∀ e, FromEc (Some e) ∉ pre) →
  (∀ s, FromSc s ∉ pre) ∨ (∀ f, FromFc f ∉ pre) →
  ReadBuild range now prefix (pre ++ FromEc (Some err) :: post) sel rows
  = Some (inl (FailedToRead err)).
Proof.
  intros Hpre Hlack. unfold ReadBuild.
  rewrite (wait_started_finished_error pre err post None None Hpre); [done|].
  destruct Hlack; [by left | by right].
Qed.

Lemma ReadBuild_error_first_witness :
  ReadBuild range_any 1000000 "logs/job/7/"
    ([FromSc example_started] ++ FromEc (Some "could not decode finished.json"%string)
       :: [FromFc example_failed]) (Ec None) example_junit_rows
  = Some (inl (FailedToRead "could not decode finished.json")).
Proof.
  apply (ReadBuild_error_first range_any 1000000 "logs/job/7/"
           [FromSc example_started] "could not decode finished.json"
           [FromFc example_failed] (Ec None) example_junit_rows).
  - intros e He. apply list_elem_of_singleton in He. discriminate He.
  - right. intros f Hf. apply list_elem_of_singleton in Hf. discriminate Hf.
Defined.

(** ** The rows that [extractRows] makes of an artifact *)

Lemma foldl_insert_lookup (l : list (string * string)) (md : gmap string string) k :
  NoDup l.*1 →
  foldl (λ md (kv : string * string), <[kv.1 := kv.2]> md) md l !! k
  = match (list_to_map l : gmap string string) !! k with
    | Some v => Some v
    | None => md !! k
    end.
Proof.
  revert md. induction l as [|[k' v'] l IH]; intros md Hkeys; [done|].
  rewrite fmap_cons in Hkeys. apply NoDup_cons in Hkeys as [Hk Hkeys].
  cbn [foldl list_to_map foldr fst snd uncurry]. rewrite IH by done.
  destruct (decide (k = k')) as [->|Hne].
  - rewrite (not_elem_of_list_to_map_1 _ k') by done.
    by rewrite !lookup_insert_eq.
  - rewrite !(lookup_insert_ne _ k' k) by done. done.
Qed.

Section Extraction.

Variable range : ∀ V : Type, gmap string V → list (string * V).
Hypothesis range_once : range_visits_once range.
Variable unmarshal_suites : string → string + list JunitSuite.t.
Variable unmarshal_suite : string → string + JunitSuite.t.

Lemma meta_wins (meta md : gmap string string) :
  foldl (λ md (kv : string * string), <[kv.1 := kv.2]> md) md (range _ meta)
  = meta ∪ md.
Proof.
  apply map_eq. intros k.
  rewrite foldl_insert_lookup by apply (range_NoDup range range_once).
  replace (list_to_map (range string meta)) with meta.
  - rewrite lookup_union. by destruct (meta !! k), (md !! k).
  - rewrite (list_to_map_proper _ (map_to_list meta));
      [by rewrite list_to_map_to_list
      | apply (range_NoDup range range_once) | apply range_once].
Qed.

Lemma extract_cases_lookup meta (cases : list (string * JunitResult.t))
    (rows : gmap string (list Row.t)) n :
  foldl (λ rows c, extract_case range meta c.1 rows c.2) rows cases !! n
  = match rows !! n with
    | Some l => Some (l ++ rows_called meta n cases)
    | None =>
        if decide (rows_called meta n cases = []) then None
        else Some (rows_called meta n cases)
    end.
Proof.
  revert rows. induction cases as [|[suite sr] cases IH]; intros rows.
  - simpl. destruct (rows !! n); [by rewrite app_nil_r | done].
  - cbn [foldl fst snd]. rewrite IH. unfold rows_called, extract_case.
    destruct (skipped_empty sr) eqn:Hskip.
    { rewrite filter_cons_False; [done|]. simpl. rewrite Hskip. by intros [? _]. }
    destruct (JunitResult_Row sr suite) as [n' r] eqn:Hrow.
    rewrite meta_wins.
    assert (case_row meta (suite, sr)
            = Row.mk (Row.Result r) (Row.Metrics r) (meta ∪ Row.Metadata r)
                (Row.Message r) (Row.Icon r)) as Hcase
      by (unfold case_row; simpl; by rewrite Hrow).
    destruct (decide (n' = n)) as [->|Hne].
    + rewrite filter_cons_True by (simpl; by rewrite Hskip, Hrow).
      rewrite lookup_insert_eq, fmap_cons, Hcase.
      destruct (rows !! n) as [l|]; simpl; [by rewrite <- app_assoc | done].
    + rewrite filter_cons_False by (simpl; rewrite Hrow; by intros [_ ?]).
      by rewrite lookup_insert_ne.
Qed.

Lemma extract_suites_cases suites meta :
  extract_suites range suites meta
  = foldl (λ rows c, extract_case range meta c.1 rows c.2) ∅ (suite_cases suites).
Proof.
  unfold extract_suites, suite_cases. generalize (∅ : gmap string (list Row.t)).
  induction suites as [|suite suites IH]; intros rows; [done|].
  cbn [foldl mbind list_bind]. rewrite foldl_app, <- IH. f_equal.
  generalize (JunitSuite.Results suite). clear. intros rs. revert rows.
  induction rs as [|sr rs IH]; intros rows; [done|]. simpl. by rewrite IH.
Qed.

(** X13. [extractRows] fails only when the artifact decodes neither as
    <testsuites> nor as a single <testsuite>. Otherwise the rows it
    returns under a name are those of the test cases with that qualified
    name, in the order of the document, without the cases that are
    skipped with an empty text; each row carries the metadata of the
    artifact, which replaces the row's own entry of the same key. A name
    without such a case is no key of the result. *)
Theorem extractRows_groups (buf : string) (meta : gmap string string) :
  match extractRows range unmarshal_suites unmarshal_suite buf meta with
  | inl (NotValid err ie) =>
      unmarshal_suites buf = inl err ∧ unmarshal_suite buf = inl ie
  | inr rows =>
      ∃ suites,
        (unmarshal_suites buf = inr suites
         ∨ ∃ err suite, unmarshal_suites buf = inl err
                        ∧ unmarshal_suite buf = inr suite ∧ suites = [suite])
        ∧ ∀ n,
            rows !! n
            = if decide (rows_called meta n (suite_cases suites) = []) then None
              else Some (rows_called meta n (suite_cases suites))
  end.
Proof.
  unfold extractRows.
  destruct (unmarshal_suites buf) as [err|suites].
  - destruct (unmarshal_suite buf) as [ie|suite]; [done|].
    exists [suite]. split; [right; by exists err, suite|].
    intros n. by rewrite extract_suites_cases, extract_cases_lookup, lookup_empty.
  - exists suites. split; [by left|].
    intros n. by rewrite extract_suites_cases, extract_cases_lookup, lookup_empty.
Qed.

End Extraction.

Lemma extractRows_groups_witness :
  match extractRows range_any example_unmarshal_suites example_unmarshal_suite
          "<testsuite/>" {[ "Context"%string := "e2e"%string ]} with
  | inl (NotValid err ie) =>
      example_unmarshal_suites "<testsuite/>" = inl err
      ∧ example_unmarshal_suite "<testsuite/>" = inl ie
  | inr rows =>
      ∃ suites,
        (example_unmarshal_suites "<testsuite/>" = inr suites
         ∨ ∃ err suite, example_unmarshal_suites "<testsuite/>" = inl err
                        ∧ example_unmarshal_suite "<testsuite/>" = inr suite
                        ∧ suites = [suite])
        ∧ ∀ n,
            rows !! n
            = if decide (rows_called {[ "Context"%string := "e2e"%string ]} n
                           (suite_cases suites) = [])
              then None
              else Some (rows_called {[ "Context"%string := "e2e"%string ]} n
                           (suite_cases suites))
  end.
Proof.
  exact (extractRows_groups range_any range_any_visits_once
           example_unmarshal_suites example_unmarshal_suite
           "<testsuite/>" {[ "Context"%string := "e2e"%string ]}).
Defined.

(** ** The row of a test case *)

Lemma Message_length jr : String.length (JunitResult.Message jr) ≤ 144.
Proof.
  unfold JunitResult.Message. cbv zeta.
  remember (JunitResult.text jr) as msg eqn:Hmsg. clear Hmsg.
  destruct (decide (140 = 0 ∨ String.length msg ≤ 140)) as [[?|?]|Hlong]; [lia..|].
  change (140 / 2) with 70.
  destruct (slice_split (String.length msg - 70 - 1) msg)
    as (front & tail & Heq & Hfront & _ & ->); [lia|].
  pose proof (slice_to_length 70 msg) as Hhead.
  apply (f_equal String.length) in Heq. rewrite string_length_app in Heq.
  rewrite !string_length_app. simpl. lia.
Qed.

Section CaseRow.

Variable Sprintf : string → list string → string.
Hypothesis Sprintf_s : ∀ v, Sprintf "%s" [v] = v.

(** X14. The row that [extractRows] makes of a test case, under the
    default name configuration and with artifact metadata that has no
    "Tests name" entry: [Row.Format] names it [suite.name], or [name] for
    a suite without a name; its result is FAIL exactly when the case has a
    failure element, PASS_WITH_SKIPS exactly when it has a skipped element
    and no failure, and PASS otherwise; it has an icon only together
    with a message, and the message is at most 144 bytes long. *)
Theorem case_row_shape (meta bm : gmap string string) (suite : string)
    (jr : JunitResult.t) :
  meta !! "Tests name"%string = None →
  let r := case_row meta (suite, jr) in
  Row_Format Sprintf r defaultNameConfig bm
  = (if decide (suite = ""%string) then JunitResult.Name jr
     else suite +:+ "." +:+ JunitResult.Name jr)
  ∧ (Row.Result r = state.Row_FAIL ↔ JunitResult.Failure jr ≠ None)
  ∧ (Row.Result r = state.Row_PASS_WITH_SKIPS
     ↔ JunitResult.Failure jr = None ∧ JunitResult.Skipped jr ≠ None)
  ∧ (Row.Result r = state.Row_PASS
     ↔ JunitResult.Failure jr = None ∧ JunitResult.Skipped jr = None)
  ∧ (Row.Icon r ≠ ""%string → Row.Message r ≠ ""%string)
  ∧ Row.Message r = JunitResult.Message jr
  ∧ String.length (Row.Message r) ≤ 144.
Proof.
  intros Hmeta r. subst r. unfold case_row, JunitResult_Row. cbv zeta.
  cbn [fst snd].
  assert ((let msg := JunitResult.Message jr in
           if decide (msg ≠ ""%string) then msg else ""%string)
          = JunitResult.Message jr) as Hmsg.
  { cbv zeta. destruct (decide (JunitResult.Message jr ≠ ""%string)) as [|Heq];
      [done|]. by apply dec_stable in Heq. }
  cbv zeta in Hmsg. rewrite Hmsg.
  pose proof (Message_length jr) as Hlen.
  split.
  { unfold Row_Format, defaultNameConfig. cbn [NameConfig.parts NameConfig.format].
    rewrite fmap_cons, fmap_nil.
    assert (∀ result metrics md message icon (n : string),
              md = {[ "Tests name"%string := n ]} →
              Row.Metadata
                (Row.mk result metrics (meta ∪ md) message icon)
                !! "Tests name"%string = Some n) as Hname.
    { intros ? ? md ? ? n ->. cbn [Row.Metadata].
      by rewrite lookup_union_r, lookup_singleton_eq. }
    destruct (JunitResult.Failure jr), (JunitResult.Skipped jr);
      cbn [snd Row.Result Row.Metrics Row.Metadata Row.Message Row.Icon];
      (rewrite lookup_union_r, lookup_singleton_eq by done);
      rewrite Sprintf_s;
      by destruct (decide (suite = ""%string)) as [->|Hne];
        [rewrite decide_False by (by intros ?) | rewrite decide_True by done]. }
  destruct (JunitResult.Failure jr), (JunitResult.Skipped jr);
    cbn [snd Row.Result Row.Message Row.Icon];
    repeat split; try done; try (intros [? ?]; done); try (by intros ?);
    by destruct (decide (JunitResult.Message jr ≠ ""%string)).
Qed.

End CaseRow.

Lemma Sprintf_plain_s v : Sprintf_plain "%s" [v] = v.
Proof. simpl. apply string_app_nil_r. Qed.

Lemma case_row_shape_witness :
  let r := case_row {[ "Context"%string := "e2e"%string ]} ("pkg"%string, example_case) in
  Row_Format Sprintf_plain r defaultNameConfig ∅
  = (if decide ("pkg"%string = ""%string) then JunitResult.Name example_case
     else "pkg" +:+ "." +:+ JunitResult.Name example_case)
  ∧ (Row.Result r = state.Row_FAIL ↔ JunitResult.Failure example_case ≠ None)
  ∧ (Row.Result r = state.Row_PASS_WITH_SKIPS
     ↔ JunitResult.Failure example_case = None
       ∧ JunitResult.Skipped example_case ≠ None)
  ∧ (Row.Result r = state.Row_PASS
     ↔ JunitResult.Failure example_case = None
       ∧ JunitResult.Skipped example_case = None)
  ∧ (Row.Icon r ≠ ""%string → Row.Message r ≠ ""%string)
  ∧ Row.Message r = JunitResult.Message example_case
  ∧ String.length (Row.Message r) ≤ 144.
Proof.
  apply (case_row_shape Sprintf_plain Sprintf_plain_s
           {[ "Context"%string := "e2e"%string ]} ∅ "pkg" example_case).
  vm_compute. reflexivity.
Defined.

(** ** The metadata of a column *)

Lemma foldl_strings_lookup (l : list (string * json)) (bm : gmap string string) k :
  NoDup l.*1 →
  foldl (λ (bm : gmap string string) (kv : string * json),
           match kv.2 with
           | JString s => <[kv.1 := s]> bm
           | _ => bm
           end) bm l !! k
  = match (list_to_map l : gmap string json) !! k with
    | Some (JString s) => Some s
    | _ => bm !! k
    end.
Proof.
  revert bm. induction l as [|[k' v'] l IH]; intros bm Hkeys; [done|].
  rewrite fmap_cons in Hkeys. apply NoDup_cons in Hkeys as [Hk Hkeys].
  cbn [foldl list_to_map foldr fst snd uncurry]. rewrite IH by done.
  destruct (decide (k = k')) as [->|Hne].
  - rewrite (not_elem_of_list_to_map_1 _ k') by done.
    rewrite lookup_insert_eq. destruct v'; by rewrite ?lookup_insert_eq.
  - rewrite (lookup_insert_ne _ k' k) by done.
    destruct (list_to_map l !! k) as [[]|]; try done;
      destruct v'; by rewrite ?lookup_insert_ne.
Qed.

(** X15. In whatever order the loop of [ColumnMetadata] visits the
    metadata of [finished.json], the result holds exactly the entries
    whose value is a string, each with that string: under every key it has
    what [Metadata.String] returns for the key. *)
Theorem ColumnMetadata_strings
    (range : ∀ V : Type, gmap string V → list (string * V))
    (m : gmap string json) :
  range_visits_once range →
  ColumnMetadata_loop range m = ColumnMetadata m
  ∧ ∀ k, ColumnMetadata_loop range m !! k = (Metadata_String m k).1.
Proof.
  intros range_once.
  assert (∀ k, ColumnMetadata_loop range m !! k = (Metadata_String m k).1) as Hk.
  { intros k. unfold ColumnMetadata_loop, Metadata_String.
    rewrite foldl_strings_lookup by apply (range_NoDup range range_once).
    replace (list_to_map (range json m)) with m.
    - rewrite lookup_empty. by destruct (m !! k) as [[]|].
    - rewrite (list_to_map_proper _ (map_to_list m));
        [by rewrite list_to_map_to_list
        | apply (range_NoDup range range_once) | apply range_once]. }
  split; [|done]. apply map_eq. intros k. rewrite Hk.
  unfold ColumnMetadata, Metadata_String. rewrite lookup_omap.
  by destruct (m !! k) as [[]|].
Qed.

Lemma ColumnMetadata_strings_witness :
  ColumnMetadata_loop range_any
    (<[ "passed"%string := JBool true ]> {[ "repo-commit"%string := JString "abc" ]})
  = ColumnMetadata
      (<[ "passed"%string := JBool true ]> {[ "repo-commit"%string := JString "abc" ]})
  ∧ ∀ k,
      ColumnMetadata_loop range_any
        (<[ "passed"%string := JBool true ]>
           {[ "repo-commit"%string := JString "abc" ]}) !! k
      = (Metadata_String
           (<[ "passed"%string := JBool true ]>
              {[ "repo-commit"%string := JString "abc" ]}) k).1.
Proof.
  exact (ColumnMetadata_strings range_any
           (<[ "passed"%string := JBool true ]>
              {[ "repo-commit"%string := JString "abc" ]})
           range_any_visits_once).
Defined.

(** ** Options, listings and groups *)

(** X16. [validate] refuses options whose [--config] was never set and
    options whose bucket is k8s-testgrid, and leaves them as they are;
    it accepts all others, and then both concurrency settings are not
    zero: a setting the user gave is kept, a setting of zero becomes four
    times the number of CPUs; nothing else changes. *)
Theorem validate_spec (NumCPU : Z) (o : options.t) :
  (1 <= NumCPU < 2 ^ 61)%Z →
  let o' := (options.validate NumCPU o).1 in
  let err := (options.validate NumCPU o).2 in
  (options.config o = gcsPath_zero → err = Some options.EmptyConfig)
  ∧ (gcsPath.bucket (options.config o) = "k8s-testgrid"%string → err ≠ None)
  ∧ (err = None
     ↔ gcsPath.String_ (options.config o) ≠ ""%string
       ∧ gcsPath.bucket (options.config o) ≠ "k8s-testgrid"%string)
  ∧ (err ≠ None → o' = o)
  ∧ (err = None →
     options.groupConcurrency o' ≠ 0%Z
     ∧ options.buildConcurrency o' ≠ 0%Z
     ∧ options.groupConcurrency o'
       = (if decide (options.groupConcurrency o = 0%Z) then 4 * NumCPU
          else options.groupConcurrency o)%Z
     ∧ options.buildConcurrency o'
       = (if decide (options.buildConcurrency o = 0%Z) then 4 * NumCPU
          else options.buildConcurrency o)%Z
     ∧ options.config o' = options.config o
     ∧ options.creds o' = options.creds o
     ∧ options.confirm o' = options.confirm o
     ∧ options.group o' = options.group o).
Proof.
  intros Hcpu o' err. subst o' err. unfold options.validate.
  assert (Go.int64 (4 * NumCPU) = (4 * NumCPU)%Z) as Hint
    by (apply int64_small; unfold Go.in_int64; lia).
  rewrite Hint. cbv zeta.
  split.
  { intros ->. by rewrite decide_True by (by vm_compute). }
  destruct (decide (gcsPath.String_ (options.config o) = ""%string)) as [Hs|Hs].
  { cbn [fst snd]. repeat split; try done. by intros [? _]. }
  destruct (decide (gcsPath.bucket (options.config o) = "k8s-testgrid"%string))
    as [Hb|Hb].
  { cbn [fst snd]. repeat split; try done. by intros [_ ?]. }
  cbn [fst snd]. split; [done|]. split; [done|]. split; [done|]. intros _.
  destruct (decide (options.groupConcurrency o = 0%Z)) as [Hg|Hg];
    cbn [options.buildConcurrency options.groupConcurrency];
    destruct (decide (options.buildConcurrency o = 0%Z)) as [Hc|Hc];
    cbn [options.buildConcurrency options.groupConcurrency options.config
           options.creds options.confirm options.group];
    repeat split; try done; lia.
Qed.

Lemma validate_spec_witness :
  let o := options.mk (gcsPath.mk (url.mkURL "gs" "" None "b" "/config" "" false "" ""))
             "" false "" 0 8 in
  let o' := (options.validate 2 o).1 in
  let err := (options.validate 2 o).2 in
  (options.config o = gcsPath_zero → err = Some options.EmptyConfig)
  ∧ (gcsPath.bucket (options.config o) = "k8s-testgrid"%string → err ≠ None)
  ∧ (err = None
     ↔ gcsPath.String_ (options.config o) ≠ ""%string
       ∧ gcsPath.bucket (options.config o) ≠ "k8s-testgrid"%string)
  ∧ (err ≠ None → o' = o)
  ∧ (err = None →
     options.groupConcurrency o' ≠ 0%Z
     ∧ options.buildConcurrency o' ≠ 0%Z
     ∧ options.groupConcurrency o'
       = (if decide (options.groupConcurrency o = 0%Z) then 4 * 2
          else options.groupConcurrency o)%Z
     ∧ options.buildConcurrency o'
       = (if decide (options.buildConcurrency o = 0%Z) then 4 * 2
          else options.buildConcurrency o)%Z
     ∧ options.config o' = options.config o
     ∧ options.creds o' = options.creds o
     ∧ options.confirm o' = options.confirm o
     ∧ options.group o' = options.group o).
Proof.
  intros o.
  apply (validate_spec 2 o). lia.
Defined.

Lemma last_bytes_app s c : last (list_ascii_of_string (s +:+ String c "")) = Some c.
Proof. rewrite bytes_app. simpl. apply last_snoc. Qed.

Lemma collect_builds_all prefixes all :
  collect_builds (inr <$> prefixes) all
  = inr (all ++ filter (λ p, p ≠ ""%string) prefixes).
Proof.
  revert all. induction prefixes as [|p prefixes IH]; intros all; simpl.
  - by rewrite app_nil_r.
  - destruct p as [|a p]; simpl.
    + rewrite filter_cons_False by (by intros ?). apply IH.
    + rewrite filter_cons_True by done. rewrite IH. by rewrite <- app_assoc.
Qed.

Lemma collect_builds_error pre err post all :
  (∀ e, inl e ∉ pre) →
  collect_builds (pre ++ inl err :: post) all = inl err.
Proof.
  revert all. induction pre as [|[e|p] pre IH]; intros all Hpre; [done|..].
  - exfalso. apply (Hpre e). by left.
  - assert (∀ e, inl e ∉ pre) as Hpre' by (intros e He; apply (Hpre e); by right).
    simpl. case_decide; by apply IH.
Qed.

Section Lists.

Variable objects : string → string → list (string + string).
Variable sort_Reverse : list string → list string.
Hypothesis sort_Reverse_perm : ∀ l, sort_Reverse l ≡ₚ l.

(** X17. [listBuilds] panics on a path without an object. Otherwise it
    lists the bucket under the object followed by one slash, unless the
    object ends with a slash already; it returns the first error of the
    listing, and without an error the prefixes listed that are not empty,
    each as often as it is listed, in the order of the sort. *)
Theorem listBuilds_spec (path : gcsPath.t) :
  (gcsPath.object path = ""%string → listBuilds objects sort_Reverse path = None)
  ∧ (gcsPath.object path ≠ ""%string →
     ∃ p,
       listing_prefix (gcsPath.object path) = Some p
       ∧ last (list_ascii_of_string p) = Some "/"%char
       ∧ (p = gcsPath.object path ∨ p = gcsPath.object path +:+ "/")
       ∧ (∀ pre err post,
            objects (gcsPath.bucket path) p = pre ++ inl err :: post → (∀ e, inl e ∉ pre) →
            listBuilds objects sort_Reverse path = Some (inl err))
       ∧ (∀ prefixes,
            objects (gcsPath.bucket path) p = inr <$> prefixes →
            ∃ builds,
              listBuilds objects sort_Reverse path = Some (inr builds)
              ∧ builds ≡ₚ filter (λ p, p ≠ ""%string) prefixes)).
Proof.
  unfold listBuilds. split; [by intros ->|]. intros Hobject.
  destruct (string_last_byte _ Hobject) as (s & c & Heq & _).
  assert (∃ p, listing_prefix (gcsPath.object path) = Some p
               ∧ last (list_ascii_of_string p) = Some "/"%char
               ∧ (p = gcsPath.object path ∨ p = gcsPath.object path +:+ "/"))
    as (p & Hp & Hlast & Hshape).
  { unfold listing_prefix. rewrite Heq, last_bytes_app. cbn [mbind option_bind].
    destruct (decide (c ≠ "/"%char)) as [Hc|Hc].
    - eexists; split; [reflexivity|]. split; [|by right].
      apply last_bytes_app.
    - apply dec_stable in Hc. subst c. eexists; split; [reflexivity|].
      split; [apply last_bytes_app | by left]. }
  exists p. split; [done|]. split; [done|]. split; [done|].
  rewrite Hp. cbn [mbind option_bind]. split.
  - intros pre err post -> Hpre. by rewrite collect_builds_error.
  - intros prefixes ->. rewrite collect_builds_all.
    eexists; split; [reflexivity|]. by rewrite sort_Reverse_perm.
Qed.

End Lists.

Lemma listBuilds_spec_witness :
  let path := gcsPath.mk (url.mkURL "gs" "" None "b" "/logs/job" "" false "" "") in
  let objects := λ _ _ : string, [inr "logs/job/7/"; inr ""; inr "logs/job/8/"]%string in
  (gcsPath.object path = ""%string → listBuilds objects reverse path = None)
  ∧ (gcsPath.object path ≠ ""%string →
     ∃ p,
       listing_prefix (gcsPath.object path) = Some p
       ∧ last (list_ascii_of_string p) = Some "/"%char
       ∧ (p = gcsPath.object path ∨ p = gcsPath.object path +:+ "/")
       ∧ (∀ pre err post,
            objects (gcsPath.bucket path) p = pre ++ inl err :: post → (∀ e, inl e ∉ pre) →
            listBuilds objects reverse path = Some (inl err))
       ∧ (∀ prefixes,
            objects (gcsPath.bucket path) p = inr <$> prefixes →
            ∃ builds,
              listBuilds objects reverse path = Some (inr builds)
              ∧ builds ≡ₚ filter (λ p, p ≠ ""%string) prefixes)).
Proof.
  intros path objects.
  apply (listBuilds_spec objects reverse). intros l. apply reverse_Permutation.
Defined.

Section GroupOf.

Variable TestGroup : Type.
Variable Name : TestGroup → string.

(** X18. [Group] returns the first test group of the configuration that
    has the name, and no group exactly when no group of the configuration
    has it. *)
Theorem Group_first (groups : list TestGroup) (name : string) :
  match Group TestGroup Name groups name with
  | Some g =>
      ∃ i, groups !! i = Some g ∧ Name g = name
           ∧ ∀ j g', j < i → groups !! j = Some g' → Name g' ≠ name
  | None => name ∉ Name <$> groups
  end.
Proof.
  induction groups as [|g groups IH]; simpl; [apply not_elem_of_nil|].
  destruct (decide (Name g = name)) as [Hg|Hg].
  - exists 0. split; [done|]. split; [done|]. intros j g' Hj. lia.
  - destruct (Group TestGroup Name groups name) as [g1|].
    + destruct IH as (i & Hi & Hname & Hfirst). exists (S i).
      split; [done|]. split; [done|]. intros [|j] g' Hj Hg'.
      * by injection Hg' as <-.
      * apply (Hfirst j); [lia | done].
    + rewrite not_elem_of_cons. by split; [congruence|].
Qed.

End GroupOf.

(** X19. [normalize] returns NO_RESULT, PASS or FAIL and nothing else:
    NO_RESULT for NO_RESULT and RUNNING, PASS for the three kinds of pass
    and for FLAKY, FAIL for every other number; normalizing a second time
    changes nothing. *)
Theorem normalize_three (result : Z) :
  (normalize result = state.Row_NO_RESULT
   ∨ normalize result = state.Row_PASS
   ∨ normalize result = state.Row_FAIL)
  ∧ normalize (normalize result) = normalize result
  ∧ (normalize result = state.Row_NO_RESULT
     ↔ Go.int32 result = state.Row_NO_RESULT ∨ Go.int32 result = state.Row_RUNNING)
  ∧ (normalize result = state.Row_PASS
     ↔ Go.int32 result = state.Row_PASS
       ∨ Go.int32 result = state.Row_PASS_WITH_ERRORS
       ∨ Go.int32 result = state.Row_PASS_WITH_SKIPS
       ∨ Go.int32 result = state.Row_FLAKY).
Proof.
  unfold normalize. cbv zeta.
  destruct (decide (Go.int32 result = state.Row_NO_RESULT
                    ∨ Go.int32 result = state.Row_RUNNING)) as [H0|H0];
    [|destruct (decide (Go.int32 result = state.Row_PASS
                        ∨ Go.int32 result = state.Row_PASS_WITH_ERRORS
                        ∨ Go.int32 result = state.Row_PASS_WITH_SKIPS
                        ∨ Go.int32 result = state.Row_FLAKY)) as [H1|H1]].
  - split; [by left|]. split; [done|]. split; [done|].
    split; [done|]. intros H1. exfalso.
    unfold state.Row_NO_RESULT, state.Row_RUNNING, state.Row_PASS,
      state.Row_PASS_WITH_ERRORS, state.Row_PASS_WITH_SKIPS, state.Row_FLAKY in *.
    lia.
  - split; [right; by left|]. split; [done|]. split; [|done].
    split; [done|]. intros H. by destruct H0.
  - split; [right; by right|]. split; [done|]. split.
    + split; [done|]. intros H. by destruct H0.
    + split; [done|]. intros H. by destruct H1.
Qed.

(** ** [ReadBuilds] as a whole *)



Section Whole.

Variable Sprintf : string → list string → string.
Variable range : ∀ V : Type, gmap string V → list (string * V).
Variable sort_Stable : list state.Row.t → list state.Row.t.
Hypothesis range_once : range_visits_once range.







End Whole.




(** ** Properties of rows that every step of the assembly keeps *)

Lemma append_metric_keep r kv r' :
  append_metric r kv = Some r' →
  state.Row.Results r' = state.Row.Results r
  ∧ state.Row.Messages r' = state.Row.Messages r.
Proof.
  destruct kv as [k v]. unfold append_metric.
  destruct (FindMetric r k) as [i|]; intros Hr'.
  - apply bind_Some in Hr' as (m & _ & Hr').
    by apply bind_Some in Hr' as (m' & _ & [= <-]).
  - by apply bind_Some in Hr' as (m' & _ & [= <-]).
Qed.

Lemma append_metrics_keep l r r' :
  foldM append_metric l r = Some r' →
  state.Row.Results r' = state.Row.Results r
  ∧ state.Row.Messages r' = state.Row.Messages r.
Proof.
  revert r. induction l as [|kv l IH]; intros r; simpl; [by intros [= <-]|].
  intros Hr'. apply bind_Some in Hr' as (r1 & Hr1 & Hr').
  apply IH in Hr' as [-> ->]. by apply append_metric_keep in Hr1.
Qed.

Section RowInvariant.

Variable Sprintf : string → list string → string.
Variable range : ∀ V : Type, gmap string V → list (string * V).
Hypothesis range_once : range_visits_once range.

(** A property of rows that holds of a new row and that [AppendResult]
    and the loop over the metrics of a record keep. *)
Variable P : state.Row.t → Prop.
Hypothesis P_new : ∀ name target, P (new_row name target).
Hypothesis P_result : ∀ r br count r',
  rle_wf (state.Row.Results r) → (1 <= count)%Z →
  (rle_total (state.Row.Results r) + count < 2 ^ 31)%Z →
  P r → AppendResult r br count = Some r' → P r'.
Hypothesis P_metrics : ∀ n r kvs r',
  (1 <= n < 2 ^ 30)%Z → NoDup kvs.*1 →
  NoDup (state.Metric.Name <$> state.Row.Metrics r) →
  Forall (metric_ok (n - 1)) (state.Row.Metrics r) →
  (Z.of_nat (length (state.Row.Messages r)) <= n)%Z →
  P r → foldM append_metric kvs r = Some r' → P r'.

Lemma append_cell_keeps (n : Z) (r r1 r2 : state.Row.t) (br : Row.t) :
  (1 <= n < 2 ^ 30)%Z → row_ok (n - 1) r → P r →
  AppendResult r br 1 = Some r1 →
  foldM append_metric (range _ (Row.Metrics br)) r1 = Some r2 →
  P r2.
Proof.
  intros Hn (Hwf & Htot & Hcells & Hmi & Hfill & Hnodup & Hmetrics) HP Hr1 Hr2.
  assert (P r1) as HP1 by (eapply (P_result r br 1); [done | lia | lia | done..]).
  destruct (AppendResult_spec r br 1 Hwf) as (results' & Hrec & _); [lia..|].
  pose proof (rle_filled_bounds _ Hwf) as Hbounds.
  rewrite Hr1 in Hrec. injection Hrec as Hrec.
  apply (P_metrics n r1 (range _ (Row.Metrics br)) r2); try done.
  - apply (range_NoDup range range_once).
  - by rewrite Hrec.
  - by rewrite Hrec.
  - rewrite Hrec. cbn [state.Row.Messages].
    case_decide; rewrite ?length_app; simpl; lia.
Qed.

Lemma new_row_keeps (ncols : nat) (name target : string) r' :
  (1 <= Z.of_nat ncols < 2 ^ 30)%Z →
  (if decide (1 < ncols)
   then AppendResult (state.Row.mk name target [] [] [] [] []) noResult
          (Z.of_nat ncols - 1)
   else Some (state.Row.mk name target [] [] [] [] []))
  = Some r' →
  P r'.
Proof.
  intros Hn. case_decide as Hcols.
  - intros Hr'. eapply (P_result (new_row name target) noResult);
      [done | | | apply P_new | exact Hr']; simpl; lia.
  - intros [= <-]. apply P_new.
Qed.

Lemma append_record_keeps format build (ncols : nat) target st br :
  (1 <= Z.of_nat ncols < 2 ^ 30)%Z →
  assembly_inv (Z.of_nat ncols) st → Forall P (Assembly.grid_rows st) →
  ∃ st', append_record Sprintf range format build ncols target st br = Some st'
         ∧ assembly_inv (Z.of_nat ncols) st'
         ∧ Forall P (Assembly.grid_rows st').
Proof.
  intros Hn Hinv HP.
  destruct (append_record_spec Sprintf range range_once format build ncols
              target st br Hn Hinv) as (st' & Hst' & Hinv').
  exists st'. split; [done|]. split; [done|].
  destruct Hinv as (Hidx & Hsub & Hfound & Hrows).
  unfold append_record in Hst'.
  apply bind_Some in Hst' as (name & Hname & Hst').
  apply unique_name_first in Hname as [Hfresh _].
  apply bind_Some in Hst' as ([[p grid_rows] rows] & Hrow & Hst').
  apply bind_Some in Hst' as (r & Hr & Hst').
  apply bind_Some in Hst' as (r1 & Hr1 & Hst').
  apply bind_Some in Hst' as (r2 & Hr2 & [= <-]).
  cbn [Assembly.grid_rows].
  destruct (Assembly.rows st !! name) as [q|] eqn:Hq.
  - injection Hrow as -> <- <-.
    destruct (proj2 Hidx name p Hq) as (r' & Hgr & Hrname).
    assert (r' = r) as -> by congruence.
    assert (Assembly.missing st !! name = Some p) as Hmissing.
    { destruct (Assembly.missing st !! name) as [q|] eqn:Hq'.
      - apply Hsub in Hq'. congruence.
      - exfalso. apply Hfresh. eauto. }
    assert (row_ok (Z.of_nat ncols - 1) r) as Hok.
    { specialize (Hrows p r Hgr). by rewrite Hrname, Hmissing in Hrows. }
    apply Forall_insert; [done|].
    eapply (append_cell_keeps _ r r1 r2 br Hn Hok); [|done..].
    rewrite Forall_lookup in HP. by eapply HP.
  - apply bind_Some in Hrow as (r' & Hr' & [= <- <- <-]).
    rewrite list_lookup_middle in Hr by done. injection Hr as <-.
    destruct (new_row_spec ncols name target Hn) as (r'' & Hr'' & Hname' & Hok').
    assert (r'' = r') as -> by congruence.
    replace (<[length (Assembly.grid_rows st) := r2]>
               (Assembly.grid_rows st ++ [r']))
      with (Assembly.grid_rows st ++ [r2])
      by (rewrite insert_app_r_alt, Nat.sub_diag by lia; done).
    apply Forall_app. split; [done|]. apply Forall_singleton.
    eapply (append_cell_keeps _ r' r1 r2 br Hn Hok'); [|done..].
    by eapply new_row_keeps.
Qed.

Lemma append_target_keeps format build (ncols : nat) st entry :
  (1 <= Z.of_nat ncols < 2 ^ 30)%Z →
  assembly_inv (Z.of_nat ncols) st → Forall P (Assembly.grid_rows st) →
  ∃ st', append_target Sprintf range format build ncols st entry = Some st'
         ∧ assembly_inv (Z.of_nat ncols) st'
         ∧ Forall P (Assembly.grid_rows st').
Proof.
  intros Hn Hinv HP. unfold append_target.
  destruct (foldM_inv
              (append_record Sprintf range format build ncols entry.1)
              (λ st, assembly_inv (Z.of_nat ncols) st
                     ∧ Forall P (Assembly.grid_rows st))
              entry.2 st) as (st' & Hst' & Hinv' & HP'); [|done|by eauto].
  intros st1 br _ [Hinv1 HP1].
  destruct (append_record_keeps format build ncols entry.1 st1 br)
    as (st2 & Hst2 & Hinv2 & HP2); [done..|].
  by exists st2.
Qed.

Lemma append_missing_keeps n (entries : list (string * nat)) grid_rows rows :
  (1 <= n < 2 ^ 30)%Z →
  NoDup entries.*1 →
  rows_index grid_rows rows →
  (∀ name p, (name, p) ∈ entries → rows !! name = Some p) →
  (∀ p r, grid_rows !! p = Some r →
          row_ok (if decide (state.Row.Name r ∈ entries.*1) then n - 1 else n)%Z r) →
  Forall P grid_rows →
  ∀ grid_rows',
    foldM append_missing entries grid_rows = Some grid_rows' →
    Forall P grid_rows'.
Proof.
  intros Hn. revert grid_rows.
  induction entries as [|[name p] entries IH];
    intros grid_rows Hkeys Hidx Hin Hrows HP grid_rows' Hfold.
  - by injection Hfold as <-.
  - rewrite fmap_cons in Hkeys. apply NoDup_cons in Hkeys as [Hname Hkeys].
    simpl in Hname.
    destruct (proj2 Hidx name p) as (r & Hr & Hrn); [apply Hin; by left|].
    assert (row_ok (n - 1) r) as Hok.
    { specialize (Hrows p r Hr). rewrite decide_True in Hrows; [done|].
      rewrite Hrn. by left. }
    destruct (row_ok_no_result n r Hn Hok) as (r' & Hr' & Hrn' & Hok').
    assert (append_missing grid_rows (name, p) = Some (<[p := r']> grid_rows))
      as Hstep by (unfold append_missing; simpl; by rewrite Hr; simpl; rewrite Hr').
    rewrite foldM_cons, Hstep in Hfold. cbn [mbind option_bind] in Hfold.
    apply (IH (<[p := r']> grid_rows)); [done | | | | | done].
    + eapply rows_index_insert; eauto.
    + intros nm q Hq. apply Hin. by right.
    + intros q r0 Hq. destruct (decide (p = q)) as [<-|Hne].
      * rewrite list_lookup_insert_eq in Hq by by eapply lookup_lt_Some.
        injection Hq as <-. rewrite Hrn', Hrn. by rewrite decide_False.
      * rewrite list_lookup_insert_ne in Hq by done.
        assert (state.Row.Name r0 ≠ name) as Hne0.
        { intros Heq. apply Hne.
          apply (rows_index_inj grid_rows rows name); [done | | eauto].
          apply Hin. by left. }
        specialize (Hrows q r0 Hq). simpl in Hrows.
        destruct (decide (state.Row.Name r0 ∈ entries.*1)) as [Hmem|Hmem].
        -- rewrite decide_True in Hrows; [done | by right].
        -- rewrite decide_False in Hrows; [done|].
           by intros [?|?]%elem_of_cons.
    + apply Forall_insert; [done|].
      destruct Hok as (Hwf & Htot & _).
      eapply (P_result r noResult 1); [done | lia | lia | | done].
      rewrite Forall_lookup in HP. by eapply HP.
Qed.

Lemma AppendColumn_keeps headers format grid rows build :
  grid_inv grid rows → Forall P (Grid.Rows grid) →
  (Z.of_nat (length (Grid.Columns grid)) + 1 < 2 ^ 30)%Z →
  ∃ grid' rows',
    AppendColumn Sprintf range headers format grid rows build
    = Some (grid', rows')
    ∧ grid_inv grid' rows'
    ∧ Forall P (Grid.Rows grid')
    ∧ Grid.Columns grid' = Grid.Columns grid ++ [column_record headers build].
Proof.
  intros [Hidx Hrows] HP Hmax.
  destruct (AppendColumn_spec Sprintf range range_once headers format grid rows
              build (conj Hidx Hrows) Hmax)
    as (grid' & rows' & Hret & Hinv' & Hcols').
  exists grid', rows'. split; [done|]. split; [done|]. split; [|done].
  unfold AppendColumn in Hret. cbv zeta in Hret.
  assert (length (Grid.Columns grid ++ [column_record headers build])
          = S (length (Grid.Columns grid)))
    as Hlen by (rewrite length_app; simpl; lia).
  rewrite Hlen in Hret.
  set (n := S (length (Grid.Columns grid))) in *.
  assert (1 <= Z.of_nat n < 2 ^ 30)%Z as Hn by lia.
  destruct (foldM_inv
              (append_target Sprintf range format build n)
              (λ st, assembly_inv (Z.of_nat n) st
                     ∧ Forall P (Assembly.grid_rows st))
              (range _ (Column.Rows build))
              (Assembly.mk (Grid.Rows grid) rows rows ∅))
    as (st & Hst & (Hidx' & Hsub & Hfound & Hrows') & HP').
  { intros st1 entry _ [Hinv1 HP1].
    destruct (append_target_keeps format build n st1 entry)
      as (st2 & Hst2 & Hinv2 & HP2); [done..|].
    by exists st2. }
  { split; [|done].
    split; [done|]. split; [done|]. split; [simpl; congruence|].
    simpl. intros p r Hr. rewrite (proj1 Hidx p r Hr).
    replace (Z.of_nat n - 1)%Z with (Z.of_nat (length (Grid.Columns grid))) by lia.
    rewrite Forall_lookup in Hrows. by eapply Hrows. }
  rewrite Hst in Hret. cbn [mbind option_bind] in Hret.
  apply bind_Some in Hret as (grid_rows & Hfold & [= <- <-]).
  cbn [Grid.Rows].
  apply (append_missing_keeps (Z.of_nat n) (range _ (Assembly.missing st))
           (Assembly.grid_rows st) (Assembly.rows st) Hn);
    [apply (range_NoDup range range_once) | done | | | done | done].
  { intros name p Hin%(range_lookup range range_once). by apply Hsub. }
  { intros p r Hr. specialize (Hrows' p r Hr).
    destruct (Assembly.missing st !! state.Row.Name r) as [q|] eqn:Hq.
    - rewrite decide_True; [done|]. apply list_elem_of_fmap.
      exists (state.Row.Name r, q). split; [done|].
      by apply (range_lookup range range_once).
    - rewrite decide_False; [done|]. intros [[nm q] [Hnm Hin]]%list_elem_of_fmap.
      apply (range_lookup range range_once) in Hin. simpl in Hnm. congruence. }
Qed.

Lemma append_columns_keeps h nc stop interrupted cols :
  ∀ i grid rows,
    grid_inv grid rows → Forall P (Grid.Rows grid) →
    (Z.of_nat (length (Grid.Columns grid)) + Z.of_nat (length cols) < 2 ^ 30)%Z →
    ∀ grid',
      append_columns Sprintf range h nc stop interrupted i cols grid rows
      = Some (inr grid') →
      Forall P (Grid.Rows grid').
Proof.
  induction cols as [|c cols IH]; intros i grid rows Hinv HP Hmax grid'; simpl.
  - by intros [= <-].
  - destruct (interrupted i); [done|].
    destruct c as [c|]; [|apply IH; [done | done | simpl in Hmax; lia]].
    destruct (AppendColumn_keeps h nc grid rows c Hinv HP)
      as (grid1 & rows1 & -> & Hinv1 & HP1 & Hcols1); [simpl in Hmax; lia|].
    cbn [mbind option_bind]. case_decide.
    + by intros [= <-].
    + apply IH; [done | done |]. rewrite Hcols1, length_app. simpl in *. lia.
Qed.

Variable sort_Stable : list state.Row.t → list state.Row.t.
Hypothesis sort_Stable_perm : ∀ l, sort_Stable l ≡ₚ l.

Lemma ReadBuilds_grid_keeps h nc now dur interrupted cols grid :
  (Z.of_nat (length cols) < 2 ^ 30)%Z →
  ReadBuilds_grid Sprintf range sort_Stable h nc now dur interrupted cols
  = Some (inr grid) →
  Forall P (Grid.Rows grid).
Proof.
  intros Hmax. unfold ReadBuilds_grid. intros Hret.
  apply bind_Some in Hret as ([err|grid1] & Hcols & Hret); [done|].
  injection Hret as <-. cbn [Grid.Rows]. rewrite sort_Stable_perm.
  eapply (append_columns_keeps h nc _ interrupted cols 0 (Grid.mk [] []) ∅);
    [apply grid_inv_empty | constructor | simpl; lia | exact Hcols].
Qed.

End RowInvariant.

(** ** The results of the rows of the grid are in their shortest form *)

Lemma rle_positive_snoc l v c :
  rle_wf l → rle_positive (l ++ [v; c]) ↔ rle_positive l ∧ (1 <= c)%Z.
Proof.
  intros Hl. induction Hl as [|v' c' l _ _ IH] using rle_pairs_ind; simpl.
  - tauto.
  - rewrite IH. tauto.
Qed.

Lemma canonical_result r br count r' :
  rle_wf (state.Row.Results r) → (1 <= count)%Z →
  (rle_total (state.Row.Results r) + count < 2 ^ 31)%Z →
  results_canonical r → AppendResult r br count = Some r' →
  results_canonical r'.
Proof.
  intros Hwf Hcount Hmax (_ & Hpos & Hgrouped) Hr'.
  destruct (AppendResult_shape r br count Hwf) as (r1 & Hr1 & Hshape); [lia | done |].
  assert (r1 = r') as -> by congruence. unfold results_canonical.
  destruct Hshape as [[Hnil ->]|[(pre & v & c & Heq & Hpre & Hne & ->)
                                |(pre & c & Heq & Hpre & Hc & ->)]].
  - repeat split; simpl; lia.
  - rewrite Heq in Hwf, Hpos, Hgrouped.
    split; [|split].
    + change (pre ++ [v; c; Row.Result br; count])
        with (pre ++ [v; c] ++ [Row.Result br; count]).
      rewrite app_assoc. apply rle_wf_snoc; [done | lia].
    + change (pre ++ [v; c; Row.Result br; count])
        with (pre ++ [v; c] ++ [Row.Result br; count]).
      rewrite app_assoc. by apply rle_positive_snoc.
    + by apply rle_grouped_snoc.
  - rewrite Heq in Hwf, Hpos, Hgrouped.
    apply rle_positive_snoc in Hpos as [Hpos Hc1]; [|done].
    split; [|split].
    + apply rle_wf_snoc; [done | lia].
    + apply rle_positive_snoc; [done|]. split; [done | lia].
    + by eapply rle_grouped_count.
Qed.

Lemma canonical_metrics kvs r r' :
  results_canonical r → foldM append_metric kvs r = Some r' →
  results_canonical r'.
Proof.
  intros Hr Hr'. apply append_metrics_keep in Hr' as [Hres _].
  unfold results_canonical. by rewrite Hres.
Qed.

Section Canonical.

Variable Sprintf : string → list string → string.
Variable range : ∀ V : Type, gmap string V → list (string * V).
Variable sort_Stable : list state.Row.t → list state.Row.t.
Hypothesis range_once : range_visits_once range.
Hypothesis sort_Stable_perm : ∀ l, sort_Stable l ≡ₚ l.

(** X23. In a grid that [ReadBuilds] assembles, the results of every row
    are a run-length encoding in its shortest form: (value, count) pairs
    in which every count is at least 1 and no two pairs in a row have the
    same value. *)
Theorem emitted_results_canonical h nc now dur interrupted cols grid :
  (Z.of_nat (length cols) < 2 ^ 30)%Z →
  ReadBuilds_grid Sprintf range sort_Stable h nc now dur interrupted cols
  = Some (inr grid) →
  Forall results_canonical (Grid.Rows grid).
Proof.
  intros Hmax Hret.
  apply (ReadBuilds_grid_keeps Sprintf range range_once results_canonical)
    with (sort_Stable := sort_Stable) (h := h) (nc := nc) (now := now)
         (dur := dur) (interrupted := interrupted) (cols := cols);
    try done.
  - intros r br count r' Hwf Hcount Hbound. by apply canonical_result.
  - intros n r kvs r' _ _ _ _ _. apply canonical_metrics.
Qed.

End Canonical.

Lemma emitted_results_canonical_witness :
  ∃ grid,
    ReadBuilds_grid Sprintf_plain range_any id [] defaultNameConfig 0 0
      (λ _, false) [Some example_b2; Some example_twice; Some example_b1]
    = Some (inr grid)
    ∧ Forall results_canonical (Grid.Rows grid).
Proof.
  eexists. split; [vm_compute; reflexivity|].
  apply (emitted_results_canonical Sprintf_plain range_any id
           range_any_visits_once (λ l, reflexivity l) [] defaultNameConfig 0 0
           (λ _, false) [Some example_b2; Some example_twice; Some example_b1]);
    [simpl; lia | vm_compute; reflexivity].
Defined.

(** ** The metrics of the rows of the grid *)

Lemma indices_cells_length_last pre s n :
  rle_wf pre → (0 <= n)%Z →
  (n <= Z.of_nat (length (indices_cells (pre ++ [s; n]))))%Z.
Proof.
  intros Hpre Hn. rewrite indices_cells_snoc, length_app, length_seqZ by done. lia.
Qed.

Lemma AppendMetric_inv (m : state.Metric.t) (idx : Z) (v : Go.float64) :
  rle_wf (state.Metric.Indices m) →
  Forall (λ z, 0 <= z < 2 ^ 30)%Z (state.Metric.Indices m) →
  (Z.of_nat (length (state.Metric.Indices m)) < 2 ^ 31)%Z →
  (0 <= idx < 2 ^ 30)%Z →
  (Z.of_nat (length (indices_cells (state.Metric.Indices m))) + 1 < 2 ^ 30)%Z →
  ∃ m',
    AppendMetric m idx v = Some m'
    ∧ state.Metric.Name m' = state.Metric.Name m
    ∧ indices_cells (state.Metric.Indices m')
      = indices_cells (state.Metric.Indices m) ++ [idx]
    ∧ state.Metric.Values m' = state.Metric.Values m ++ [v]
    ∧ rle_wf (state.Metric.Indices m')
    ∧ Forall (λ z, 0 <= z < 2 ^ 30)%Z (state.Metric.Indices m').
Proof.
  intros Hwf Hsmall Hlen Hidx Hcells. unfold AppendMetric. cbv zeta.
  set (indices := state.Metric.Indices m) in *.
  rewrite int32_small by (unfold Go.in_int32; lia).
  assert (rle_wf (indices ++ [idx; 1%Z])) as Hwf1 by (apply rle_wf_snoc; [done | lia]).
  assert (Forall (λ z, 0 <= z < 2 ^ 30)%Z (indices ++ [idx; 1%Z])) as Hsmall1.
  { apply Forall_app. split; [done|]. repeat constructor; lia. }
  destruct (decide (Z.of_nat (length indices) = 0%Z)) as [Hn|Hn].
  - cbn [mbind option_bind]. eexists; split; [reflexivity|].
    cbn [state.Metric.Name state.Metric.Indices state.Metric.Values].
    by rewrite indices_cells_snoc, seqZ_one.
  - destruct (rle_wf_last _ Hwf) as (pre & s & n & Heq & Hpre & Hn0).
    { intros Hnil. by rewrite Hnil in Hn. }
    clearbody indices. subst indices. clear Hn.
    pose proof (indices_cells_length_last pre s n Hpre Hn0) as Hlast.
    apply Forall_app in Hsmall as [Hsmallpre Hsn].
    apply Forall_cons in Hsn as [Hs Hsn]. apply Forall_cons in Hsn as [Hn1 _].
    rewrite length_app. cbn [length].
    replace (Z.of_nat (length pre + 2) - 2)%Z with (Z.of_nat (length pre)) by lia.
    replace (Z.of_nat (length pre + 2) - 1)%Z with (Z.of_nat (length pre + 1)) by lia.
    rewrite !index_of_nat, Nat2Z.id.
    rewrite !(lookup_app_r pre) by lia.
    replace (length pre - length pre) with 0 by lia.
    replace (length pre + 1 - length pre) with 1 by lia.
    cbn [lookup list_lookup mbind option_bind].
    rewrite (int32_small (s + n)) by (unfold Go.in_int32; lia).
    destruct (decide ((s + n)%Z ≠ idx)) as [Hne|Heq].
    + eexists; split; [reflexivity|].
      cbn [state.Metric.Name state.Metric.Indices state.Metric.Values].
      rewrite (indices_cells_snoc (pre ++ [s; n])) by done.
      by rewrite seqZ_one.
    + apply dec_stable in Heq. subst idx.
      rewrite int32_small by (unfold Go.in_int32; lia).
      rewrite insert_app_r_alt by lia.
      replace (length pre + 1 - length pre) with 1 by lia.
      eexists; split; [reflexivity|].
      cbn [state.Metric.Name state.Metric.Indices state.Metric.Values insert list_insert].
      rewrite !indices_cells_snoc by done.
      rewrite seqZ_app by lia. rewrite seqZ_one, app_assoc.
      split; [done|]. split; [done|]. split; [done|].
      split; [apply rle_wf_snoc; [done | lia]|].
      apply Forall_app. split; [done|]. repeat constructor; lia.
Qed.

Lemma metric_inv_mono k k' m : k ≤ k' → metric_inv k m → metric_inv k' m.
Proof.
  intros Hk (Hwf & Hsmall & Hlen & Hcells). repeat split; try done.
  eapply Forall_impl; [exact Hcells|]. intros i Hi. simpl in *. lia.
Qed.

Lemma append_metric_consistent n r k v r1 :
  (1 <= n < 2 ^ 30)%Z →
  (∀ m, m ∈ state.Row.Metrics r → state.Metric.Name m = k → metric_ok (n - 1) m) →
  (Z.of_nat (length (state.Row.Messages r)) <= n)%Z →
  metrics_consistent r → append_metric r (k, v) = Some r1 →
  metrics_consistent r1.
Proof.
  intros Hn Hk Hmsgs Hcons. unfold append_metric, FindMetric.
  rewrite int32_small by (unfold Go.in_int32; lia).
  assert (∀ m, metric_ok (n - 1) m →
               metric_inv (length (state.Row.Messages r)) m →
               ∀ m', AppendMetric m (Z.of_nat (length (state.Row.Messages r))) v
                     = Some m' →
                     metric_inv (length (state.Row.Messages r)) m') as Hstep.
  { intros m (Heven & Hlen & Hvals) (Hwf & Hsmall & Hcells & Hle) m' Hm'.
    destruct (AppendMetric_inv m (Z.of_nat (length (state.Row.Messages r))) v)
      as (m1 & Hm1 & _ & Hcells1 & Hvals1 & Hwf1 & Hsmall1);
      [done | done | lia | lia | rewrite Hcells; lia |].
    assert (m1 = m') as -> by congruence.
    split; [done|]. split; [done|]. split.
    - by rewrite Hcells1, Hvals1, !length_app, Hcells.
    - rewrite Hcells1. apply Forall_app. split; [done|].
      apply Forall_singleton. lia. }
  destruct (FindMetric_from 0 (state.Row.Metrics r) k) as [i|] eqn:Hfind.
  - intros Hr1. apply bind_Some in Hr1 as (m & Hm & Hr1).
    apply bind_Some in Hr1 as (m' & Hm' & [= <-]).
    apply FindMetric_from_Some in Hfind as (m0 & _ & Hm0 & Hname).
    rewrite Nat.sub_0_r in Hm0. assert (m0 = m) as -> by congruence.
    unfold metrics_consistent. cbn [state.Row.Messages state.Row.Metrics].
    apply Forall_insert; [done|].
    apply (Hstep m); [|by eapply Forall_lookup_1 | done].
    apply Hk; [by eapply list_elem_of_lookup_2 | done].
  - intros Hr1. apply bind_Some in Hr1 as (m' & Hm' & [= <-]).
    unfold metrics_consistent. cbn [state.Row.Messages state.Row.Metrics].
    apply Forall_app. split; [done|]. apply Forall_singleton.
    apply (Hstep (state.Metric.mk k [] [])); [| |done].
    + unfold metric_ok. simpl. repeat split; [by exists 0 | lia..].
    + unfold metric_inv. simpl. repeat split; constructor.
Qed.

Lemma append_metrics_consistent n kvs r r' :
  (1 <= n < 2 ^ 30)%Z → NoDup kvs.*1 →
  NoDup (state.Metric.Name <$> state.Row.Metrics r) →
  Forall (λ m, metric_ok (if decide (state.Metric.Name m ∈ kvs.*1)
                          then n - 1 else n)%Z m) (state.Row.Metrics r) →
  (Z.of_nat (length (state.Row.Messages r)) <= n)%Z →
  metrics_consistent r → foldM append_metric kvs r = Some r' →
  metrics_consistent r'.
Proof.
  intros Hn. revert r.
  induction kvs as [|[k v] kvs IH]; intros r Hkeys Hnodup Hall Hmsgs Hcons;
    [by intros [= <-]|].
  rewrite fmap_cons in Hkeys. apply NoDup_cons in Hkeys as [Hk Hkeys].
  destruct (append_metric_step n (proj2 Hn) (proj1 Hn) r k v kvs.*1 Hk Hnodup Hall)
    as (metrics & Hstep & Hnodup' & Hall').
  rewrite foldM_cons, Hstep. cbn [mbind option_bind].
  apply IH; try done.
  apply (append_metric_consistent n r k v); try done.
  intros m Hm Hname. rewrite Forall_forall in Hall. specialize (Hall m Hm).
  simpl in Hall. rewrite decide_True in Hall; [done|]. rewrite Hname. by left.
Qed.

Lemma consistent_result r br count r' :
  rle_wf (state.Row.Results r) → (1 <= count)%Z →
  (rle_total (state.Row.Results r) + count < 2 ^ 31)%Z →
  metrics_consistent r → AppendResult r br count = Some r' →
  metrics_consistent r'.
Proof.
  intros Hwf Hcount Hmax Hcons Hr'.
  destruct (AppendResult_spec r br count Hwf) as (results' & Hrec & _); [lia | done |].
  rewrite Hr' in Hrec. injection Hrec as ->.
  unfold metrics_consistent in *. cbn [state.Row.Messages state.Row.Metrics].
  eapply Forall_impl; [exact Hcons|]. intros m. apply metric_inv_mono.
  case_decide; rewrite ?length_app; lia.
Qed.

Section Metrics.

Variable Sprintf : string → list string → string.
Variable range : ∀ V : Type, gmap string V → list (string * V).
Variable sort_Stable : list state.Row.t → list state.Row.t.
Hypothesis range_once : range_visits_once range.
Hypothesis sort_Stable_perm : ∀ l, sort_Stable l ≡ₚ l.

(** X24. In a grid that [ReadBuilds] assembles, the indices of every
    metric of every row are (start, length) pairs of numbers that are not
    negative; they cover exactly as many cells as the metric has values,
    and every cell they cover is at most the number of messages of the
    row. *)
Theorem emitted_metrics_consistent h nc now dur interrupted cols grid :
  (Z.of_nat (length cols) < 2 ^ 30)%Z →
  ReadBuilds_grid Sprintf range sort_Stable h nc now dur interrupted cols
  = Some (inr grid) →
  Forall metrics_consistent (Grid.Rows grid).
Proof.
  intros Hmax Hret.
  apply (ReadBuilds_grid_keeps Sprintf range range_once metrics_consistent)
    with (sort_Stable := sort_Stable) (h := h) (nc := nc) (now := now)
         (dur := dur) (interrupted := interrupted) (cols := cols);
    try done.
  - intros name target. constructor.
  - intros r br count r' Hwf Hcount Hbound. by apply consistent_result.
  - intros n r kvs r' Hn Hkeys Hnodup Hall Hmsgs.
    apply (append_metrics_consistent n); try done.
    eapply Forall_impl; [exact Hall|]. intros m Hm. simpl.
    case_decide; [done|]. by apply (metric_ok_mono (n - 1)%Z); [lia|].
Qed.

End Metrics.

Lemma emitted_metrics_consistent_witness :
  ∃ grid,
    ReadBuilds_grid Sprintf_plain range_any id [] defaultNameConfig 0 0
      (λ _, false)
      [Some (example_timed "b2" 7200 30); Some (example_timed "b1" 3600 40)]
    = Some (inr grid)
    ∧ Forall metrics_consistent (Grid.Rows grid).
Proof.
  eexists. split; [vm_compute; reflexivity|].
  apply (emitted_metrics_consistent Sprintf_plain range_any id
           range_any_visits_once (λ l, reflexivity l) [] defaultNameConfig 0 0
           (λ _, false)
           [Some (example_timed "b2" 7200 30); Some (example_timed "b1" 3600 40)]);
    [simpl; lia | vm_compute; reflexivity].
Defined.

(** ** Every record in the row of its name *)

Lemma unique_name_free fuel (found : gset string) prefix idx :
  prefix ∉ found → unique_name fuel found prefix prefix idx = Some prefix.
Proof. intros Hfree. destruct fuel; simpl; by rewrite decide_False. Qed.

Lemma row_extended_count a b r r' brs :
  row_ok a r → row_ok b r' → row_extended r r' brs →
  Z.of_nat (length brs) = (b - a)%Z.
Proof.
  intros (Hwf & Htot & _) (Hwf' & Htot' & _) (_ & _ & Hcells & _).
  apply (f_equal length) in Hcells.
  rewrite length_app, length_fmap in Hcells.
  pose proof (rle_decode_length _ Hwf) as Hlen.
  pose proof (rle_decode_length _ Hwf') as Hlen'. lia.
Qed.

Lemma foldM_app {A B} (f : B → A → option B) l1 l2 b :
  foldM f (l1 ++ l2) b = foldM f l1 b ≫= foldM f l2.
Proof.
  revert b. induction l1 as [|a l1 IH]; intros b; [done|].
  simpl. destruct (f b a) as [b'|]; [apply IH | done].
Qed.

Section Placing.

Variable Sprintf : string → list string → string.
Variable range : ∀ V : Type, gmap string V → list (string * V).
Hypothesis range_once : range_visits_once range.

Variable format : NameConfig.t.
Variable build : Column.t.
Variable ncols : nat.
Variable rows0 : list state.Row.t.
Variable rows_init : gmap string nat.
Hypothesis ncols_ok : (1 <= Z.of_nat ncols < 2 ^ 30)%Z.
Hypothesis rows0_index : rows_index rows0 rows_init.

Lemma append_record_placed done t st br :
  record_name Sprintf format build br ∉ Assembly.found st →
  assembly_inv (Z.of_nat ncols) st →
  assembly_placed Sprintf format build ncols rows0 rows_init done st →
  ∃ st', append_record Sprintf range format build ncols t st br = Some st'
         ∧ assembly_inv (Z.of_nat ncols) st'
         ∧ assembly_placed Sprintf format build ncols rows0 rows_init
             (done ++ [(t, br)]) st'.
Proof.
  intros Hfresh Hinv (Hfound_iff & Hplaced & Hmiss_iff & Hsame & Hnewf & Hlen).
  destruct (append_record_spec Sprintf range range_once format build ncols
              t st br ncols_ok Hinv) as (st' & Hst' & Hinv').
  exists st'. split; [done|]. split; [done|].
  destruct Hinv as (Hidx & Hsub & Hfound & Hrows).
  unfold append_record in Hst'.
  change (Row_Format Sprintf br format (Column.Metadata build))
    with (record_name Sprintf format build br) in Hst'.
  set (nm := record_name Sprintf format build br) in *.
  rewrite (unique_name_free _ _ nm 1 Hfresh) in Hst'.
  cbn [mbind option_bind] in Hst'.
  apply bind_Some in Hst' as ([[p grid_rows] rows] & Hrow & Hst').
  apply bind_Some in Hst' as (r & Hr & Hst').
  apply bind_Some in Hst' as (r1 & Hr1 & Hst').
  apply bind_Some in Hst' as (r2 & Hr2 & [= <-]).
  assert (∀ x, x ∈ ({[nm]} ∪ Assembly.found st : gset string)
               ↔ ∃ t' br', (t', br') ∈ done ++ [(t, br)]
                           ∧ record_name Sprintf format build br' = x) as Hfound'.
  { intros x. rewrite elem_of_union, elem_of_singleton, Hfound_iff. split.
    - intros [->|(t' & br' & Hin & Heq)].
      + exists t, br. split; [|done]. apply elem_of_app. right. by left.
      + exists t', br'. split; [|done]. apply elem_of_app. by left.
    - intros (t' & br' & Hin & Heq). apply elem_of_app in Hin as [Hin|Hin].
      + right. eauto.
      + apply list_elem_of_singleton in Hin. injection Hin as -> ->. by left. }
  assert (∀ x q, delete nm (Assembly.missing st) !! x = Some q
                 ↔ rows_init !! x = Some q
                   ∧ x ∉ ({[nm]} ∪ Assembly.found st : gset string)) as Hmiss'.
  { intros x q.
    rewrite lookup_delete_Some, Hmiss_iff, not_elem_of_union, not_elem_of_singleton.
    split; [intros (? & ? & ?) | intros (? & ? & ?)]; repeat split; congruence. }
  assert (∀ t' br', (t', br') ∈ done →
                    record_name Sprintf format build br' ≠ nm) as Hother.
  { intros t' br' Hin Heq. apply Hfresh, Hfound_iff. eauto. }
  destruct (Assembly.rows st !! nm) as [q|] eqn:Hq.
  - injection Hrow as -> <- <-.
    destruct (proj2 Hidx nm p Hq) as (r' & Hgr & Hrname).
    assert (r' = r) as -> by congruence.
    assert (Assembly.missing st !! nm = Some p) as Hmissing.
    { destruct (Assembly.missing st !! nm) as [q|] eqn:Hq'.
      - apply Hsub in Hq'. congruence.
      - exfalso. apply Hfresh. eauto. }
    assert (row_ok (Z.of_nat ncols - 1) r) as Hok.
    { specialize (Hrows p r Hgr). by rewrite Hrname, Hmissing in Hrows. }
    pose proof (append_cell_extended range _ _ _ _ _ range_once ncols_ok Hok Hr1 Hr2)
      as Hext.
    apply Hmiss_iff in Hmissing as [Hinit _].
    destruct (proj2 rows0_index nm p Hinit) as (r0 & Hr0 & Hr0name).
    assert (r0 = r) as ->.
    { assert (Assembly.grid_rows st !! p = Some r0) as Hp0
        by (apply Hsame; [done | by rewrite Hr0name]).
      congruence. }
    split; [done|]. split; [|split; [done|split; [|split]]];
      cbn [Assembly.grid_rows Assembly.found Assembly.missing Assembly.rows].
    + intros t' br' Hin. apply elem_of_app in Hin as [Hin|Hin].
      * destruct (Hplaced t' br' Hin) as (p' & r'' & Hp' & Hr'' & Hpl).
        exists p', r''. split; [done|]. split; [|done].
        rewrite list_lookup_insert_ne; [done|]. intros <-.
        apply (Hother t' br' Hin).
        destruct (proj2 Hidx _ _ Hp') as (x & Hx & Hxname). congruence.
      * apply list_elem_of_singleton in Hin. injection Hin as -> ->.
        exists p, r2. split; [done|].
        split; [apply list_lookup_insert_eq; by eapply lookup_lt_Some|].
        left. by exists r.
    + intros p0 r0 Hr0' Hnot. apply not_elem_of_union in Hnot as [Hne Hnf].
      rewrite list_lookup_insert_ne; [by apply Hsame|]. intros <-.
      apply Hne, elem_of_singleton. congruence.
    + intros p0 r0 Hp0 Hr0'. apply elem_of_union_r.
      apply (Hnewf p0); [done|].
      rewrite list_lookup_insert_ne in Hr0'; [done|].
      apply lookup_lt_Some in Hr0. lia.
    + by rewrite length_insert.
  - apply bind_Some in Hrow as (r' & Hr' & [= <- <- <-]).
    rewrite list_lookup_middle in Hr by done. injection Hr as <-.
    destruct (new_row_spec ncols nm t ncols_ok) as (r'' & Hr'' & Hname' & Hok').
    assert (r'' = r') as -> by congruence.
    pose proof (new_row_extended _ _ _ _ ncols_ok Hr') as Hext'.
    pose proof (append_cell_extended range _ _ _ _ _ range_once ncols_ok Hok' Hr1 Hr2)
      as Hext.
    pose proof (row_extended_trans _ _ _ _ _ Hext' Hext) as Hall.
    replace (<[length (Assembly.grid_rows st) := r2]>
               (Assembly.grid_rows st ++ [r']))
      with (Assembly.grid_rows st ++ [r2])
      by (rewrite insert_app_r_alt, Nat.sub_diag by lia; done).
    split; [done|]. split; [|split; [done|split; [|split]]];
      cbn [Assembly.grid_rows Assembly.found Assembly.missing Assembly.rows].
    + intros t' br' Hin. apply elem_of_app in Hin as [Hin|Hin].
      * destruct (Hplaced t' br' Hin) as (p' & x & Hp' & Hx & Hpl).
        exists p', x.
        split; [rewrite lookup_insert_ne; [done|]; intros Heq;
                by apply (Hother t' br' Hin)|].
        split; [by apply lookup_app_l_Some | done].
      * apply list_elem_of_singleton in Hin. injection Hin as -> ->.
        exists (length (Assembly.grid_rows st)), r2.
        split; [apply lookup_insert_eq|].
        split; [by apply list_lookup_middle|].
        right. by split.
    + intros p0 r0 Hr0' Hnot. apply not_elem_of_union in Hnot as [Hne Hnf].
      apply lookup_app_l_Some. by apply Hsame.
    + intros p0 r0 Hp0 Hr0'. apply lookup_app_Some in Hr0' as [Hr0'|[_ Hr0']].
      * apply elem_of_union_r. by apply (Hnewf p0).
      * apply list_lookup_singleton_Some in Hr0' as [_ <-].
        destruct Hall as (-> & _). apply elem_of_union_l. by apply elem_of_singleton.
    + rewrite length_app. lia.
Qed.

Hypothesis distinct : names_distinct Sprintf format build.

Lemma append_target_placed t rs_todo :
  ∀ rs_done done st,
    Column.Rows build !! t = Some (rs_done ++ rs_todo) →
    (∀ t' br', (t', br') ∈ done →
       t' ≠ t ∧ ∃ rs', Column.Rows build !! t' = Some rs' ∧ br' ∈ rs') →
    assembly_inv (Z.of_nat ncols) st →
    assembly_placed Sprintf format build ncols rows0 rows_init
      (done ++ (pair t <$> rs_done)) st →
    ∃ st',
      foldM (append_record Sprintf range format build ncols t) rs_todo st
      = Some st'
      ∧ assembly_inv (Z.of_nat ncols) st'
      ∧ assembly_placed Sprintf format build ncols rows0 rows_init
          (done ++ (pair t <$> (rs_done ++ rs_todo))) st'.
Proof.
  induction rs_todo as [|br rs_todo IH]; intros rs_done done st Hrs Hdone Hinv Hpl.
  - exists st. by rewrite app_nil_r.
  - assert (rs_done ++ br :: rs_todo = (rs_done ++ [br]) ++ rs_todo) as Happ
      by (by rewrite <- app_assoc).
    assert ((rs_done ++ br :: rs_todo) !! length rs_done = Some br) as Hbr
      by apply list_lookup_middle, eq_refl.
    assert (record_name Sprintf format build br ∉ Assembly.found st) as Hfresh.
    { intros Hin. apply (proj1 Hpl) in Hin as (t' & br' & Hin & Heq).
      apply elem_of_app in Hin as [Hin|Hin].
      - destruct (Hdone t' br' Hin) as (Hne & rs' & Hrs' & Hbr').
        apply list_elem_of_lookup in Hbr' as [j Hj].
        destruct (distinct t' rs' j br' t _ (length rs_done) br Hrs' Hj Hrs Hbr Heq).
        done.
      - apply list_elem_of_fmap in Hin as (x & [= -> ->] & Hx).
        apply list_elem_of_lookup in Hx as [j Hj].
        assert (j < length rs_done) as Hlt by by eapply lookup_lt_Some.
        destruct (distinct t _ j x t _ (length rs_done) br Hrs
                    (lookup_app_l_Some _ _ _ _ Hj) Hrs Hbr Heq) as [_ ?].
        lia. }
    destruct (append_record_placed _ t st br Hfresh Hinv Hpl)
      as (st1 & Hst1 & Hinv1 & Hpl1).
    rewrite foldM_cons, Hst1. cbn [mbind option_bind]. rewrite Happ.
    apply IH; [by rewrite <- Happ | done | done |].
    by rewrite fmap_app, app_assoc.
Qed.

(** The records of the entries of [build.Rows], with their keys. *)
Let records (entries : list (string * list Row.t)) : list (string * Row.t) :=
  entries ≫= λ entry, pair entry.1 <$> entry.2.

Lemma append_targets_placed todo :
  ∀ done st,
    NoDup (done ++ todo).*1 →
    (∀ t rs, (t, rs) ∈ done ++ todo → Column.Rows build !! t = Some rs) →
    assembly_inv (Z.of_nat ncols) st →
    assembly_placed Sprintf format build ncols rows0 rows_init (records done) st →
    ∃ st',
      foldM (append_target Sprintf range format build ncols) todo st = Some st'
      ∧ assembly_inv (Z.of_nat ncols) st'
      ∧ assembly_placed Sprintf format build ncols rows0 rows_init
          (records (done ++ todo)) st'.
Proof.
  induction todo as [|[t rs] todo IH]; intros done st Hkeys Hall Hinv Hpl.
  - exists st. by rewrite app_nil_r.
  - assert (done ++ (t, rs) :: todo = (done ++ [(t, rs)]) ++ todo) as Happ
      by (by rewrite <- app_assoc).
    destruct (append_target_placed t rs [] (records done) st)
      as (st1 & Hst1 & Hinv1 & Hpl1).
    + apply Hall. apply elem_of_app. right. by left.
    + intros t' br' Hin. unfold records in Hin.
      apply list_elem_of_bind in Hin as ([t'' rs'] & Hin & Hentry).
      apply list_elem_of_fmap in Hin as (x & [= -> ->] & Hx). simpl in *.
      split.
      * intros ->. rewrite fmap_app, fmap_cons in Hkeys.
        apply NoDup_app in Hkeys as (_ & Hdisj & _).
        apply (Hdisj t); [by apply (list_elem_of_fmap_2 fst _ (t, rs')) | by left].
      * exists rs'. split; [|done]. apply Hall. apply elem_of_app. by left.
    + done.
    + by rewrite app_nil_r.
    + rewrite foldM_cons.
      change (append_target Sprintf range format build ncols st (t, rs))
        with (foldM (append_record Sprintf range format build ncols t) rs st).
      rewrite Hst1. cbn [mbind option_bind]. rewrite Happ.
      apply IH; [by rewrite <- Happ | by rewrite <- Happ | done |].
      unfold records. rewrite bind_app. simpl. by rewrite app_nil_r.
Qed.

End Placing.

Section Places.

Variable Sprintf : string → list string → string.
Variable range : ∀ V : Type, gmap string V → list (string * V).
Hypothesis range_once : range_visits_once range.

(** What [AppendColumn] does with a build whose records have names of
    their own, row by row. *)
Lemma AppendColumn_table headers format grid rows build :
  grid_inv grid rows →
  (Z.of_nat (length (Grid.Columns grid)) + 1 < 2 ^ 30)%Z →
  names_distinct Sprintf format build →
  ∃ grid' rows',
    AppendColumn Sprintf range headers format grid rows build
    = Some (grid', rows')
    ∧ grid_inv grid' rows'
    ∧ Grid.Columns grid' = Grid.Columns grid ++ [column_record headers build]
    ∧ (∀ t rs br,
         Column.Rows build !! t = Some rs → br ∈ rs →
         ∃ p r',
           rows' !! record_name Sprintf format build br = Some p
           ∧ Grid.Rows grid' !! p = Some r'
           ∧ state.Row.Name r' = record_name Sprintf format build br
           ∧ placed Sprintf format build (length (Grid.Columns grid))
               (Grid.Rows grid) t br p r')
    ∧ (∀ p r,
         Grid.Rows grid !! p = Some r →
         ∃ r',
           Grid.Rows grid' !! p = Some r'
           ∧ ((∃ t rs br,
                 Column.Rows build !! t = Some rs ∧ br ∈ rs
                 ∧ record_name Sprintf format build br = state.Row.Name r
                 ∧ row_extended r r' [br])
              ∨ ((∀ t rs br, Column.Rows build !! t = Some rs → br ∈ rs →
                    record_name Sprintf format build br ≠ state.Row.Name r)
                 ∧ row_extended r r' [noResult])))
    ∧ (∀ p r',
         length (Grid.Rows grid) ≤ p → Grid.Rows grid' !! p = Some r' →
         ∃ t rs br,
           Column.Rows build !! t = Some rs ∧ br ∈ rs
           ∧ record_name Sprintf format build br = state.Row.Name r'
           ∧ row_extended (new_row (state.Row.Name r') t) r'
               (replicate (length (Grid.Columns grid)) noResult ++ [br])).
Proof.
  intros [Hidx Hrows] Hmax Hdistinct.
  destruct (AppendColumn_spec Sprintf range range_once headers format grid rows
              build (conj Hidx Hrows) Hmax)
    as (grid' & rows' & Hret & [Hidx2 Hrows2] & Hcols').
  exists grid', rows'. split; [done|]. split; [done|]. split; [done|].
  assert (∀ p r, Grid.Rows grid !! p = Some r →
            ∃ r3, Grid.Rows grid' !! p = Some r3
                  ∧ state.Row.Name r3 = state.Row.Name r) as Hold_rows.
  { destruct (AppendColumn_grows Sprintf range range_once headers format grid
                rows build (conj Hidx Hrows) Hmax)
      as (g & rw & Hret' & _ & Hgrow & _).
    rewrite Hret in Hret'. injection Hret' as <- <-.
    intros p r Hr. destruct (Hgrow p r Hr) as (r' & br & Hr' & (Hname & _) & _).
    eauto. }
  unfold AppendColumn in Hret. cbv zeta in Hret.
  assert (length (Grid.Columns grid ++ [column_record headers build])
          = S (length (Grid.Columns grid)))
    as Hlen by (rewrite length_app; simpl; lia).
  rewrite Hcols', Hlen in Hrows2. rewrite Hlen in Hret.
  set (n := S (length (Grid.Columns grid))) in *.
  assert (1 <= Z.of_nat n < 2 ^ 30)%Z as Hn by lia.
  assert (Forall (row_ok (Z.of_nat n - 1)) (Grid.Rows grid)) as Hrows0
    by (by replace (Z.of_nat n - 1)%Z
          with (Z.of_nat (length (Grid.Columns grid))) by lia).
  destruct (append_targets_placed Sprintf range range_once format build n
              (Grid.Rows grid) rows Hn Hidx Hdistinct
              (range _ (Column.Rows build)) []
              (Assembly.mk (Grid.Rows grid) rows rows ∅))
    as (st & Hst & (Hidx' & Hsub & Hfound & Hrows')
        & (Hfound_iff & Hplaced & Hmiss_iff & Hsame & Hnewf & Hlen0)).
  { simpl. apply (range_NoDup range range_once). }
  { simpl. intros t rs Hin. by apply (range_lookup range range_once). }
  { split; [done|]. split; [done|]. split; [simpl; congruence|].
    simpl. intros p r Hr. rewrite (proj1 Hidx p r Hr).
    rewrite Forall_lookup in Hrows0. by eapply Hrows0. }
  { split; [|split; [|split; [|split; [|split]]]]; simpl.
    - intros nm. split; [intros Hin; by apply elem_of_empty in Hin|].
      intros (t & br & Hin & _). by apply elem_of_nil in Hin.
    - intros t br Hin. by apply elem_of_nil in Hin.
    - intros nm p. split; [intros Hp; split; [done | apply not_elem_of_empty]|].
      by intros [? _].
    - done.
    - intros p r' Hp Hr'. apply lookup_lt_Some in Hr'. lia.
    - done. }
  simpl in Hst, Hfound_iff, Hplaced.
  rewrite Hst in Hret. cbn [mbind option_bind] in Hret.
  apply bind_Some in Hret as (grid_rows & Hfold & [= <- <-]).
  cbn [Grid.Rows] in *.
  destruct (append_missing_grows (Z.of_nat n) (range _ (Assembly.missing st))
              (Assembly.grid_rows st) (Assembly.rows st)
              (length (Assembly.grid_rows st)) Hn)
    with (grid_rows' := grid_rows) as [Hext _];
    [apply (range_NoDup range range_once) | done | | | | done |].
  { intros name p Hin%(range_lookup range range_once). by apply Hsub. }
  { intros p r Hr. specialize (Hrows' p r Hr).
    destruct (Assembly.missing st !! state.Row.Name r) as [q|] eqn:Hq.
    - rewrite decide_True; [done|]. apply list_elem_of_fmap.
      exists (state.Row.Name r, q). split; [done|].
      by apply (range_lookup range range_once).
    - rewrite decide_False; [done|]. intros [[nm q] [Hnm Hin]]%list_elem_of_fmap.
      apply (range_lookup range range_once) in Hin. simpl in Hnm. congruence. }
  { intros name p Hin%(range_lookup range range_once).
    apply Hsub in Hin. destruct (proj2 Hidx' _ _ Hin) as (x & Hx & _).
    by eapply lookup_lt_Some. }
  assert (∀ t br,
            (t, br) ∈ range _ (Column.Rows build)
                        ≫= (λ entry, pair entry.1 <$> entry.2)
            ↔ ∃ rs, Column.Rows build !! t = Some rs ∧ br ∈ rs) as Hrecords.
  { intros t br. rewrite list_elem_of_bind. split.
    - intros ([t' rs] & Hin & Hentry).
      apply list_elem_of_fmap in Hin as (x & [= -> ->] & Hx). simpl in *.
      exists rs. split; [by apply (range_lookup range range_once) | done].
    - intros (rs & Hrs & Hbr). exists (t, rs).
      split; [by apply list_elem_of_fmap_2
             | by apply (range_lookup range range_once)]. }
  rewrite Forall_lookup in Hrows2.
  (* a row that a record names is not touched by the last loop *)
  assert (∀ t br p r1,
            (t, br) ∈ range _ (Column.Rows build)
                        ≫= (λ entry, pair entry.1 <$> entry.2) →
            Assembly.rows st !! record_name Sprintf format build br = Some p →
            Assembly.grid_rows st !! p = Some r1 →
            ∃ r2, grid_rows !! p = Some r2 ∧ row_extended r1 r2 []
                  ∧ state.Row.Name r2 = record_name Sprintf format build br)
    as Hkept.
  { intros t br p r1 Hin Hp Hr1.
    destruct (Hext p r1 Hr1) as (r2 & brs & Hr2 & Hext2 & Hbrs).
    assert (state.Row.Name r1 = record_name Sprintf format build br) as Hname1.
    { destruct (proj2 Hidx' _ _ Hp) as (x & Hx & Hxname). congruence. }
    assert (Assembly.missing st !! state.Row.Name r1 = None) as Hnone.
    { destruct (Assembly.missing st !! state.Row.Name r1) as [q|] eqn:Hq; [|done].
      apply Hmiss_iff in Hq as [_ Hnot]. exfalso. apply Hnot, Hfound_iff.
      by exists t, br. }
    assert (row_ok (Z.of_nat n) r1) as Hok1.
    { specialize (Hrows' p r1 Hr1). by rewrite Hnone in Hrows'. }
    pose proof (row_extended_count _ _ _ _ _ Hok1 (Hrows2 p r2 Hr2) Hext2) as Hcount.
    assert (brs = []) as -> by (destruct brs; [done | simpl in Hcount; lia]).
    exists r2. split; [done|]. split; [done|].
    destruct Hext2 as (-> & _). done. }
  replace (length (Grid.Columns grid)) with (n - 1) by lia.
  split; [|split].
  - intros t rs br Hrs Hbr.
    assert ((t, br) ∈ range _ (Column.Rows build)
                         ≫= (λ entry, pair entry.1 <$> entry.2)) as Hin
      by (apply Hrecords; eauto).
    destruct (Hplaced t br Hin) as (p & r1 & Hp & Hr1 & Hpl).
    destruct (Hkept t br p r1 Hin Hp Hr1) as (r2 & Hr2 & Hext2 & Hname2).
    exists p, r2. split; [done|]. split; [done|]. split; [done|].
    destruct Hpl as [(r0 & Hr0 & Hx0)|[Hge Hx0]].
    + left. exists r0. split; [done|].
      pose proof (row_extended_trans _ _ _ _ _ Hx0 Hext2) as Hx.
      by rewrite app_nil_r in Hx.
    + right. split; [done|].
      pose proof (row_extended_trans _ _ _ _ _ Hx0 Hext2) as Hx.
      by rewrite app_nil_r in Hx.
  - intros p r Hr.
    destruct (decide (state.Row.Name r ∈ Assembly.found st)) as [Hin|Hnot].
    + apply Hfound_iff in Hin as (t & br & Hin & Heq).
      destruct (Hplaced t br Hin) as (p' & r1 & Hp & Hr1 & Hpl).
      assert (p' = p) as ->.
      { destruct (Hold_rows p r Hr) as (r3 & Hr3 & Hname3).
        pose proof (proj1 Hidx2 _ _ Hr3) as Hq3.
        rewrite Hname3, <- Heq in Hq3. congruence. }
      destruct (Hkept t br p r1 Hin Hp Hr1) as (r2 & Hr2 & Hext2 & Hname2).
      exists r2. split; [done|]. left.
      apply Hrecords in Hin as (rs & Hrs & Hbr).
      exists t, rs, br. split; [done|]. split; [done|]. split; [done|].
      destruct Hpl as [(r0 & Hr0 & Hx0)|[Hge Hx0]].
      * assert (r0 = r) as -> by congruence.
        pose proof (row_extended_trans _ _ _ _ _ Hx0 Hext2) as Hx.
        by rewrite app_nil_r in Hx.
      * apply lookup_lt_Some in Hr. lia.
    + pose proof (Hsame p r Hr Hnot) as Hr1.
      assert (Assembly.missing st !! state.Row.Name r = Some p) as Hmissing.
      { apply Hmiss_iff. split; [by apply (proj1 Hidx) | done]. }
      assert (row_ok (Z.of_nat n - 1) r) as Hok1
        by (rewrite Forall_lookup in Hrows0; by eapply Hrows0).
      destruct (Hext p r Hr1) as (r2 & brs & Hr2 & Hext2 & Hbrs).
      pose proof (row_extended_count _ _ _ _ _ Hok1 (Hrows2 p r2 Hr2) Hext2)
        as Hcount.
      destruct brs as [|x [|y brs]]; simpl in Hcount; [lia | | lia].
      apply Forall_singleton in Hbrs as ->.
      exists r2. split; [done|]. right. split; [|done].
      intros t rs br Hrs Hbr Heq. apply Hnot, Hfound_iff.
      exists t, br. split; [|done]. apply Hrecords. eauto.
  - intros p r2 Hp Hr2.
    assert (p < length (Assembly.grid_rows st)) as Hlt.
    { destruct (decide (p < length (Assembly.grid_rows st))) as [|Hge]; [done|].
      exfalso.
      destruct (lookup_lt_is_Some_2 grid_rows p) as [x Hx];
        [by eapply lookup_lt_Some|].
      pose proof (proj1 Hidx2 _ _ Hx) as Hq.
      destruct (proj2 Hidx' _ _ Hq) as (y & Hy & _).
      apply lookup_lt_Some in Hy. lia. }
    destruct (lookup_lt_is_Some_2 _ _ Hlt) as [r1 Hr1].
    pose proof (Hnewf p r1 Hp Hr1) as Hin.
    apply Hfound_iff in Hin as (t & br & Hin & Heq).
    destruct (Hplaced t br Hin) as (p' & r1' & Hp' & Hr1' & Hpl).
    assert (p' = p) as ->.
    { rewrite Heq in Hp'. pose proof (proj1 Hidx' _ _ Hr1). congruence. }
    assert (r1' = r1) as -> by congruence.
    destruct (Hkept t br p r1 Hin Hp' Hr1) as (r2' & Hr2' & Hext2 & Hname2).
    assert (r2' = r2) as -> by congruence.
    apply Hrecords in Hin as (rs & Hrs & Hbr).
    exists t, rs, br. split; [done|]. split; [done|]. split; [done|].
    destruct Hpl as [(r0 & Hr0 & Hx0)|[Hge Hx0]].
    + apply lookup_lt_Some in Hr0. lia.
    + rewrite Hname2.
      pose proof (row_extended_trans _ _ _ _ _ Hx0 Hext2) as Hx.
      by rewrite app_nil_r in Hx.
Qed.

(** X25. When no two records of the build are given the same name,
    [AppendColumn] puts every record into the row of its name: the map
    of rows points at that row, which is a row the grid had, with the
    record as its one new cell, or a new row with an empty cell for each
    column the grid had and then the record. Every row of the grid that
    no record names gets one empty cell. *)
Theorem AppendColumn_places headers format grid rows build :
  grid_inv grid rows →
  (Z.of_nat (length (Grid.Columns grid)) + 1 < 2 ^ 30)%Z →
  names_distinct Sprintf format build →
  ∃ grid' rows',
    AppendColumn Sprintf range headers format grid rows build
    = Some (grid', rows')
    ∧ (∀ t rs br,
         Column.Rows build !! t = Some rs → br ∈ rs →
         ∃ p r',
           rows' !! record_name Sprintf format build br = Some p
           ∧ Grid.Rows grid' !! p = Some r'
           ∧ state.Row.Name r' = record_name Sprintf format build br
           ∧ placed Sprintf format build (length (Grid.Columns grid))
               (Grid.Rows grid) t br p r')
    ∧ (∀ p r,
         Grid.Rows grid !! p = Some r →
         (∀ t rs br, Column.Rows build !! t = Some rs → br ∈ rs →
                     record_name Sprintf format build br ≠ state.Row.Name r) →
         ∃ r', Grid.Rows grid' !! p = Some r' ∧ row_extended r r' [noResult]).
Proof.
  intros Hinv Hmax Hdistinct.
  destruct (AppendColumn_table headers format grid rows build Hinv Hmax Hdistinct)
    as (grid' & rows' & Hret & _ & _ & Hrecords & Hold & _).
  exists grid', rows'. split; [done|]. split; [done|].
  intros p r Hr Hunnamed.
  destruct (Hold p r Hr) as (r' & Hr' & [(t & rs & br & Hrs & Hbr & Heq & _)|[_ Hext]]).
  - by destruct (Hunnamed t rs br Hrs Hbr).
  - by exists r'.
Qed.

End Places.

Lemma example_b1_names_distinct :
  names_distinct Sprintf_plain defaultNameConfig example_b1.
Proof.
  intros t1 rs1 i br1 t2 rs2 j br2 Hrs1 Hbr1 Hrs2 Hbr2 _.
  unfold example_b1 in Hrs1, Hrs2. cbn [Column.Rows] in Hrs1, Hrs2.
  apply lookup_singleton_Some in Hrs1 as [<- <-].
  apply lookup_singleton_Some in Hrs2 as [<- <-].
  apply list_lookup_singleton_Some in Hbr1 as [-> _].
  apply list_lookup_singleton_Some in Hbr2 as [-> _]. done.
Qed.

Lemma AppendColumn_places_witness :
  ∃ grid' rows',
    AppendColumn Sprintf_plain range_any [] defaultNameConfig example_grid
      example_rows example_b1
    = Some (grid', rows')
    ∧ (∀ t rs br,
         Column.Rows example_b1 !! t = Some rs → br ∈ rs →
         ∃ p r',
           rows' !! record_name Sprintf_plain defaultNameConfig example_b1 br
           = Some p
           ∧ Grid.Rows grid' !! p = Some r'
           ∧ state.Row.Name r'
             = record_name Sprintf_plain defaultNameConfig example_b1 br
           ∧ placed Sprintf_plain defaultNameConfig example_b1
               (length (Grid.Columns example_grid))
               (Grid.Rows example_grid) t br p r')
    ∧ (∀ p r,
         Grid.Rows example_grid !! p = Some r →
         (∀ t rs br, Column.Rows example_b1 !! t = Some rs → br ∈ rs →
                     record_name Sprintf_plain defaultNameConfig example_b1 br
                     ≠ state.Row.Name r) →
         ∃ r', Grid.Rows grid' !! p = Some r' ∧ row_extended r r' [noResult]).
Proof.
  apply (AppendColumn_places Sprintf_plain range_any range_any_visits_once
           [] defaultNameConfig example_grid example_rows example_b1
           example_grid_inv);
    [simpl; lia | exact example_b1_names_distinct].
Defined.

(** ** The grid is the table of the builds *)

Section Tabling.

Variable Sprintf : string → list string → string.
Variable range : ∀ V : Type, gmap string V → list (string * V).
Hypothesis range_once : range_visits_once range.



Variable sort_Stable : list state.Row.t → list state.Row.t.
Hypothesis sort_Stable_perm : ∀ l, sort_Stable l ≡ₚ l.


End Tabling.



(** ** Every row from the records of the builds *)

Section Recording.

Variable Sprintf : string → list string → string.
Variable range : ∀ V : Type, gmap string V → list (string * V).
Hypothesis range_once : range_visits_once range.



Variable sort_Stable : list state.Row.t → list state.Row.t.
Hypothesis sort_Stable_perm : ∀ l, sort_Stable l ≡ₚ l.


End Recording.


